(** * x-mcp-server: request broker, credential provider, credential refresher

    A shallow embedding of
      - [TwitterClient] (twitter-api.ts): the rate/quota governor
        [checkRateLimit], the error funnel [handleApiError] and the six
        public operations;
      - [V2MediaUploader] (media/v2-upload.ts);
      - [createTwitterClient] (auth/factory.ts);
      - [OAuth2Handler] (auth/oauth2-handler.ts);
      - [TwitterServer] (index.ts): the configuration read from the
        environment, the tool handlers and their error handler;
      - the constants, types and schemas they use (types.ts).

    Stateful methods are state-passing functions over the object's fields;
    the remote platform, the clock and the host's calendar are oracles of a
    [World]; every remote call and every quota check is recorded in a trace.
    Diagnostics written with [console.error] are not modelled. *)

From Stdlib Require Import ZArith Lia List Ascii String DecimalString QArith.
From stdpp Require Import gmap strings.
Import ListNotations.
Local Open Scope Z_scope.

(** ** JavaScript primitives used by the sources *)

Module Js.

(** [if (x)] on an optional string: defined and not empty. *)
Definition truthy_str (o : option string) : bool :=
  match o with
  | Some s => negb (String.eqb s "")
  | None => false
  end.

(** [if (x)] on an optional number: defined and not zero. *)
Definition truthy_num (o : option Z) : bool :=
  match o with
  | Some n => negb (n =? 0)
  | None => false
  end.

(** [a || b] on optional strings. *)
Definition or_str (a b : option string) : option string :=
  if truthy_str a then a else b.

(** [a || d] where [a] is an optional number and [d] a number. *)
Definition or_num (a : option Z) (d : Z) : Z :=
  match a with
  | Some n => if n =? 0 then d else n
  | None => d
  end.

(** [a ?? d]. *)
Definition nullish {A : Type} (a : option A) (d : A) : A :=
  match a with
  | Some x => x
  | None => d
  end.

(** A template literal's rendering of an integral number. *)
Definition show (z : Z) : string := NilZero.string_of_int (Z.to_int z).

(** [Math.ceil(a / b)] for integers [a] and [b > 0].  The quotient of two
    integers below 2^53 is either integral or at least [1/b] away from an
    integer, so the double-precision division does not change the ceiling. *)
Definition ceil_div (a b : Z) : Z := - ((- a) / b).

(** [Math.round(a / b)] for integers [a] and [b > 0]: halves round up. *)
Definition round_div (a b : Z) : Z := (2 * a + b) / (2 * b).

(** [s.includes(needle)]. *)
Fixpoint includes (needle s : string) : bool :=
  String.prefix needle s ||
  match s with
  | EmptyString => false
  | String _ s' => includes needle s'
  end.

(** [s.startsWith(p)]. *)
Definition startsWith (p s : string) : bool := String.prefix p s.

(** [s.length], for text whose code units are single bytes. *)
Definition strlen (s : string) : Z := Z.of_nat (String.length s).

End Js.

(** ** The runtime's base64 codec ([Buffer.from(s, 'base64')] and
    [buf.toString('base64')])

    The encoder is RFC 4648 with padding.  The decoder is the runtime's
    lenient one: both alphabets are accepted, characters outside them are
    skipped, and decoding stops at the first [=]. *)

Module Base64.

Definition Buffer := list Byte.byte.

Definition buflen (b : Buffer) : Z := Z.of_nat (List.length b).

Definition alphabet (n : N) : ascii :=
  if (n <? 26)%N then ascii_of_N (65 + n)
  else if (n <? 52)%N then ascii_of_N (97 + (n - 26))
  else if (n <? 62)%N then ascii_of_N (48 + (n - 52))
  else if (n =? 62)%N then "+"%char
  else "/"%char.

Definition unbase64 (c : ascii) : option N :=
  let k := N_of_ascii c in
  if ((65 <=? k) && (k <=? 90))%N then Some (k - 65)%N
  else if ((97 <=? k) && (k <=? 122))%N then Some (k - 71)%N
  else if ((48 <=? k) && (k <=? 57))%N then Some (k + 4)%N
  else if ((k =? 43) || (k =? 45))%N then Some 62%N
  else if ((k =? 47) || (k =? 95))%N then Some 63%N
  else None.

Definition byte_of (n : N) : Byte.byte :=
  match Byte.of_N (n mod 256) with
  | Some b => b
  | None => Byte.x00
  end.

Definition sx (n : N) : string -> string := String (alphabet (n mod 64)).

Fixpoint encode (b : Buffer) : string :=
  match b with
  | [] => ""
  | [x] =>
      let n := (Byte.to_N x * 65536)%N in
      sx (n / 262144) (sx (n / 4096) "==")
  | [x; y] =>
      let n := (Byte.to_N x * 65536 + Byte.to_N y * 256)%N in
      sx (n / 262144) (sx (n / 4096) (sx (n / 64) "="))
  | x :: y :: z :: rest =>
      let n := (Byte.to_N x * 65536 + Byte.to_N y * 256 + Byte.to_N z)%N in
      sx (n / 262144) (sx (n / 4096) (sx (n / 64) (sx n (encode rest))))
  end.

(** The legal characters of [s] up to the first [=], as 6-bit values. *)
Fixpoint sextets (s : string) : list N :=
  match s with
  | EmptyString => []
  | String c s' =>
      if Ascii.eqb c "="%char then []
      else match unbase64 c with
           | Some n => n :: sextets s'
           | None => sextets s'
           end
  end.

Fixpoint pack (l : list N) : Buffer :=
  match l with
  | a :: b :: c :: d :: rest =>
      byte_of (a * 4 + b / 16) :: byte_of (b * 16 + c / 4)
        :: byte_of (c * 64 + d) :: pack rest
  | [a; b; c] => [byte_of (a * 4 + b / 16); byte_of (b * 16 + c / 4)]
  | [a; b] => [byte_of (a * 4 + b / 16)]
  | _ => []
  end%N.

Definition decode (s : string) : Buffer := pack (sextets s).

(** [n] copies of a chunk, for payloads too long to write out. *)
Definition repeat_text (chunk : string) (n : N) : string :=
  N.iter n (String.append chunk) "".

Definition repeat_bytes (chunk : Buffer) (n : N) : Buffer :=
  N.iter n (app chunk) [].

End Base64.

(** ** Errors *)

(** A machine-readable error code: the platform library uses the HTTP status
    (a number), the broker's own errors use a string. *)
Inductive Code :=
| CodeNum (n : Z)
| CodeStr (s : string).

Definition truthy_code (c : Code) : bool :=
  match c with
  | CodeNum n => negb (n =? 0)
  | CodeStr s => negb (String.eqb s "")
  end.

(** [class TwitterError extends Error]: message, code, optional status. *)
Record TwitterError := mkTwitterError {
  te_message : string;
  te_code : Code;
  te_status : option Z
}.

(** A thrown value (never [null] or [undefined]: neither the broker nor the
    platform library throws those). *)
Inductive Thrown :=
| Tagged (e : TwitterError)
| ErrorObj (msg : string) (code : option Code) (status : option Z)
| Value (msg : option string) (code : option Code) (status : option Z).

Definition instanceof_TwitterError (t : Thrown) : bool :=
  match t with
  | Tagged _ => true
  | _ => false
  end.

(** [TwitterError] extends [Error]. *)
Definition instanceof_Error (t : Thrown) : bool :=
  match t with
  | Tagged _ | ErrorObj _ _ _ => true
  | Value _ _ _ => false
  end.

Definition thrown_message (t : Thrown) : option string :=
  match t with
  | Tagged e => Some (te_message e)
  | ErrorObj m _ _ => Some m
  | Value m _ _ => m
  end.

Definition thrown_code (t : Thrown) : option Code :=
  match t with
  | Tagged e => Some (te_code e)
  | ErrorObj _ c _ | Value _ c _ => c
  end.

Definition thrown_status (t : Thrown) : option Z :=
  match t with
  | Tagged e => te_status e
  | ErrorObj _ _ s | Value _ _ s => s
  end.

Inductive Outcome (A : Type) :=
| Returned (a : A)
| Threw (e : Thrown).

Arguments Returned {A} a.
Arguments Threw {A} e.

(** ** Data model (src/types.ts) *)

Inductive AuthType := oauth1 | oauth2.

Record Config := mkConfig {
  apiKey : option string;
  apiSecretKey : option string;
  accessToken : option string;
  accessTokenSecret : option string;
  authType : AuthType;
  oauth2ClientId : option string;
  oauth2ClientSecret : option string;
  oauth2AccessToken : option string;
  oauth2RefreshToken : option string;
  oauth2TokenExpiresAt : option string
}.

Record MediaItem := mkMediaItem {
  data : string;
  media_type : string
}.

Definition MAX_BASE64_SIZE : Z := 15 * 1024 * 1024.
Definition MAX_MEDIA_FILE_SIZE : Z := 5 * 1024 * 1024.

(** A media identifier as the uploaders return it; [None] is [undefined]. *)
Definition MediaId := option string.

Record TweetOptions := mkTweetOptions {
  opt_text : string;
  opt_reply : option string;
  opt_media : option (list MediaId)
}.

Record TwitterApiResponse := mkTwitterApiResponse {
  resp_id : string;
  resp_text : string
}.

Record PostedTweet := mkPostedTweet {
  posted_id : string;
  posted_text : string
}.

Record PublicMetrics := mkPublicMetrics {
  like_count : option Z;
  retweet_count : option Z;
  reply_count : option Z;
  quote_count : option Z
}.

Record ApiTweet := mkApiTweet {
  tweet_id : string;
  tweet_text : string;
  author_id : option string;
  public_metrics : option PublicMetrics;
  created_at : option string
}.

Record ApiUser := mkApiUser {
  user_id : string;
  user_username : string;
  user_name : string;
  user_verified : option bool
}.

Record SearchResult := mkSearchResult {
  res_tweets : list ApiTweet;
  res_users : list ApiUser
}.

Record TweetMetrics := mkTweetMetrics {
  likes : Z;
  retweets : Z;
  replies : option Z;
  quotes : option Z
}.

Record Tweet := mkTweet {
  tw_id : string;
  tw_text : string;
  tw_authorId : string;
  tw_metrics : TweetMetrics;
  tw_createdAt : string
}.

Record TwitterUser := mkTwitterUser {
  usr_id : string;
  usr_username : string;
  usr_name : string;
  usr_verified : bool
}.

(** The session handle [new TwitterApi(...)]: a bearer token, or the four
    OAuth 1.0a credentials. *)
Inductive TwitterApi :=
| BearerClient (token : string)
| OAuth1Client (appKey appSecret accessToken accessSecret : string).

(** The body of the v2 upload endpoint's answer, as far as it is read. *)
Record UploadData := mkUploadData {
  ud_id : option string;
  ud_media_key : option string
}.

Record UploadJson := mkUploadJson {
  uj_data : option UploadData;
  uj_media_id_string : option string;
  uj_media_id : option string;
  uj_id : option string
}.

Record UploadResponse := mkUploadResponse {
  up_ok : bool;
  up_text : string;
  up_json : Outcome UploadJson
}.

(** The token endpoint's answer. *)
Record TokenJson := mkTokenJson {
  access_token : string;
  refresh_token : option string;
  expires_in : Z
}.

Record TokenResponse := mkTokenResponse {
  tk_ok : bool;
  tk_text : string;
  tk_json : Outcome TokenJson
}.

(** ** The world: trace, clock, calendar and remote platform *)

(** What a run leaves behind, in order: the quota checks and base64 decodings
    it performed and the remote calls it made. *)
Inductive Event :=
| EvRateCheck (endpoint : string)
| EvDecode (payload : string)
| EvTweet (opts : TweetOptions)
| EvSearch (query : string) (count : Z)
| EvSingleTweet (tweetId : string)
| EvDeleteV2 (tweetId : string)
| EvDestroyV1 (tweetId : string)
| EvUploadV1 (buffer : Base64.Buffer) (mimeType : string)
| EvUploadV2 (token : string) (buffer : Base64.Buffer) (mimeType category : string)
| EvTokenRefresh (clientId clientSecret refreshToken : string)
| EvEnvFile (accessToken : string) (refreshToken : option string) (expiresAt : Z).

Definition Trace := list Event.

(** The three clock readings of one [checkRateLimit] call: [new Date()] on
    entry, [Date.now()] compared with the last request, and [Date.now()]
    stored as the new last request.  All are milliseconds since the epoch. *)
Record Reads := mkReads {
  rd_now : Z;
  rd_check : Z;
  rd_record : Z
}.

(** Every oracle answers from the trace so far.  [next_day t] is the instant
    [setDate(getDate() + 1)] yields for the instant [t]: the same local wall
    clock time on the next calendar day.  [parse_date s] is [new Date(s)]
    ([None] for an invalid date) and [iso_string] is [toISOString]. *)
Record World := mkWorld {
  clock : Trace -> Reads;
  next_day : Z -> Z;
  parse_date : string -> option Z;
  iso_string : Z -> string;
  v2_tweet : Trace -> TweetOptions -> Outcome TwitterApiResponse;
  v2_search : Trace -> string -> Z -> Outcome SearchResult;
  v2_singleTweet : Trace -> string -> Outcome ApiTweet;
  v2_deleteTweet : Trace -> string -> Outcome bool;
  v1_destroy : Trace -> string -> Outcome (option string);
  v1_uploadMedia : Trace -> Base64.Buffer -> string -> Outcome string;
  fetch_upload : Trace -> string -> Base64.Buffer -> string -> string -> Outcome UploadResponse;
  fetch_token : Trace -> string -> string -> string -> Outcome TokenResponse
}.

Definition DAY_MS : Z := 24 * 60 * 60 * 1000.

(** ** A state, error and trace monad for the methods *)

Definition M (S A : Type) : Type :=
  World -> S -> Trace -> Outcome A * S * Trace.

Definition ret {S A} (a : A) : M S A := fun _ s tr => (Returned a, s, tr).

Definition throw {S A} (e : Thrown) : M S A := fun _ s tr => (Threw e, s, tr).

Definition bind {S A B} (m : M S A) (k : A -> M S B) : M S B :=
  fun w s tr =>
    match m w s tr with
    | (Returned a, s', tr') => k a w s' tr'
    | (Threw e, s', tr') => (Threw e, s', tr')
    end.

(** [try { m } catch (e) { handler e }]. *)
Definition tryCatch {S A} (m : M S A) (handler : Thrown -> M S A) : M S A :=
  fun w s tr =>
    match m w s tr with
    | (Returned a, s', tr') => (Returned a, s', tr')
    | (Threw e, s', tr') => handler e w s' tr'
    end.

Definition gets {S A} (f : S -> A) : M S A := fun _ s tr => (Returned (f s), s, tr).

Definition modify {S} (f : S -> S) : M S unit := fun _ s tr => (Returned tt, f s, tr).

Definition asks {S A} (f : World -> A) : M S A := fun w s tr => (Returned (f w), s, tr).

Definition emit {S} (e : Event) : M S unit := fun _ s tr => (Returned tt, s, tr ++ [e]).

Definition readClock {S} (f : Reads -> Z) : M S Z :=
  fun w s tr => (Returned (f (clock w tr)), s, tr).

(** [await] of a remote call: the oracle answers from the trace so far, and
    the call is appended to the trace. *)
Definition remote {S A} (e : Event) (oracle : World -> Trace -> Outcome A) : M S A :=
  fun w s tr => (oracle w tr, s, tr ++ [e]).

Definition liftOutcome {S A} (o : Outcome A) : M S A := fun _ s tr => (o, s, tr).

Declare Scope m_scope.
Delimit Scope m_scope with M.
Notation "x <- m ;; k" := (bind m (fun x => k))
  (at level 100, m at next level, right associativity) : m_scope.
Notation "m ;; k" := (bind m (fun _ => k))
  (at level 100, right associativity) : m_scope.
Local Open Scope m_scope.

(** ** TwitterClient (src/twitter-api.ts) *)

Record DailyTracker := mkDailyTracker {
  count : Z;
  resetAt : Z
}.

(** The object's fields.  [v2MediaUploader] holds the uploader's access
    token when the uploader exists. *)
Record TwitterClient := mkTwitterClient {
  client : TwitterApi;
  config : Config;
  v2MediaUploader : option string;
  rateLimitMap : gmap string Z;
  dailyLimits : gmap string DailyTracker
}.

Definition set_rateLimitMap (f : gmap string Z -> gmap string Z) (c : TwitterClient) : TwitterClient :=
  mkTwitterClient (client c) (config c) (v2MediaUploader c) (f (rateLimitMap c)) (dailyLimits c).

Definition set_dailyLimits (f : gmap string DailyTracker -> gmap string DailyTracker) (c : TwitterClient) : TwitterClient :=
  mkTwitterClient (client c) (config c) (v2MediaUploader c) (rateLimitMap c) (f (dailyLimits c)).

(** Property lookup in an object literal used as a table.  The operations
    only pass the five endpoint literals; properties inherited from the
    object's prototype are not modelled. *)
Fixpoint prop_get {V : Type} (table : list (string * V)) (key : string) : option V :=
  match table with
  | [] => None
  | (k, v) :: rest => if String.eqb k key then Some v else prop_get rest key
  end.

Definition DAILY_LIMITS : list (string * Z) :=
  [ ("tweets/create", 17); ("tweets/delete", 17); ("media/upload", 17) ].

Definition RATE_LIMITS_MS : list (string * Z) :=
  [ ("tweets/lookup", 15 * 60 * 1000);
    ("tweets/search", 15 * 60 * 1000);
    ("tweets/create", 60 * 1000);
    ("tweets/delete", 60 * 1000);
    ("media/upload", 60 * 1000) ].

Definition rateLimitError (waitTime : Z) (endpoint : string) : TwitterError :=
  mkTwitterError
    ("Rate limit: Please wait " +:+ Js.show waitTime +:+ " seconds before next "
       +:+ endpoint +:+ " request")
    (CodeStr "rate_limit_exceeded") (Some 429).

Definition dailyLimitError (dailyLimit hoursUntilReset : Z) : TwitterError :=
  mkTwitterError
    ("Daily limit exceeded (" +:+ Js.show dailyLimit +:+ " per 24h). Resets in "
       +:+ Js.show hoursUntilReset +:+ " hours.")
    (CodeStr "daily_limit_exceeded") (Some 429).

Definition checkRateLimit (endpoint : string) : M TwitterClient unit :=
  emit (EvRateCheck endpoint) ;;
  now <- readClock rd_now ;;
  (* per-request rate limits *)
  lastRequest <- gets (fun c => rateLimitMap c !! endpoint) ;;
  let rateLimit := Js.or_num (prop_get RATE_LIMITS_MS endpoint) 1000 in
  (if Js.truthy_num lastRequest then
     dateNow <- readClock rd_check ;;
     let timeSinceLastRequest := dateNow - Js.nullish lastRequest 0 in
     if timeSinceLastRequest <? rateLimit then
       let waitTime := Js.ceil_div (rateLimit - timeSinceLastRequest) 1000 in
       throw (Tagged (rateLimitError waitTime endpoint))
     else ret tt
   else ret tt) ;;
  (* daily limits *)
  let dailyLimit := prop_get DAILY_LIMITS endpoint in
  (if Js.truthy_num dailyLimit then
     let dailyLimit := Js.nullish dailyLimit 0 in
     dailyTracker <- gets (fun c => dailyLimits c !! endpoint) ;;
     (match dailyTracker with
      | Some t =>
          if resetAt t <? now then modify (set_dailyLimits (delete endpoint))
          else ret tt
      | None => ret tt
      end) ;;
     current <- gets (fun c => dailyLimits c !! endpoint) ;;
     match current with
     | Some cur =>
         if dailyLimit <=? count cur then
           let hoursUntilReset := Js.ceil_div (resetAt cur - now) (1000 * 60 * 60) in
           throw (Tagged (dailyLimitError dailyLimit hoursUntilReset))
         else
           modify (set_dailyLimits
                     (<[endpoint := mkDailyTracker (count cur + 1) (resetAt cur)]>))
     | None =>
         reset <- asks (fun w => next_day w now) ;;
         modify (set_dailyLimits (<[endpoint := mkDailyTracker 1 reset]>))
     end
   else ret tt) ;;
  dateNow <- readClock rd_record ;;
  modify (set_rateLimitMap (<[endpoint := dateNow]>)).

Definition internalError : TwitterError :=
  mkTwitterError "An unexpected error occurred" (CodeStr "internal_error") (Some 500).

(** [handleApiError(error): never]. *)
Definition handleApiError {A : Type} (error : Thrown) : M TwitterClient A :=
  if instanceof_TwitterError error then throw error
  else
    match thrown_code error with
    | Some c =>
        if truthy_code c then
          throw (Tagged (mkTwitterError
                           (Js.nullish (Js.or_str (thrown_message error) (Some "Twitter API error")) "")
                           c (thrown_status error)))
        else throw (Tagged internalError)
    | None => throw (Tagged internalError)
    end.

(** *** V2MediaUploader.uploadMedia (src/media/v2-upload.ts) *)

Definition V2MediaUploader_uploadMedia {S : Type} (accessToken : string)
    (buffer : Base64.Buffer) (mimeType : string) : M S MediaId :=
  tryCatch
    (let mediaCategory :=
       if Js.startsWith "image/" mimeType then "tweet_image" else "tweet_video" in
     response <- remote (EvUploadV2 accessToken buffer mimeType mediaCategory)
                   (fun w tr => fetch_upload w tr accessToken buffer mimeType mediaCategory) ;;
     if negb (up_ok response) then
       throw (ErrorObj ("Upload failed: " +:+ up_text response) None None)
     else
       result <- liftOutcome (up_json response) ;;
       match uj_data result with
       | Some d => ret (Js.or_str (ud_id d) (ud_media_key d))
       | None =>
           ret (Js.or_str (uj_media_id_string result)
                  (Js.or_str (uj_media_id result) (uj_id result)))
       end)
    (fun error =>
       if instanceof_Error error then
         throw (Tagged (mkTwitterError
                          ("V2 media upload failed: " +:+ Js.nullish (thrown_message error) "")
                          (CodeStr "media_upload_failed") (Some 500)))
       else throw error).

(** *** The public operations *)

Definition postTweet_body (text : string) (replyToTweetId : option string)
    : M TwitterClient PostedTweet :=
  checkRateLimit "tweets/create" ;;
  let tweetOptions :=
    mkTweetOptions text
      (if Js.truthy_str replyToTweetId then replyToTweetId else None) None in
  response <- remote (EvTweet tweetOptions) (fun w tr => v2_tweet w tr tweetOptions) ;;
  ret (mkPostedTweet (resp_id response) (resp_text response)).

Definition postTweet (text : string) (replyToTweetId : option string)
    : M TwitterClient PostedTweet :=
  tryCatch (postTweet_body text replyToTweetId) handleApiError.

Definition fileTooLargeError (len : Z) : TwitterError :=
  mkTwitterError
    ("Media file too large. Maximum size is "
       +:+ Js.show (Js.round_div MAX_MEDIA_FILE_SIZE (1024 * 1024))
       +:+ "MB. Your file is " +:+ Js.show (Js.round_div len (1024 * 1024)) +:+ "MB.")
    (CodeStr "file_too_large") (Some 400).

Definition mediaUploadForbiddenError : TwitterError :=
  mkTwitterError
    "Media upload failed: This might be a scope issue (needs media.write) or authentication problem."
    (CodeStr "media_upload_forbidden") (Some 403).

Definition uploadMedia_body (buffer : Base64.Buffer) (mimeType : string)
    : M TwitterClient MediaId :=
  if MAX_MEDIA_FILE_SIZE <? Base64.buflen buffer then
    throw (Tagged (fileTooLargeError (Base64.buflen buffer)))
  else
    checkRateLimit "media/upload" ;;
    cfg <- gets config ;;
    uploader <- gets v2MediaUploader ;;
    match authType cfg, uploader with
    | oauth2, Some token => V2MediaUploader_uploadMedia token buffer mimeType
    | _, _ =>
        media <- remote (EvUploadV1 buffer mimeType)
                   (fun w tr => v1_uploadMedia w tr buffer mimeType) ;;
        ret (Some media)
    end.

(** The upload's own [catch]: the scope/403 rewrite, then the funnel. *)
Definition uploadMedia_catch (error : Thrown) : M TwitterClient MediaId :=
  if instanceof_Error error
     && (Js.includes "scope" (Js.nullish (thrown_message error) "")
         || Js.includes "403" (Js.nullish (thrown_message error) ""))
  then throw (Tagged mediaUploadForbiddenError)
  else handleApiError error.

Definition uploadMedia (buffer : Base64.Buffer) (mimeType : string)
    : M TwitterClient MediaId :=
  tryCatch (uploadMedia_body buffer mimeType) uploadMedia_catch.

Definition base64TooLargeError : TwitterError :=
  mkTwitterError
    ("Base64 media data too large. Maximum size is "
       +:+ Js.show (Js.round_div MAX_BASE64_SIZE (1024 * 1024)) +:+ "MB encoded.")
    (CodeStr "base64_too_large") (Some 400).

Definition invalidBase64Error : TwitterError :=
  mkTwitterError
    "Invalid base64 media data. Please ensure your media is properly base64 encoded."
    (CodeStr "invalid_base64") (Some 400).

(** One iteration of the [for (const item of mediaItems)] loop. *)
Definition mediaItemStep (item : MediaItem) (mediaIds : list MediaId)
    : M TwitterClient (list MediaId) :=
  if MAX_BASE64_SIZE <? Js.strlen (data item) then
    throw (Tagged base64TooLargeError)
  else
    buffer <- tryCatch
                (emit (EvDecode (data item)) ;;
                 let buffer := Base64.decode (data item) in
                 if negb (String.eqb (Base64.encode buffer) (data item)) then
                   throw (ErrorObj "Invalid base64 encoding" None None)
                 else ret buffer)
                (fun _ => throw (Tagged invalidBase64Error)) ;;
    mediaId <- uploadMedia buffer (media_type item) ;;
    ret (mediaIds ++ [mediaId]).

Fixpoint mediaLoop (items : list MediaItem) (mediaIds : list MediaId)
    : M TwitterClient (list MediaId) :=
  match items with
  | [] => ret mediaIds
  | item :: rest =>
      mediaIds' <- mediaItemStep item mediaIds ;;
      mediaLoop rest mediaIds'
  end.

Definition postTweetWithMedia_body (text : string) (replyToTweetId : option string)
    (mediaItems : option (list MediaItem)) : M TwitterClient PostedTweet :=
  checkRateLimit "tweets/create" ;;
  media <- match mediaItems with
           | Some ((_ :: _) as items) =>
               mediaIds <- mediaLoop items [] ;;
               ret (Some mediaIds)
           | _ => ret None
           end ;;
  let tweetOptions :=
    mkTweetOptions text
      (if Js.truthy_str replyToTweetId then replyToTweetId else None) media in
  response <- remote (EvTweet tweetOptions) (fun w tr => v2_tweet w tr tweetOptions) ;;
  ret (mkPostedTweet (resp_id response) (resp_text response)).

Definition postTweetWithMedia (text : string) (replyToTweetId : option string)
    (mediaItems : option (list MediaItem)) : M TwitterClient PostedTweet :=
  tryCatch (postTweetWithMedia_body text replyToTweetId mediaItems) handleApiError.

Definition metric (m : option PublicMetrics) (f : PublicMetrics -> option Z) : option Z :=
  match m with
  | Some pm => f pm
  | None => None
  end.

Definition searchTweets_body (query : string) (n : Z)
    : M TwitterClient (list Tweet * list TwitterUser) :=
  checkRateLimit "tweets/search" ;;
  response <- remote (EvSearch query n) (fun w tr => v2_search w tr query n) ;;
  let tweets :=
    map (fun tweet =>
           mkTweet (tweet_id tweet) (tweet_text tweet)
             (Js.nullish (author_id tweet) "")
             (mkTweetMetrics
                (Js.nullish (metric (public_metrics tweet) like_count) 0)
                (Js.nullish (metric (public_metrics tweet) retweet_count) 0)
                (Some (Js.nullish (metric (public_metrics tweet) reply_count) 0))
                (Some (Js.nullish (metric (public_metrics tweet) quote_count) 0)))
             (Js.nullish (created_at tweet) ""))
        (res_tweets response) in
  let users :=
    map (fun user =>
           mkTwitterUser (user_id user) (user_username user) (user_name user)
             (Js.nullish (user_verified user) false))
        (res_users response) in
  ret (tweets, users).

Definition searchTweets (query : string) (n : Z)
    : M TwitterClient (list Tweet * list TwitterUser) :=
  tryCatch (searchTweets_body query n) handleApiError.

Definition getTweet_body (tweetId : string) : M TwitterClient Tweet :=
  checkRateLimit "tweets/lookup" ;;
  response <- remote (EvSingleTweet tweetId) (fun w tr => v2_singleTweet w tr tweetId) ;;
  ret (mkTweet (tweet_id response) (tweet_text response)
         (Js.nullish (author_id response) "")
         (mkTweetMetrics
            (Js.nullish (metric (public_metrics response) like_count) 0)
            (Js.nullish (metric (public_metrics response) retweet_count) 0)
            None None)
         (Js.nullish (created_at response) "")).

Definition getTweet (tweetId : string) : M TwitterClient Tweet :=
  tryCatch (getTweet_body tweetId) handleApiError.

Definition deleteUnavailableError : TwitterError :=
  mkTwitterError
    ("Tweet deletion failed: Twitter v2 delete endpoint is currently experiencing issues (500 error). "
       +:+ "Unfortunately, OAuth 2.0 cannot use the v1.1 fallback. Please try again later or use OAuth 1.0a.")
    (CodeStr "delete_unavailable") (Some 500).

(** [v2Error.code === 500]. *)
Definition code_is_500 (c : option Code) : bool :=
  match c with
  | Some (CodeNum n) => n =? 500
  | _ => false
  end.

(** The inner [catch (v2Error)] of [deleteTweet]: the fallback policy. *)
Definition deleteTweet_fallback (tweetId : string) (v2Error : Thrown)
    : M TwitterClient bool :=
  if code_is_500 (thrown_code v2Error) then
    cfg <- gets config ;;
    match authType cfg with
    | oauth1 =>
        id_str <- remote (EvDestroyV1 tweetId) (fun w tr => v1_destroy w tr tweetId) ;;
        ret (Js.truthy_str id_str)
    | oauth2 => throw (Tagged deleteUnavailableError)
    end
  else throw v2Error.

Definition deleteTweet_body (tweetId : string) : M TwitterClient bool :=
  checkRateLimit "tweets/delete" ;;
  tryCatch
    (remote (EvDeleteV2 tweetId) (fun w tr => v2_deleteTweet w tr tweetId))
    (deleteTweet_fallback tweetId).

Definition deleteTweet (tweetId : string) : M TwitterClient bool :=
  tryCatch (deleteTweet_body tweetId) handleApiError.

(** The six public operations of the broker, as calls with their arguments. *)
Inductive Operation :=
| OpPostTweet (text : string) (replyToTweetId : option string)
| OpUploadMedia (buffer : Base64.Buffer) (mimeType : string)
| OpPostTweetWithMedia (text : string) (replyToTweetId : option string)
    (mediaItems : option (list MediaItem))
| OpSearchTweets (query : string) (n : Z)
| OpGetTweet (tweetId : string)
| OpDeleteTweet (tweetId : string).

Definition failure {A : Type} (r : Outcome A * TwitterClient * Trace) : option Thrown :=
  match r with
  | (Threw e, _, _) => Some e
  | (Returned _, _, _) => None
  end.

(** What the caller of an operation catches, if anything. *)
Definition op_failure (op : Operation) (w : World) (c : TwitterClient) (tr : Trace)
    : option Thrown :=
  match op with
  | OpPostTweet t r => failure (postTweet t r w c tr)
  | OpUploadMedia b m => failure (uploadMedia b m w c tr)
  | OpPostTweetWithMedia t r ms => failure (postTweetWithMedia t r ms w c tr)
  | OpSearchTweets q n => failure (searchTweets q n w c tr)
  | OpGetTweet i => failure (getTweet i w c tr)
  | OpDeleteTweet i => failure (deleteTweet i w c tr)
  end.

(** What the operation's body raised before its outermost [catch]. *)
Definition op_raised (op : Operation) (w : World) (c : TwitterClient) (tr : Trace)
    : option Thrown :=
  match op with
  | OpPostTweet t r => failure (postTweet_body t r w c tr)
  | OpUploadMedia b m => failure (uploadMedia_body b m w c tr)
  | OpPostTweetWithMedia t r ms => failure (postTweetWithMedia_body t r ms w c tr)
  | OpSearchTweets q n => failure (searchTweets_body q n w c tr)
  | OpGetTweet i => failure (getTweet_body i w c tr)
  | OpDeleteTweet i => failure (deleteTweet_body i w c tr)
  end.

(** ** createTwitterClient (src/auth/factory.ts) *)

Definition OAUTH2_TOKEN_REQUIRED : string :=
  "OAuth 2.0 access token is required when using OAuth 2.0 authentication. Please check your OAUTH2_ACCESS_TOKEN environment variable.".

Definition OAUTH1_ALL_FOUR_REQUIRED : string :=
  "OAuth 1.0a requires all four credentials: API_KEY, API_SECRET_KEY, ACCESS_TOKEN, and ACCESS_TOKEN_SECRET. Please check your environment variables.".

Definition createTwitterClient (config : Config) : Outcome TwitterApi :=
  match authType config with
  | oauth2 =>
      if negb (Js.truthy_str (oauth2AccessToken config)) then
        Threw (ErrorObj OAUTH2_TOKEN_REQUIRED None None)
      else Returned (BearerClient (Js.nullish (oauth2AccessToken config) ""))
  | oauth1 =>
      if negb (Js.truthy_str (apiKey config))
         || negb (Js.truthy_str (apiSecretKey config))
         || negb (Js.truthy_str (accessToken config))
         || negb (Js.truthy_str (accessTokenSecret config))
      then Threw (ErrorObj OAUTH1_ALL_FOUR_REQUIRED None None)
      else
        Returned (OAuth1Client (Js.nullish (apiKey config) "")
                    (Js.nullish (apiSecretKey config) "")
                    (Js.nullish (accessToken config) "")
                    (Js.nullish (accessTokenSecret config) ""))
  end.

(** The function as a step of a run: it reads nothing from the world and
    leaves the state and the trace alone. *)
Definition createTwitterClientM {S : Type} (config : Config) : M S TwitterApi :=
  liftOutcome (createTwitterClient config).

(** [new TwitterClient(config)]. *)
Definition new_TwitterClient (cfg : Config) : Outcome TwitterClient :=
  match createTwitterClient cfg with
  | Returned api =>
      Returned
        (mkTwitterClient api cfg
           (match authType cfg with
            | oauth2 =>
                if Js.truthy_str (oauth2AccessToken cfg) then oauth2AccessToken cfg
                else None
            | oauth1 => None
            end)
           ∅ ∅)
  | Threw e => Threw e
  end.

(** The credential fields and the environment variable each one is read from. *)
Inductive Field :=
| FApiKey | FApiSecretKey | FAccessToken | FAccessTokenSecret | FOAuth2AccessToken.

Definition env_name (f : Field) : string :=
  match f with
  | FApiKey => "API_KEY"
  | FApiSecretKey => "API_SECRET_KEY"
  | FAccessToken => "ACCESS_TOKEN"
  | FAccessTokenSecret => "ACCESS_TOKEN_SECRET"
  | FOAuth2AccessToken => "OAUTH2_ACCESS_TOKEN"
  end.

Definition field_value (cfg : Config) (f : Field) : option string :=
  match f with
  | FApiKey => apiKey cfg
  | FApiSecretKey => apiSecretKey cfg
  | FAccessToken => accessToken cfg
  | FAccessTokenSecret => accessTokenSecret cfg
  | FOAuth2AccessToken => oauth2AccessToken cfg
  end.

Definition required_fields (a : AuthType) : list Field :=
  match a with
  | oauth1 => [FApiKey; FApiSecretKey; FAccessToken; FAccessTokenSecret]
  | oauth2 => [FOAuth2AccessToken]
  end.

Definition populated (cfg : Config) (f : Field) : bool := Js.truthy_str (field_value cfg f).

Definition fully_populated (cfg : Config) : bool :=
  forallb (populated cfg) (required_fields (authType cfg)).

(** ** OAuth2Handler (src/auth/oauth2-handler.ts) *)

(** [tokenExpiresAt] is [null] ([None]), an invalid date ([Some None]) or a
    date ([Some (Some t)]). *)
Record OAuth2Handler := mkOAuth2Handler {
  h_config : Config;
  h_client : option TwitterApi;
  tokenExpiresAt : option (option Z)
}.

Definition new_OAuth2Handler (w : World) (cfg : Config) : OAuth2Handler :=
  mkOAuth2Handler cfg None
    (match oauth2TokenExpiresAt cfg with
     | Some s => if String.eqb s "" then None else Some (parse_date w s)
     | None => None
     end).

Definition shouldRefreshToken : M OAuth2Handler bool :=
  expires <- gets tokenExpiresAt ;;
  refreshToken <- gets (fun h => oauth2RefreshToken (h_config h)) ;;
  match expires with
  | None => ret false
  | Some date =>
      if negb (Js.truthy_str refreshToken) then ret false
      else
        now <- readClock rd_now ;;
        match date with
        | Some t => ret (t - now <? 5 * 60 * 1000)
        | None => ret false
        end
  end.

Definition set_tokens (tokens : TokenJson) (cfg : Config) : Config :=
  mkConfig (apiKey cfg) (apiSecretKey cfg) (accessToken cfg) (accessTokenSecret cfg)
    (authType cfg) (oauth2ClientId cfg) (oauth2ClientSecret cfg)
    (Some (access_token tokens))
    (if Js.truthy_str (refresh_token tokens) then refresh_token tokens
     else oauth2RefreshToken cfg)
    (oauth2TokenExpiresAt cfg).

Definition set_expiry (iso : string) (cfg : Config) : Config :=
  mkConfig (apiKey cfg) (apiSecretKey cfg) (accessToken cfg) (accessTokenSecret cfg)
    (authType cfg) (oauth2ClientId cfg) (oauth2ClientSecret cfg)
    (oauth2AccessToken cfg) (oauth2RefreshToken cfg) (Some iso).

(** [String(error)] in the refresher's [catch]. *)
Definition error_text (error : Thrown) : string :=
  if instanceof_Error error then Js.nullish (thrown_message error) ""
  else "[object Object]".

Definition refreshAccessToken : M OAuth2Handler unit :=
  cfg <- gets h_config ;;
  if negb (Js.truthy_str (oauth2RefreshToken cfg)) then
    throw (ErrorObj
             "No refresh token available. Please re-authenticate using scripts/oauth2-setup.js"
             None None)
  else if negb (Js.truthy_str (oauth2ClientId cfg))
          || negb (Js.truthy_str (oauth2ClientSecret cfg)) then
    throw (ErrorObj "Client ID and secret required for token refresh" None None)
  else
    let clientId := Js.nullish (oauth2ClientId cfg) "" in
    let clientSecret := Js.nullish (oauth2ClientSecret cfg) "" in
    let refreshToken := Js.nullish (oauth2RefreshToken cfg) "" in
    tryCatch
      (response <- remote (EvTokenRefresh clientId clientSecret refreshToken)
                     (fun w tr => fetch_token w tr clientId clientSecret refreshToken) ;;
       if negb (tk_ok response) then
         throw (ErrorObj ("Token refresh failed: " +:+ tk_text response) None None)
       else
         tokens <- liftOutcome (tk_json response) ;;
         dateNow <- readClock rd_record ;;
         let expires := dateNow + expires_in tokens * 1000 in
         iso <- asks (fun w => iso_string w expires) ;;
         modify (fun h =>
                   mkOAuth2Handler (set_expiry iso (set_tokens tokens (h_config h)))
                     (Some (BearerClient (access_token tokens)))
                     (Some (Some expires))) ;;
         (* updateEnvFile: its own failures are swallowed *)
         emit (EvEnvFile (access_token tokens)
                 (Js.or_str (refresh_token tokens) (oauth2RefreshToken cfg)) expires))
      (fun error =>
         throw (ErrorObj ("Failed to refresh OAuth 2.0 token: " +:+ error_text error)
                  None None)).

Definition getClient : M OAuth2Handler TwitterApi :=
  should <- shouldRefreshToken ;;
  (if should then refreshAccessToken else ret tt) ;;
  h <- gets (fun h => h) ;;
  match h_client h with
  | Some c => ret c
  | None =>
      if negb (Js.truthy_str (oauth2AccessToken (h_config h))) then
        throw (ErrorObj
                 "OAuth 2.0 access token is required. Run scripts/oauth2-setup.js to authenticate."
                 None None)
      else
        let c := BearerClient (Js.nullish (oauth2AccessToken (h_config h)) "") in
        modify (fun h => mkOAuth2Handler (h_config h) (Some c) (tokenExpiresAt h)) ;;
        ret c
  end.

(** The token-refresh calls in a trace. *)
Definition is_token_refresh (e : Event) : bool :=
  match e with
  | EvTokenRefresh _ _ _ => true
  | _ => false
  end.

(** ** Concrete worlds and states, for evaluation *)

Definition count_checks (tr : Trace) : Z :=
  Z.of_nat (List.length (List.filter (fun e => match e with EvRateCheck _ => true | _ => false end) tr)).

(** A platform on which every call succeeds, in a zone without offset
    changes, under a given clock. *)
Definition obliging_platform (clk : Trace -> Reads) : World :=
  mkWorld clk
    (fun t => t + DAY_MS)
    (fun _ => None)
    (fun _ => "1970-01-01T00:00:00.000Z")
    (fun _ opts => Returned (mkTwitterApiResponse "1" (opt_text opts)))
    (fun _ _ _ => Returned (mkSearchResult [] []))
    (fun _ i => Returned (mkApiTweet i "" None None None))
    (fun _ _ => Returned true)
    (fun _ i => Returned (Some i))
    (fun _ _ mimeType => Returned ("media:" +:+ mimeType))
    (fun _ _ _ _ _ =>
       Returned (mkUploadResponse true ""
                   (Returned (mkUploadJson (Some (mkUploadData (Some "media-2") None))
                                None None None))))
    (fun _ _ _ _ => Returned (mkTokenResponse true "" (Returned (mkTokenJson "fresh" None 7200)))).

(** The clock shows [start + step * k] during the [k]-th quota check. *)
Definition calm_world (start step : Z) : World :=
  obliging_platform (fun tr => let t := start + step * count_checks tr in mkReads t t t).

(** The clock shows the [k]-th listed time during the [k]-th quota check. *)
Definition scheduled_world (times : list Z) : World :=
  obliging_platform
    (fun tr => let t := nth (Z.to_nat (count_checks tr - 1)) times 0 in mkReads t t t).

Definition oauth1_config : Config :=
  mkConfig (Some "key") (Some "secret") (Some "token") (Some "token-secret") oauth1
    None None None None None.

Definition oauth2_config : Config :=
  mkConfig None None None None oauth2 None None (Some "bearer") None None.

Definition fresh_client (cfg : Config) : TwitterClient :=
  match new_TwitterClient cfg with
  | Returned c => c
  | Threw _ => mkTwitterClient (BearerClient "") cfg None ∅ ∅
  end.

(** ** Scenarios for the quota properties *)

(** [n] consecutive quota checks on one key. *)
Fixpoint calls (n : nat) (endpoint : string) : M TwitterClient unit :=
  match n with
  | O => ret tt
  | S n' => checkRateLimit endpoint ;; calls n' endpoint
  end.

(** The clock readings of the [i]-th of these checks (from 0), started at
    trace [tr]. *)
Definition nth_reads (w : World) (tr : Trace) (endpoint : string) (i : nat) : Reads :=
  clock w (tr ++ repeat (EvRateCheck endpoint) (S i)).

(** The readings of a single check started at trace [tr]. *)
Definition reads_at (w : World) (tr : Trace) (endpoint : string) : Reads :=
  clock w (tr ++ [EvRateCheck endpoint]).

Definition mutating_endpoints : list string :=
  [ "tweets/create"; "tweets/delete"; "media/upload" ].

(** Quota checks one minute apart: the [i]-th at [i] minutes past the epoch. *)
Definition minute_schedule (n : nat) : list Z :=
  List.map (fun i => 60000 * Z.of_nat i) (seq 1 n).

(** Worlds that differ from a given one in a single oracle. *)
Definition with_v2_deleteTweet (f : Trace -> string -> Outcome bool) (w : World) : World :=
  mkWorld (clock w) (next_day w) (parse_date w) (iso_string w) (v2_tweet w) (v2_search w)
    (v2_singleTweet w) f (v1_destroy w) (v1_uploadMedia w) (fetch_upload w) (fetch_token w).

Definition with_v1_destroy (f : Trace -> string -> Outcome (option string)) (w : World) : World :=
  mkWorld (clock w) (next_day w) (parse_date w) (iso_string w) (v2_tweet w) (v2_search w)
    (v2_singleTweet w) (v2_deleteTweet w) f (v1_uploadMedia w) (fetch_upload w) (fetch_token w).

Definition with_fetch_upload
    (f : Trace -> string -> Base64.Buffer -> string -> string -> Outcome UploadResponse)
    (w : World) : World :=
  mkWorld (clock w) (next_day w) (parse_date w) (iso_string w) (v2_tweet w) (v2_search w)
    (v2_singleTweet w) (v2_deleteTweet w) (v1_destroy w) (v1_uploadMedia w) f (fetch_token w).

Definition with_fetch_token
    (f : Trace -> string -> string -> string -> Outcome TokenResponse) (w : World) : World :=
  mkWorld (clock w) (next_day w) (parse_date w) (iso_string w) (v2_tweet w) (v2_search w)
    (v2_singleTweet w) (v2_deleteTweet w) (v1_destroy w) (v1_uploadMedia w) (fetch_upload w) f.

Definition with_parse_date (f : string -> option Z) (w : World) : World :=
  mkWorld (clock w) (next_day w) f (iso_string w) (v2_tweet w) (v2_search w)
    (v2_singleTweet w) (v2_deleteTweet w) (v1_destroy w) (v1_uploadMedia w) (fetch_upload w)
    (fetch_token w).

(** The platform library's error for an HTTP failure: an [Error] whose
    [code] is the HTTP status. *)
Definition http_error (statusCode : Z) (msg : string) : Thrown :=
  ErrorObj msg (Some (CodeNum statusCode)) None.

(** A platform whose v2 delete endpoint fails with the given HTTP status. *)
Definition broken_delete_world (statusCode : Z) : World :=
  with_v2_deleteTweet (fun _ _ => Threw (http_error statusCode "Request failed"))
    (calm_world 1000 60000).

(** A platform whose v2 upload endpoint refuses every upload with the given
    body text. *)
Definition refusing_upload_world (body : string) : World :=
  with_fetch_upload
    (fun _ _ _ _ _ =>
       Returned (mkUploadResponse false body (Threw (ErrorObj "Unexpected token" None None))))
    (calm_world 1000 60000).

(** A refresher for the token-based scheme with all of its optional
    settings, the token's expiry recorded as the text "soon". *)
Definition refreshable_config : Config :=
  mkConfig None None None None oauth2
    (Some "client-id") (Some "client-secret") (Some "bearer") (Some "refresh") (Some "soon").

(** A world whose calendar reads "soon" as the instant [t], whose clock
    shows [now], and whose token endpoint answers as given. *)
Definition token_world (now t : Z) (answer : Outcome TokenResponse) : World :=
  with_fetch_token (fun _ _ _ _ => answer)
    (with_parse_date (fun s => if String.eqb s "soon" then Some t else None)
       (calm_world now 0)).

(** ** Vocabulary for the media properties *)

(** The remote call the scheme-appropriate uploader makes for a buffer. *)
Definition upload_event (c : TwitterClient) (buffer : Base64.Buffer) (mimeType : string)
    : Event :=
  match authType (config c), v2MediaUploader c with
  | oauth2, Some token =>
      EvUploadV2 token buffer mimeType
        (if Js.startsWith "image/" mimeType then "tweet_image" else "tweet_video")
  | _, _ => EvUploadV1 buffer mimeType
  end.

(** What the scheme-appropriate uploader answers when called at trace [tr]. *)
Definition upload_answer (w : World) (c : TwitterClient) (tr : Trace)
    (buffer : Base64.Buffer) (mimeType : string) : Outcome MediaId :=
  match authType (config c), v2MediaUploader c with
  | oauth2, Some token =>
      fst (fst (V2MediaUploader_uploadMedia token buffer mimeType w c tr))
  | _, _ =>
      match v1_uploadMedia w tr buffer mimeType with
      | Returned media => Returned (Some media)
      | Threw e => Threw e
      end
  end.

(** The trace of one media item that is validated and uploaded: its
    decoding, the upload-quota check, the upload. *)
Definition segment (c : TwitterClient) (item : MediaItem) : Trace :=
  [ EvDecode (data item);
    EvRateCheck "media/upload";
    upload_event c (Base64.decode (data item)) (media_type item) ].

Definition media_trace (c : TwitterClient) (items : list MediaItem) : Trace :=
  flat_map (segment c) items.




(** The fields of the client that no operation changes. *)
Definition same_session (c c' : TwitterClient) : Prop :=
  client c' = client c /\ config c' = config c /\ v2MediaUploader c' = v2MediaUploader c.

(** The payload AAAA...A of [4 * n] characters: [3 * n] zero bytes. *)
Definition zero_payload (n : N) : string := Base64.repeat_text "AAAA" n.

(** A payload of [n] exclamation marks, none of them a base64 character. *)
Definition bang_payload (n : N) : string := Base64.repeat_text "!" n.

(** ** Sessions: the operations as steps on the client *)

(** The key of the quota check an operation starts with. *)
Definition quota_key (op : Operation) : string :=
  match op with
  | OpPostTweet _ _ | OpPostTweetWithMedia _ _ _ => "tweets/create"
  | OpUploadMedia _ _ => "media/upload"
  | OpSearchTweets _ _ => "tweets/search"
  | OpGetTweet _ => "tweets/lookup"
  | OpDeleteTweet _ => "tweets/delete"
  end.

(** Every key an operation checks: a post with media also checks the upload
    key, once per item. *)
Definition quota_keys (op : Operation) : list string :=
  match op with
  | OpPostTweetWithMedia _ _ _ => ["tweets/create"; "media/upload"]
  | _ => [quota_key op]
  end.

(** Whether an operation gets as far as its quota check: an upload of more
    than 5 MiB is turned away before it. *)
Definition reaches_quota_check (op : Operation) : bool :=
  match op with
  | OpUploadMedia buffer _ => Base64.buflen buffer <=? MAX_MEDIA_FILE_SIZE
  | _ => true
  end.

Definition is_upload (op : Operation) : bool :=
  match op with
  | OpUploadMedia _ _ => true
  | _ => false
  end.

(** A run without its result value: what the caller catches, the client
    afterwards, the trace afterwards. *)
Definition effect {A : Type} (r : Outcome A * TwitterClient * Trace)
    : option Thrown * TwitterClient * Trace :=
  (failure r, snd (fst r), snd r).

Definition run_op (op : Operation) (w : World) (c : TwitterClient) (tr : Trace)
    : option Thrown * TwitterClient * Trace :=
  match op with
  | OpPostTweet t r => effect (postTweet t r w c tr)
  | OpUploadMedia b m => effect (uploadMedia b m w c tr)
  | OpPostTweetWithMedia t r ms => effect (postTweetWithMedia t r ms w c tr)
  | OpSearchTweets q n => effect (searchTweets q n w c tr)
  | OpGetTweet i => effect (getTweet i w c tr)
  | OpDeleteTweet i => effect (deleteTweet i w c tr)
  end.

(** A caller that issues the operations one after the other on the same
    client, whatever each of them answers. *)
Fixpoint session (ops : list Operation) (w : World) (c : TwitterClient) (tr : Trace)
    : TwitterClient * Trace :=
  match ops with
  | [] => (c, tr)
  | op :: rest =>
      let '(_, c', tr') := run_op op w c tr in
      session rest w c' tr'
  end.

(** The daily counters are sound: only keys with a daily ceiling have one,
    and it counts between 1 and the ceiling. *)
Definition counters_sound (c : TwitterClient) : Prop :=
  forall k t, dailyLimits c !! k = Some t ->
    prop_get DAILY_LIMITS k = Some 17 /\ 1 <= count t <= 17.

(** Two clients agree on the quota state of a key. *)
Definition same_quota (k : string) (c c' : TwitterClient) : Prop :=
  rateLimitMap c' !! k = rateLimitMap c !! k /\
  dailyLimits c' !! k = dailyLimits c !! k.

Definition is_tweet (e : Event) : bool :=
  match e with
  | EvTweet _ => true
  | _ => false
  end.

(** The media items of a call: none when the argument is absent. *)
Definition attachments (mediaItems : option (list MediaItem)) : list MediaItem :=
  match mediaItems with
  | Some items => items
  | None => []
  end.

(** [if (replyToTweetId) tweetOptions.reply = ...]. *)
Definition reply_of (replyToTweetId : option string) : option string :=
  if Js.truthy_str replyToTweetId then replyToTweetId else None.

(** The events an operation started on client [c] can add to the trace. *)
Definition may_emit (op : Operation) (c : TwitterClient) (e : Event) : Prop :=
  e = EvRateCheck (quota_key op) \/
  match op with
  | OpPostTweet t r => e = EvTweet (mkTweetOptions t (reply_of r) None)
  | OpUploadMedia b m => e = upload_event c b m
  | OpPostTweetWithMedia t r ms =>
      (exists item, In item (attachments ms) /\ In e (segment c item)) \/
      (exists media,
         e = EvTweet (mkTweetOptions t (reply_of r) media) /\
         match media with
         | Some mediaIds =>
             attachments ms <> [] /\ List.length mediaIds = List.length (attachments ms)
         | None => attachments ms = []
         end)
  | OpSearchTweets q n => e = EvSearch q n
  | OpGetTweet i => e = EvSingleTweet i
  | OpDeleteTweet i =>
      e = EvDeleteV2 i \/ (e = EvDestroyV1 i /\ authType (config c) = oauth1)
  end.

(** The media category the v2 uploader derives from the MIME type. *)
Definition category_of (mimeType : string) : string :=
  if Js.startsWith "image/" mimeType then "tweet_image" else "tweet_video".

(** An event that fits a client configured with [cfg]: the legacy v1.1
    endpoints only under OAuth 1.0a, the v2 upload endpoint only under OAuth
    2.0 and with the configured token, and never a token refresh. *)
Definition routed_for (cfg : Config) (e : Event) : Prop :=
  match e with
  | EvUploadV1 _ _ | EvDestroyV1 _ => authType cfg = oauth1
  | EvUploadV2 token _ mimeType category =>
      authType cfg = oauth2 /\ oauth2AccessToken cfg = Some token /\
      category = category_of mimeType
  | EvTokenRefresh _ _ _ | EvEnvFile _ _ _ => False
  | _ => True
  end.

(** The identifier [V2MediaUploader.uploadMedia] reads from the endpoint's
    answer. *)
Definition answered_id (json : UploadJson) : MediaId :=
  match uj_data json with
  | Some d => Js.or_str (ud_id d) (ud_media_key d)
  | None =>
      Js.or_str (uj_media_id_string json) (Js.or_str (uj_media_id json) (uj_id json))
  end.

(** ** Vocabulary for the codec *)

Fixpoint all_chars (p : ascii -> bool) (s : string) : bool :=
  match s with
  | EmptyString => true
  | String c s' => p c && all_chars p s'
  end.

(** A decimal digit. *)
Definition is_digit (c : ascii) : bool :=
  ((48 <=? N_of_ascii c) && (N_of_ascii c <=? 57))%N.

(** The characters of padded standard base64: A-Z, a-z, 0-9, [+], [/], [=]. *)
Definition standard_char (c : ascii) : bool :=
  let k := N_of_ascii c in
  ((65 <=? k) && (k <=? 90) || (97 <=? k) && (k <=? 122) || (48 <=? k) && (k <=? 57)
   || (k =? 43) || (k =? 47) || (k =? 61))%N.

(** ** The tool server (src/index.ts) and the tool schemas (src/types.ts) *)

(** A JSON value.  An object lists each of its members once. *)
#[local] Unset Elimination Schemes.
Inductive Json :=
| JNull
| JBool (b : bool)
| JNum (q : Q)
| JStr (s : string)
| JArr (items : list Json)
| JObj (members : list (string * Json)).
#[local] Set Elimination Schemes.

Definition SUPPORTED_MEDIA_TYPES : list string :=
  [ "image/jpeg"; "image/png"; "image/gif" ].

(** [z.string()]. *)
Definition z_string (j : Json) : option string :=
  match j with
  | JStr s => Some s
  | _ => None
  end.

(** [schema.optional()] on a member that may be missing: [None] is a
    rejection, [Some None] the absent member. *)
Definition z_optional {A : Type} (schema : Json -> option A) (member : option Json)
    : option (option A) :=
  match member with
  | None => Some None
  | Some j =>
      match schema j with
      | Some a => Some (Some a)
      | None => None
      end
  end.

(** [z.array(schema)]. *)
Fixpoint z_array {A : Type} (schema : Json -> option A) (items : list Json)
    : option (list A) :=
  match items with
  | [] => Some []
  | j :: rest =>
      match schema j, z_array schema rest with
      | Some a, Some l => Some (a :: l)
      | _, _ => None
      end
  end.

(** [z.object({ data: z.string(), media_type: z.enum(SUPPORTED_MEDIA_TYPES) })]. *)
Definition z_media_item (j : Json) : option MediaItem :=
  match j with
  | JObj members =>
      match prop_get members "data", prop_get members "media_type" with
      | Some (JStr d), Some (JStr t) =>
          if existsb (String.eqb t) SUPPORTED_MEDIA_TYPES then Some (mkMediaItem d t)
          else None
      | _, _ => None
      end
  | _ => None
  end.

(** [z.array(...).max(4, ...)]. *)
Definition z_media (j : Json) : option (list MediaItem) :=
  match j with
  | JArr items =>
      if (List.length items <=? 4)%nat then z_array z_media_item items else None
  | _ => None
  end.

Record PostTweetArgs := mkPostTweetArgs {
  pt_text : string;
  pt_reply_to_tweet_id : option string;
  pt_media : option (list MediaItem)
}.

(** [PostTweetSchema.safeParse(args)]: the parsed data, or [None] when the
    schema rejects. *)
Definition PostTweetSchema (args : option Json) : option PostTweetArgs :=
  match args with
  | Some (JObj members) =>
      match prop_get members "text" with
      | Some (JStr text) =>
          if (1 <=? Js.strlen text) && (Js.strlen text <=? 280) then
            match z_optional z_string (prop_get members "reply_to_tweet_id"),
                  z_optional z_media (prop_get members "media") with
            | Some reply, Some media => Some (mkPostTweetArgs text reply media)
            | _, _ => None
            end
          else None
      | _ => None
      end
  | _ => None
  end.

Record SearchTweetsArgs := mkSearchTweetsArgs {
  st_query : string;
  st_count : Z
}.

(** [Number.isInteger] on a JSON number, and the integer it then is. *)
Definition is_integer (q : Q) : bool := Qnum q mod Zpos (Qden q) =? 0.

Definition integer_value (q : Q) : Z := Qnum q / Zpos (Qden q).

(** [SearchTweetsSchema.safeParse(args)]. *)
Definition SearchTweetsSchema (args : option Json) : option SearchTweetsArgs :=
  match args with
  | Some (JObj members) =>
      match prop_get members "query", prop_get members "count" with
      | Some (JStr query), Some (JNum count) =>
          if (1 <=? Js.strlen query) && is_integer count
             && (10 <=? integer_value count) && (integer_value count <=? 100)
          then Some (mkSearchTweetsArgs query (integer_value count))
          else None
      | _, _ => None
      end
  | _ => None
  end.

(** [TwitterError.isRateLimit(error)]. *)
Definition isRateLimit (error : Thrown) : bool :=
  match error with
  | Tagged te =>
      match te_code te with
      | CodeStr s => String.eqb s "rate_limit_exceeded"
      | CodeNum _ => false
      end
  | _ => false
  end.

Inductive ErrorCode := InvalidParams | MethodNotFound | InternalError.

(** [new McpError(code, message)]. *)
Record McpError := mkMcpError {
  mcp_code : ErrorCode;
  mcp_message : string
}.

(** What a tool handler throws: a protocol error of its own, or what the
    client threw. *)
Inductive ToolThrown :=
| ThrownMcp (e : McpError)
| ThrownByClient (e : Thrown).

(** The one text item of a tool result, with the [isError] mark the server
    puts on the item. *)
Record TextContent := mkTextContent {
  tc_text : string;
  tc_isError : bool
}.

(** The configuration [index.ts] reads from the environment: the type of
    authentication is whatever text the environment holds. *)
Record EnvConfig := mkEnvConfig {
  env_apiKey : option string;
  env_apiSecretKey : option string;
  env_accessToken : option string;
  env_accessTokenSecret : option string;
  env_authType : string;
  env_oauth2ClientId : option string;
  env_oauth2ClientSecret : option string;
  env_oauth2AccessToken : option string;
  env_oauth2RefreshToken : option string;
  env_oauth2TokenExpiresAt : option string
}.

(** [process.env] after [dotenv.config()], read as [index.ts] reads it. *)
Definition config_of_env (env : gmap string string) : EnvConfig :=
  mkEnvConfig
    (Js.or_str (env !! "API_KEY") (Some ""))
    (Js.or_str (env !! "API_SECRET_KEY") (Some ""))
    (Js.or_str (env !! "ACCESS_TOKEN") (Some ""))
    (Js.or_str (env !! "ACCESS_TOKEN_SECRET") (Some ""))
    (Js.nullish (Js.or_str (env !! "AUTH_TYPE") (Some "oauth1")) "")
    (env !! "OAUTH2_CLIENT_ID")
    (env !! "OAUTH2_CLIENT_SECRET")
    (env !! "OAUTH2_ACCESS_TOKEN")
    (env !! "OAUTH2_REFRESH_TOKEN")
    (env !! "OAUTH2_TOKEN_EXPIRES_AT").

(** The [refine] predicate of [ConfigSchema]. *)
Definition ConfigSchema_refine (data : Config) : bool :=
  match authType data with
  | oauth2 => Js.truthy_str (oauth2AccessToken data)
  | oauth1 =>
      Js.truthy_str (apiKey data) && Js.truthy_str (apiSecretKey data)
      && Js.truthy_str (accessToken data) && Js.truthy_str (accessTokenSecret data)
  end.

(** [z.enum(['oauth1', 'oauth2'])]. *)
Definition z_authType (s : string) : option AuthType :=
  if String.eqb s "oauth1" then Some oauth1
  else if String.eqb s "oauth2" then Some oauth2
  else None.

(** [ConfigSchema.safeParse(config)]. *)
Definition ConfigSchema (raw : EnvConfig) : option Config :=
  match z_authType (env_authType raw) with
  | Some a =>
      let data :=
        mkConfig (env_apiKey raw) (env_apiSecretKey raw) (env_accessToken raw)
          (env_accessTokenSecret raw) a (env_oauth2ClientId raw)
          (env_oauth2ClientSecret raw) (env_oauth2AccessToken raw)
          (env_oauth2RefreshToken raw) (env_oauth2TokenExpiresAt raw) in
      if ConfigSchema_refine data then Some data else None
  | None => None
  end.

(** The server.  The schema library's rendering of its issues and the
    response formatter (src/formatter.ts) are parameters. *)
Section TwitterServer.

Variable ConfigSchema_issues : EnvConfig -> string.
Variable PostTweetSchema_issues : option Json -> string.
Variable SearchTweetsSchema_issues : option Json -> string.
Variable SearchResponse : Type.
Variable formatSearchResponse : string -> list Tweet -> list TwitterUser -> SearchResponse.
Variable toMcpResponse : SearchResponse -> string.

(** [new TwitterServer(config)]: the server is its client. *)
Definition new_TwitterServer (raw : EnvConfig) : Outcome TwitterClient :=
  match ConfigSchema raw with
  | None =>
      Threw (ErrorObj ("Invalid configuration: " +:+ ConfigSchema_issues raw) None None)
  | Some cfg => new_TwitterClient cfg
  end.

Definition Handled : Type := (TextContent + ToolThrown) * TwitterClient * Trace.

Definition handlePostTweet (args : option Json) (w : World) (c : TwitterClient)
    (tr : Trace) : Handled :=
  match PostTweetSchema args with
  | None =>
      (inr (ThrownMcp (mkMcpError InvalidParams
                         ("Invalid parameters: " +:+ PostTweetSchema_issues args))), c, tr)
  | Some a =>
      match postTweetWithMedia (pt_text a) (pt_reply_to_tweet_id a) (pt_media a) w c tr with
      | (Returned tweet, c', tr') =>
          (inl (mkTextContent
                  ("Tweet posted successfully!" +:+ String "010"%char
                     ("URL: https://twitter.com/status/" +:+ posted_id tweet))
                  false), c', tr')
      | (Threw e, c', tr') => (inr (ThrownByClient e), c', tr')
      end
  end.

Definition handleSearchTweets (args : option Json) (w : World) (c : TwitterClient)
    (tr : Trace) : Handled :=
  match SearchTweetsSchema args with
  | None =>
      (inr (ThrownMcp (mkMcpError InvalidParams
                         ("Invalid parameters: " +:+ SearchTweetsSchema_issues args))), c, tr)
  | Some a =>
      match searchTweets (st_query a) (st_count a) w c tr with
      | (Returned (tweets, users), c', tr') =>
          (inl (mkTextContent
                  (toMcpResponse (formatSearchResponse (st_query a) tweets users)) false),
           c', tr')
      | (Threw e, c', tr') => (inr (ThrownByClient e), c', tr')
      end
  end.

Definition handleError (error : ToolThrown) : TextContent + McpError :=
  match error with
  | ThrownMcp e => inr e
  | ThrownByClient e =>
      if instanceof_TwitterError e then
        if isRateLimit e then
          inl (mkTextContent
                 "Rate limit exceeded. Please wait a moment before trying again." true)
        else
          inl (mkTextContent
                 ("Twitter API error: " +:+ Js.nullish (thrown_message e) "") true)
      else inr (mkMcpError InternalError "An unexpected error occurred")
  end.

(** The handler of [CallToolRequestSchema]: a result, or the protocol error
    it throws. *)
Definition callTool (name : string) (args : option Json) (w : World)
    (c : TwitterClient) (tr : Trace) : (TextContent + McpError) * TwitterClient * Trace :=
  let '(r, c', tr') :=
    if String.eqb name "post_tweet" then handlePostTweet args w c tr
    else if String.eqb name "search_tweets" then handleSearchTweets args w c tr
    else (inr (ThrownMcp (mkMcpError MethodNotFound ("Unknown tool: " +:+ name))), c, tr) in
  match r with
  | inl content => (inl content, c', tr')
  | inr error => (handleError error, c', tr')
  end.

End TwitterServer.


(** Whether the environment holds the credentials of the authentication
    type it selects ([AUTH_TYPE] unset or empty selects OAuth 1.0a). *)
Definition credentials_present (env : gmap string string) : bool :=
  let present k := Js.truthy_str (env !! k) in
  let oauth1_present :=
    present "API_KEY" && present "API_SECRET_KEY"
    && present "ACCESS_TOKEN" && present "ACCESS_TOKEN_SECRET" in
  match env !! "AUTH_TYPE" with
  | None => oauth1_present
  | Some a =>
      if String.eqb a "" || String.eqb a "oauth1" then oauth1_present
      else if String.eqb a "oauth2" then present "OAUTH2_ACCESS_TOKEN"
      else false
  end.

(** ** Proof automation *)

(** Unfolds the monad's operations. *)
Ltac run_m :=
  unfold bind, ret, throw, tryCatch, gets, modify, asks, emit, readClock, remote, liftOutcome in *.

(** The cases of the daily-limit part of [checkRateLimit]. *)
Ltac daily_cases c endpoint :=
  let d := fresh "d" in
  destruct (prop_get DAILY_LIMITS endpoint) as [d|];
    cbn [Js.truthy_num Js.nullish negb]; [|reflexivity];
  destruct (d =? 0); cbn [negb]; [reflexivity|];
  let Ed := fresh "Ed" in
  destruct (dailyLimits c !! endpoint) as [?t|] eqn:Ed;
    [ destruct (resetAt _ <? rd_now _);
        [ cbn; rewrite lookup_delete_eq; reflexivity
        | rewrite Ed; destruct (_ <=? count _); reflexivity ]
    | rewrite Ed; reflexivity ].

(** Closes a goal about concrete inputs by evaluation. *)
Ltac by_evaluation := vm_compute; first [reflexivity | discriminate | (intros; discriminate)].

(** Proves a bounded statement [forall i, i < n -> ...] case by case. *)
Tactic Notation "below" integer(n) tactic(tac) :=
  let i := fresh "i" in
  let H := fresh "H" in
  intros i H;
  do n (destruct i as [|i]; [try tac; try lia|]);
  lia.

(** Splits a statement about every public operation into its six cases. *)
Ltac funnel_cases op :=
  destruct op; cbn [op_failure op_raised];
  unfold postTweet, uploadMedia, postTweetWithMedia, searchTweets, getTweet, deleteTweet.

(** Settles an equivalence between two decided facts. *)
Ltac iff_by_cases :=
  split; intros ?H;
  first [ reflexivity | discriminate | (eexists; reflexivity) | (destruct H; discriminate) ].

(** * Properties *)

Example base64_fake_image :
  Base64.encode (Base64.decode "ZmFrZS1pbWFnZQ==") = "ZmFrZS1pbWFnZQ==".
Proof. reflexivity. Qed.

Example base64_invalid_text :
  Base64.encode (Base64.decode "invalid-base64-data!!!") = "invalid+base64+datY=".
Proof. vm_compute. reflexivity. Qed.

Example check_first_call :
  checkRateLimit "tweets/create" (calm_world 0 60000) (fresh_client oauth1_config) []
  = (Returned tt,
     mkTwitterClient (OAuth1Client "key" "secret" "token" "token-secret") oauth1_config None
       {[ "tweets/create" := 60000 ]}
       {[ "tweets/create" := mkDailyTracker 1 (60000 + DAY_MS) ]},
     [EvRateCheck "tweets/create"]).
Proof. vm_compute. reflexivity. Qed.

(** ** The rate/quota governor *)

(** [checkRateLimit] as one decision tree over the state it reads. *)
Lemma checkRateLimit_eq endpoint w c tr :
  checkRateLimit endpoint w c tr =
  let tr' := tr ++ [EvRateCheck endpoint] in
  let r := clock w tr' in
  let rateLimit := Js.or_num (prop_get RATE_LIMITS_MS endpoint) 1000 in
  let last := rateLimitMap c !! endpoint in
  if Js.truthy_num last && (rd_check r - Js.nullish last 0 <? rateLimit) then
    (Threw (Tagged (rateLimitError
                      (Js.ceil_div (rateLimit - (rd_check r - Js.nullish last 0)) 1000)
                      endpoint)), c, tr')
  else
    let recorded := set_rateLimitMap (<[endpoint := rd_record r]>) in
    match prop_get DAILY_LIMITS endpoint with
    | None => (Returned tt, recorded c, tr')
    | Some dailyLimit =>
        if dailyLimit =? 0 then (Returned tt, recorded c, tr')
        else
          match dailyLimits c !! endpoint with
          | None =>
              (Returned tt,
               recorded (set_dailyLimits
                           (<[endpoint := mkDailyTracker 1 (next_day w (rd_now r))]>) c),
               tr')
          | Some t =>
              if resetAt t <? rd_now r then
                (Returned tt,
                 recorded (set_dailyLimits
                             (<[endpoint := mkDailyTracker 1 (next_day w (rd_now r))]>)
                             (set_dailyLimits (delete endpoint) c)),
                 tr')
              else if dailyLimit <=? count t then
                (Threw (Tagged (dailyLimitError dailyLimit
                                  (Js.ceil_div (resetAt t - rd_now r) (1000 * 60 * 60)))),
                 c, tr')
              else
                (Returned tt,
                 recorded (set_dailyLimits
                             (<[endpoint := mkDailyTracker (count t + 1) (resetAt t)]>) c),
                 tr')
          end
    end.
Proof.
  unfold checkRateLimit. run_m. cbn zeta.
  destruct (rateLimitMap c !! endpoint) as [last|] eqn:El;
    cbn [Js.truthy_num Js.nullish andb negb].
  - destruct (last =? 0) eqn:E0; cbn [negb andb].
    + daily_cases c endpoint.
    + destruct (_ <? _) eqn:Elt; [reflexivity|]. daily_cases c endpoint.
  - daily_cases c endpoint.
Qed.

Lemma ceil_div_bounds a b :
  0 < b -> b * (Js.ceil_div a b - 1) < a <= b * Js.ceil_div a b.
Proof.
  intros Hb. unfold Js.ceil_div.
  pose proof (Z.div_mod (- a) b ltac:(lia)) as Hd.
  pose proof (Z.mod_pos_bound (- a) b Hb) as Hm.
  nia.
Qed.

Lemma ceil_div_pos a b : 0 < b -> 0 < a -> 1 <= Js.ceil_div a b.
Proof.
  intros Hb Ha. pose proof (ceil_div_bounds a b Hb). nia.
Qed.

Lemma rate_limits_configured endpoint interval :
  prop_get RATE_LIMITS_MS endpoint = Some interval ->
  interval = 900000 \/ interval = 60000.
Proof.
  unfold RATE_LIMITS_MS. cbn [prop_get].
  repeat (destruct (String.eqb _ endpoint); [intros [= <-]; auto|]).
  discriminate.
Qed.

Lemma rate_limit_of_configured endpoint interval :
  prop_get RATE_LIMITS_MS endpoint = Some interval ->
  Js.or_num (prop_get RATE_LIMITS_MS endpoint) 1000 = interval /\ 0 < interval.
Proof.
  intros Hi. rewrite Hi.
  destruct (rate_limits_configured _ _ Hi) as [-> | ->]; split; reflexivity.
Qed.

Lemma daily_limits_configured endpoint d :
  prop_get DAILY_LIMITS endpoint = Some d -> d = 17.
Proof.
  unfold DAILY_LIMITS. cbn [prop_get].
  repeat (destruct (String.eqb _ endpoint); [intros [= <-]; auto|]).
  discriminate.
Qed.

(** A check that returns has recorded its last clock reading for the key. *)
Lemma checkRateLimit_records endpoint w c tr c1 tr1 :
  checkRateLimit endpoint w c tr = (Returned tt, c1, tr1) ->
  rateLimitMap c1 = <[endpoint := rd_record (reads_at w tr endpoint)]> (rateLimitMap c).
Proof.
  rewrite checkRateLimit_eq. unfold reads_at. cbn zeta.
  repeat case_match; intros [= <- <-]; reflexivity.
Qed.

(** C10.  [checkRateLimit] is atomic on failure.  Whenever it throws, the
    error is the rate-limit or the daily-limit error (status 429) and both the
    last-call-timestamp map and the daily-counter map are exactly as before
    the call.  Only when it returns is the timestamp recorded for the key and,
    for a key with a daily ceiling, the key's counter incremented or
    initialised; the counters of other keys are never touched. *)
Theorem checkRateLimit_atomic_on_failure endpoint w c tr :
  match checkRateLimit endpoint w c tr with
  | (Threw e, c', _) =>
      rateLimitMap c' = rateLimitMap c /\
      dailyLimits c' = dailyLimits c /\
      exists te, e = Tagged te /\ te_status te = Some 429 /\
        (te_code te = CodeStr "rate_limit_exceeded" \/
         te_code te = CodeStr "daily_limit_exceeded")
  | (Returned _, c', _) =>
      let r := reads_at w tr endpoint in
      rateLimitMap c' = <[endpoint := rd_record r]> (rateLimitMap c) /\
      (forall k, k <> endpoint -> dailyLimits c' !! k = dailyLimits c !! k) /\
      match prop_get DAILY_LIMITS endpoint with
      | None => dailyLimits c' = dailyLimits c
      | Some _ =>
          dailyLimits c' !! endpoint =
          Some (match dailyLimits c !! endpoint with
                | Some t =>
                    if resetAt t <? rd_now r then mkDailyTracker 1 (next_day w (rd_now r))
                    else mkDailyTracker (count t + 1) (resetAt t)
                | None => mkDailyTracker 1 (next_day w (rd_now r))
                end)
      end
  end.
Proof.
  rewrite checkRateLimit_eq. unfold reads_at. cbn zeta.
  destruct (Js.truthy_num _ && _).
  { split; [reflexivity|]. split; [reflexivity|].
    eexists. split; [reflexivity|]. cbn. auto. }
  destruct (prop_get DAILY_LIMITS endpoint) as [d|] eqn:Hd.
  2:{ cbn. auto. }
  rewrite (daily_limits_configured _ _ Hd). cbn [Z.eqb].
  destruct (dailyLimits c !! endpoint) as [t|] eqn:Ed.
  - destruct (resetAt t <? _) eqn:Er.
    + cbn. split; [reflexivity|]. split.
      * intros k Hk. rewrite lookup_insert_ne by congruence.
        apply lookup_delete_ne. congruence.
      * apply lookup_insert_eq.
    + destruct (17 <=? count t) eqn:Ec.
      * split; [reflexivity|]. split; [reflexivity|].
        eexists. split; [reflexivity|]. cbn. auto.
      * cbn. split; [reflexivity|]. split.
        -- intros k Hk. apply lookup_insert_ne. congruence.
        -- apply lookup_insert_eq.
  - cbn. split; [reflexivity|]. split.
    + intros k Hk. apply lookup_insert_ne. congruence.
    + apply lookup_insert_eq.
Qed.

(** The check's verdict on the minimum interval, for a state whose last
    request on the key was recorded at a time [t] other than the epoch. *)
Lemma checkRateLimit_too_early endpoint interval w c tr t :
  prop_get RATE_LIMITS_MS endpoint = Some interval ->
  rateLimitMap c !! endpoint = Some t ->
  t <> 0 ->
  rd_check (reads_at w tr endpoint) - t < interval ->
  checkRateLimit endpoint w c tr =
  (Threw (Tagged (rateLimitError
                    (Js.ceil_div (interval - (rd_check (reads_at w tr endpoint) - t)) 1000)
                    endpoint)),
   c, tr ++ [EvRateCheck endpoint]).
Proof.
  intros Hi Hl Ht Hlt. rewrite checkRateLimit_eq. unfold reads_at in *. cbn zeta.
  destruct (rate_limit_of_configured _ _ Hi) as [-> _].
  rewrite Hl. cbn [Js.truthy_num Js.nullish].
  destruct (t =? 0) eqn:E0; [lia|]. cbn [negb andb].
  destruct (_ <? _) eqn:E1; [reflexivity | lia].
Qed.

Lemma checkRateLimit_late_enough endpoint interval w c tr t :
  prop_get RATE_LIMITS_MS endpoint = Some interval ->
  rateLimitMap c !! endpoint = Some t ->
  interval <= rd_check (reads_at w tr endpoint) - t ->
  forall e c' tr',
    checkRateLimit endpoint w c tr = (Threw e, c', tr') ->
    thrown_code e = Some (CodeStr "daily_limit_exceeded").
Proof.
  intros Hi Hl Hge e c' tr'. rewrite checkRateLimit_eq. unfold reads_at in *. cbn zeta.
  destruct (rate_limit_of_configured _ _ Hi) as [-> _].
  rewrite Hl. cbn [Js.nullish].
  assert (Hlt : (rd_check (clock w (tr ++ [EvRateCheck endpoint])) - t <? interval) = false)
    by lia.
  rewrite Hlt, andb_false_r.
  repeat case_match; intros [= <- <- <-]; reflexivity.
Qed.

(** C1.  For every endpoint key with a configured minimum interval: if a
    [checkRateLimit] call on the key succeeded and recorded the time [t]
    (a clock reading, hence not the epoch instant 0), then a later call on the same
    key whose clock shows [t'] with [t' - t] below the key's interval throws
    the rate-limit error, code [rate_limit_exceeded], status 429, naming
    the remaining interval in whole seconds rounded up, which is at least 1;
    a call at or after [t] plus the interval does not throw the rate-limit
    error. *)
Theorem rate_limit_between_calls endpoint interval w c tr c1 tr1 :
  prop_get RATE_LIMITS_MS endpoint = Some interval ->
  checkRateLimit endpoint w c tr = (Returned tt, c1, tr1) ->
  let t := rd_record (reads_at w tr endpoint) in
  t <> 0 ->
  rateLimitMap c1 !! endpoint = Some t /\
  forall c2 tr2,
    rateLimitMap c2 !! endpoint = Some t ->
    let t' := rd_check (reads_at w tr2 endpoint) in
    (t' - t < interval ->
     let waitTime := Js.ceil_div (interval - (t' - t)) 1000 in
     checkRateLimit endpoint w c2 tr2 =
       (Threw (Tagged (rateLimitError waitTime endpoint)), c2,
        tr2 ++ [EvRateCheck endpoint]) /\
     te_code (rateLimitError waitTime endpoint) = CodeStr "rate_limit_exceeded" /\
     te_status (rateLimitError waitTime endpoint) = Some 429 /\
     te_message (rateLimitError waitTime endpoint) =
       "Rate limit: Please wait " +:+ Js.show waitTime +:+ " seconds before next "
         +:+ endpoint +:+ " request" /\
     1 <= waitTime /\
     1000 * (waitTime - 1) < interval - (t' - t) <= 1000 * waitTime) /\
    (interval <= t' - t ->
     forall e c3 tr3,
       checkRateLimit endpoint w c2 tr2 = (Threw e, c3, tr3) ->
       thrown_code e <> Some (CodeStr "rate_limit_exceeded")).
Proof.
  intros Hi Hrun t Ht.
  assert (Hrec : rateLimitMap c1 !! endpoint = Some t).
  { rewrite (checkRateLimit_records _ _ _ _ _ _ Hrun). apply lookup_insert_eq. }
  split; [exact Hrec|].
  intros c2 tr2 Hl t'. split.
  - intros Hlt waitTime.
    split; [apply (checkRateLimit_too_early _ _ _ _ _ _ Hi Hl); [exact Ht|lia]|].
    repeat (split; [reflexivity|]).
    split.
    + apply ceil_div_pos; lia.
    + apply ceil_div_bounds. lia.
  - intros Hge e c3 tr3 He.
    rewrite (checkRateLimit_late_enough _ _ _ _ _ _ Hi Hl Hge _ _ _ He).
    discriminate.
Qed.

(** The calm world started at 1000 ms with 30 s between quota checks: the
    second check on the create key comes 30 s after the first and is told to
    wait 30 s; the third comes 60 s after and passes. *)
Lemma rate_limit_between_calls_witness :
  let w := calm_world 1000 30000 in
  let k := "tweets/create" in
  exists c1,
    checkRateLimit k w (fresh_client oauth1_config) [] = (Returned tt, c1, [EvRateCheck k]) /\
    checkRateLimit k w c1 [EvRateCheck k] =
      (Threw (Tagged (rateLimitError 30 k)), c1, [EvRateCheck k; EvRateCheck k]) /\
    forall e c3 tr3,
      checkRateLimit k w c1 [EvRateCheck k; EvRateCheck k] = (Threw e, c3, tr3) ->
      thrown_code e <> Some (CodeStr "rate_limit_exceeded").
Proof.
  intros w k.
  eexists. split; [vm_compute; reflexivity|].
  match goal with
  | |- checkRateLimit _ _ ?c1 _ = _ /\ _ =>
      destruct (rate_limit_between_calls k 60000 w (fresh_client oauth1_config) [] c1
                  [EvRateCheck k] eq_refl ltac:(vm_compute; reflexivity)
                  ltac:(vm_compute; discriminate)) as [Hrec Hnext]
  end.
  split.
  - destruct (Hnext _ [EvRateCheck k] Hrec) as [Hearly _].
    exact (proj1 (Hearly ltac:(vm_compute; reflexivity))).
  - destruct (Hnext _ [EvRateCheck k; EvRateCheck k] Hrec) as [_ Hlate].
    apply Hlate. vm_compute. discriminate.
Defined.

(** The hypothesis [t <> 0] of C1 is needed: a timestamp equal to the epoch
    is indistinguishable, for [if (lastRequest)], from no timestamp. *)
Lemma checkRateLimit_epoch_timestamp_ignored :
  let w := calm_world (-1) 1 in
  let k := "tweets/lookup" in
  exists c1,
    checkRateLimit k w (fresh_client oauth1_config) [] = (Returned tt, c1, [EvRateCheck k]) /\
    rateLimitMap c1 !! k = Some 0 /\
    fst (fst (checkRateLimit k w c1 [EvRateCheck k])) = Returned tt.
Proof.
  intros w k. eexists.
  split; [vm_compute; reflexivity|].
  split; vm_compute; reflexivity.
Qed.

(** *** The daily ceiling *)

Lemma mutating_endpoint_limits endpoint :
  In endpoint mutating_endpoints ->
  prop_get DAILY_LIMITS endpoint = Some 17 /\
  prop_get RATE_LIMITS_MS endpoint = Some 60000.
Proof.
  intros [<- | [<- | [<- | []]]]; split; reflexivity.
Qed.

Lemma nth_reads_shift w tr endpoint i :
  nth_reads w (tr ++ [EvRateCheck endpoint]) endpoint i = nth_reads w tr endpoint (S i).
Proof.
  unfold nth_reads. rewrite <- app_assoc. reflexivity.
Qed.

(** A check that is far enough from the last request passes the interval
    test, whatever the last request was. *)
Lemma interval_test_passes endpoint w c tr :
  prop_get RATE_LIMITS_MS endpoint = Some 60000 ->
  (forall last, rateLimitMap c !! endpoint = Some last ->
                60000 <= rd_check (reads_at w tr endpoint) - last) ->
  Js.truthy_num (rateLimitMap c !! endpoint)
  && (rd_check (clock w (tr ++ [EvRateCheck endpoint]))
      - Js.nullish (rateLimitMap c !! endpoint) 0
      <? Js.or_num (prop_get RATE_LIMITS_MS endpoint) 1000) = false.
Proof.
  intros Hi Hsp. rewrite Hi. cbn [Js.or_num Z.eqb].
  destruct (rateLimitMap c !! endpoint) as [last|]; [|reflexivity].
  specialize (Hsp last eq_refl). unfold reads_at in Hsp.
  cbn [Js.nullish]. rewrite andb_false_iff. right. lia.
Qed.

(** With a live counter at [k], [n] spaced checks inside the window all
    pass and leave the counter at [k + n], as long as that is at most 17. *)
Lemma calls_within_window endpoint w R :
  prop_get DAILY_LIMITS endpoint = Some 17 ->
  prop_get RATE_LIMITS_MS endpoint = Some 60000 ->
  forall n c tr k,
    dailyLimits c !! endpoint = Some (mkDailyTracker k R) ->
    k + Z.of_nat n <= 17 ->
    ((0 < n)%nat ->
     forall last, rateLimitMap c !! endpoint = Some last ->
                  60000 <= rd_check (nth_reads w tr endpoint 0) - last) ->
    (forall i, (S i < n)%nat ->
               60000 <= rd_check (nth_reads w tr endpoint (S i))
                        - rd_record (nth_reads w tr endpoint i)) ->
    (forall i, (i < n)%nat -> rd_now (nth_reads w tr endpoint i) <= R) ->
    exists c',
      calls n endpoint w c tr = (Returned tt, c', tr ++ repeat (EvRateCheck endpoint) n) /\
      dailyLimits c' !! endpoint = Some (mkDailyTracker (k + Z.of_nat n) R).
Proof.
  intros Hd Hi. induction n as [|n IH]; intros c tr k Hk Hle Hfirst Hsp Hwin.
  - exists c. cbn. rewrite app_nil_r, Z.add_0_r. auto.
  - cbn [calls]. unfold bind at 1. rewrite checkRateLimit_eq. cbn zeta.
    rewrite (interval_test_passes _ _ _ _ Hi (Hfirst ltac:(lia))).
    rewrite Hd, Hk. cbn [Z.eqb resetAt count].
    pose proof (Hwin 0%nat ltac:(lia)) as Hw0. unfold nth_reads in Hw0. cbn [repeat] in Hw0.
    destruct (R <? _) eqn:ER; [lia|].
    destruct (17 <=? k) eqn:Ek; [lia|].
    edestruct (IH (set_rateLimitMap
                     (<[endpoint := rd_record (clock w (tr ++ [EvRateCheck endpoint]))]>)
                     (set_dailyLimits (<[endpoint := mkDailyTracker (k + 1) R]>) c))
                  (tr ++ [EvRateCheck endpoint]) (k + 1)) as [c' [Hrun Hc']].
    + cbn. apply lookup_insert_eq.
    + lia.
    + intros Hn last. cbn. rewrite lookup_insert_eq. intros [= <-].
      rewrite nth_reads_shift. apply (Hsp 0%nat). lia.
    + intros i Hlt. rewrite !nth_reads_shift. apply Hsp. lia.
    + intros i Hlt. rewrite nth_reads_shift. apply Hwin. lia.
    + exists c'. rewrite Hrun. split.
      * rewrite <- app_assoc. reflexivity.
      * rewrite Hc'. f_equal. f_equal. lia.
Qed.

(** C2 (amended).  The daily ceiling of each of the three mutating endpoint
    keys is 17.  Starting from no counter, 17 checks on the key that are at
    least a minute apart and fall within the first check's window all pass and
    leave the counter at 17, its reset time a calendar day after the first
    check.  With the counter at the ceiling, a spaced check at or before the
    reset time throws the daily-limit error (code [daily_limit_exceeded],
    status 429) naming the hours until reset rounded up, and changes nothing.
    A spaced check strictly after the reset time behaves exactly as on a state
    without the counter: it passes and leaves a fresh counter, count 1, reset
    time a calendar day (24 hours where the zone's offset does not change)
    after that check. *)
Theorem daily_ceiling endpoint w :
  In endpoint mutating_endpoints ->
  prop_get DAILY_LIMITS endpoint = Some 17 /\
  (forall c tr,
     dailyLimits c !! endpoint = None ->
     (forall last, rateLimitMap c !! endpoint = Some last ->
                   60000 <= rd_check (nth_reads w tr endpoint 0) - last) ->
     (forall i, (S i < 17)%nat ->
                60000 <= rd_check (nth_reads w tr endpoint (S i))
                         - rd_record (nth_reads w tr endpoint i)) ->
     (forall i, (0 < i < 17)%nat ->
                rd_now (nth_reads w tr endpoint i)
                <= next_day w (rd_now (nth_reads w tr endpoint 0))) ->
     exists c17,
       calls 17 endpoint w c tr
       = (Returned tt, c17, tr ++ repeat (EvRateCheck endpoint) 17) /\
       dailyLimits c17 !! endpoint
       = Some (mkDailyTracker 17 (next_day w (rd_now (nth_reads w tr endpoint 0))))) /\
  (forall c tr n R,
     dailyLimits c !! endpoint = Some (mkDailyTracker n R) ->
     (forall last, rateLimitMap c !! endpoint = Some last ->
                   60000 <= rd_check (reads_at w tr endpoint) - last) ->
     let now := rd_now (reads_at w tr endpoint) in
     (17 <= n -> now <= R ->
      let hours := Js.ceil_div (R - now) (1000 * 60 * 60) in
      checkRateLimit endpoint w c tr
      = (Threw (Tagged (dailyLimitError 17 hours)), c, tr ++ [EvRateCheck endpoint]) /\
      te_code (dailyLimitError 17 hours) = CodeStr "daily_limit_exceeded" /\
      te_status (dailyLimitError 17 hours) = Some 429 /\
      te_message (dailyLimitError 17 hours)
      = "Daily limit exceeded (17 per 24h). Resets in " +:+ Js.show hours +:+ " hours." /\
      3600000 * (hours - 1) < R - now <= 3600000 * hours) /\
     (R < now ->
      checkRateLimit endpoint w c tr
      = checkRateLimit endpoint w (set_dailyLimits (delete endpoint) c) tr /\
      exists c',
        checkRateLimit endpoint w c tr = (Returned tt, c', tr ++ [EvRateCheck endpoint]) /\
        dailyLimits c' !! endpoint = Some (mkDailyTracker 1 (next_day w now)) /\
        (next_day w now = now + DAY_MS ->
         dailyLimits c' !! endpoint = Some (mkDailyTracker 1 (now + 24 * 60 * 60 * 1000))))).
Proof.
  intros Hin. destruct (mutating_endpoint_limits _ Hin) as [Hd Hi].
  split; [exact Hd|]. split.
  - intros c tr Hnone Hfirst Hsp Hwin.
    change (calls 17 endpoint w c tr)
      with (bind (checkRateLimit endpoint) (fun _ => calls 16 endpoint) w c tr).
    unfold bind at 1. rewrite checkRateLimit_eq. cbn zeta.
    rewrite (interval_test_passes _ _ _ _ Hi Hfirst), Hd, Hnone. cbn [Z.eqb].
    set (R := next_day w (rd_now (clock w (tr ++ [EvRateCheck endpoint])))).
    edestruct (calls_within_window endpoint w R Hd Hi 16
                 (set_rateLimitMap
                    (<[endpoint := rd_record (clock w (tr ++ [EvRateCheck endpoint]))]>)
                    (set_dailyLimits (<[endpoint := mkDailyTracker 1 R]>) c))
                 (tr ++ [EvRateCheck endpoint]) 1) as [c' [Hrun Hc']].
    + cbn. apply lookup_insert_eq.
    + lia.
    + intros _ last. cbn. rewrite lookup_insert_eq. intros [= <-].
      rewrite nth_reads_shift. apply (Hsp 0%nat). lia.
    + intros i Hlt. rewrite !nth_reads_shift. apply Hsp. lia.
    + intros i Hlt. rewrite nth_reads_shift. apply Hwin. lia.
    + exists c'. rewrite Hrun. split.
      * rewrite <- app_assoc. reflexivity.
      * exact Hc'.
  - intros c tr n R Hk Hfirst now. split.
    + intros Hn Hnow hours.
      split.
      * rewrite checkRateLimit_eq. cbn zeta.
        rewrite (interval_test_passes _ _ _ _ Hi Hfirst), Hd, Hk. cbn [Z.eqb resetAt count].
        fold (reads_at w tr endpoint). fold now.
        destruct (R <? now) eqn:ER; [lia|].
        destruct (17 <=? n) eqn:En; [reflexivity | lia].
      * repeat (split; [reflexivity|]).
        apply (ceil_div_bounds (R - now) 3600000). lia.
    + intros Hnow.
      assert (Hfirst' : forall last,
                 rateLimitMap (set_dailyLimits (delete endpoint) c) !! endpoint = Some last ->
                 60000 <= rd_check (reads_at w tr endpoint) - last) by exact Hfirst.
      rewrite !checkRateLimit_eq. cbn zeta.
      rewrite (interval_test_passes _ _ _ _ Hi Hfirst).
      rewrite (interval_test_passes _ _ _ _ Hi Hfirst').
      rewrite Hd, Hk. cbn [Z.eqb resetAt count].
      fold (reads_at w tr endpoint). fold now.
      destruct (R <? now) eqn:ER; [|lia].
      cbn [dailyLimits set_dailyLimits]. rewrite lookup_delete_eq.
      split.
      * reflexivity.
      * eexists. split; [reflexivity|].
        assert (Hl : forall r, dailyLimits
                   (set_rateLimitMap (<[endpoint := rd_record (reads_at w tr endpoint)]>)
                      (set_dailyLimits (<[endpoint := mkDailyTracker 1 r]>)
                         (set_dailyLimits (delete endpoint) c))) !! endpoint
                 = Some (mkDailyTracker 1 r)).
        { intros r. cbn. apply lookup_insert_eq. }
        split; [apply Hl|]. intros ->. apply Hl.
Qed.

(** Seventeen checks on the create key a minute apart pass; the eighteenth,
    a minute later, is refused for the remaining 24 hours (rounded up); a
    check a millisecond after the reset time passes with a fresh counter. *)
Lemma daily_ceiling_witness :
  let k := "tweets/create" in
  let w := scheduled_world (minute_schedule 17 ++ [18 * 60000]) in
  let w' := scheduled_world (minute_schedule 17 ++ [60000 + DAY_MS + 1]) in
  exists c17,
    calls 17 k w (fresh_client oauth1_config) [] = (Returned tt, c17, repeat (EvRateCheck k) 17) /\
    dailyLimits c17 !! k = Some (mkDailyTracker 17 (60000 + DAY_MS)) /\
    checkRateLimit k w c17 (repeat (EvRateCheck k) 17)
    = (Threw (Tagged (dailyLimitError 17 24)), c17, repeat (EvRateCheck k) 18) /\
    exists c',
      checkRateLimit k w' c17 (repeat (EvRateCheck k) 17)
      = (Returned tt, c', repeat (EvRateCheck k) 18) /\
      dailyLimits c' !! k = Some (mkDailyTracker 1 (60000 + DAY_MS + 1 + DAY_MS)).
Proof.
  intros k w w'.
  destruct (daily_ceiling k w (or_introl eq_refl)) as [_ [H17 H18]].
  destruct (daily_ceiling k w' (or_introl eq_refl)) as [_ [_ H18']].
  destruct (H17 (fresh_client oauth1_config) []) as [c17 [Hrun Hc17]].
  - reflexivity.
  - intros last Hl. vm_compute in Hl. discriminate.
  - below 16 by_evaluation.
  - below 17 by_evaluation.
  - exists c17. split; [exact Hrun|]. split; [exact Hc17|].
    assert (Hlast : rateLimitMap c17 !! k = Some (17 * 60000)).
    { vm_compute in Hrun. injection Hrun as <-. reflexivity. }
    assert (Hsp : forall tr' w0, 
               60000 <= rd_check (reads_at w0 tr' k) - 17 * 60000 ->
               forall last, rateLimitMap c17 !! k = Some last ->
               60000 <= rd_check (reads_at w0 tr' k) - last).
    { intros tr' w0 H last. rewrite Hlast. intros [= <-]. exact H. }
    split.
    + assert (H1 : 60000 <= rd_check (reads_at w (repeat (EvRateCheck k) 17) k) - 17 * 60000)
        by by_evaluation.
      destruct (H18 c17 (repeat (EvRateCheck k) 17) 17 (60000 + DAY_MS) Hc17
                  (Hsp _ _ H1)) as [Hthrow _].
      assert (H2 : rd_now (reads_at w (repeat (EvRateCheck k) 17) k) <= 60000 + DAY_MS)
        by by_evaluation.
      exact (proj1 (Hthrow ltac:(lia) H2)).
    + assert (H1 : 60000 <= rd_check (reads_at w' (repeat (EvRateCheck k) 17) k) - 17 * 60000)
        by by_evaluation.
      destruct (H18' c17 (repeat (EvRateCheck k) 17) 17 (60000 + DAY_MS) Hc17
                  (Hsp _ _ H1)) as [_ Hfresh].
      assert (H2 : 60000 + DAY_MS < rd_now (reads_at w' (repeat (EvRateCheck k) 17) k))
        by by_evaluation.
      destruct (Hfresh H2) as [_ [c' [Hrun' [Hc' _]]]].
      exists c'. split; [exact Hrun'|exact Hc'].
Defined.

(** C2, as stated, fails at the boundary: seventeen checks a minute apart
    pass, and the eighteenth, made exactly at the counter's reset time (a day
    after the first check), is not treated as call #1 but refused with the
    daily-limit error naming 0 hours. *)
Lemma daily_reset_boundary_counterexample :
  let k := "tweets/create" in
  let w := scheduled_world (minute_schedule 17 ++ [60000 + DAY_MS]) in
  fst (fst (calls 17 k w (fresh_client oauth1_config) [])) = Returned tt /\
  rd_now (nth_reads w [] k 17) = next_day w (rd_now (nth_reads w [] k 0)) /\
  rd_check (nth_reads w [] k 17) - rd_record (nth_reads w [] k 16) >= 60000 /\
  fst (fst (calls 18 k w (fresh_client oauth1_config) []))
  = Threw (Tagged (dailyLimitError 17 0)) /\
  te_message (dailyLimitError 17 0) = "Daily limit exceeded (17 per 24h). Resets in 0 hours.".
Proof.
  intros k w. repeat split; by_evaluation.
Qed.

(** ** The request broker *)

Lemma checkRateLimit_frame endpoint w c tr o c1 tr1 :
  checkRateLimit endpoint w c tr = (o, c1, tr1) ->
  client c1 = client c /\ config c1 = config c /\
  v2MediaUploader c1 = v2MediaUploader c /\
  tr1 = tr ++ [EvRateCheck endpoint].
Proof.
  rewrite checkRateLimit_eq. cbn zeta.
  repeat case_match; intros [= <- <- <-]; auto.
Qed.

Lemma code_is_500_iff e :
  code_is_500 (thrown_code e) = true <-> thrown_code e = Some (CodeNum 500).
Proof.
  destruct (thrown_code e) as [[n|s]|]; cbn; split; try discriminate.
  - intros H. apply Z.eqb_eq in H. congruence.
  - intros [= ->]. reflexivity.
Qed.

(** Every error leaves the funnel tagged. *)
Lemma handleApiError_tagged {A : Type} error w c tr :
  exists te, @handleApiError A error w c tr = (Threw (Tagged te), c, tr).
Proof.
  unfold handleApiError, throw.
  destruct error as [e | m co st | m co st]; cbn.
  - eauto.
  - destruct co as [co|]; [destruct (truthy_code co)|]; eauto.
  - destruct co as [co|]; [destruct (truthy_code co)|]; eauto.
Qed.

Lemma deleteTweet_fallback_eq tweetId v2Error w c tr :
  deleteTweet_fallback tweetId v2Error w c tr =
  if code_is_500 (thrown_code v2Error) then
    match authType (config c) with
    | oauth1 =>
        match v1_destroy w tr tweetId with
        | Returned id_str => (Returned (Js.truthy_str id_str), c, tr ++ [EvDestroyV1 tweetId])
        | Threw e => (Threw e, c, tr ++ [EvDestroyV1 tweetId])
        end
    | oauth2 => (Threw (Tagged deleteUnavailableError), c, tr)
    end
  else (Threw v2Error, c, tr).
Proof.
  unfold deleteTweet_fallback. destruct (code_is_500 _); [|reflexivity].
  run_m. destruct (authType (config c)); [|reflexivity].
  destruct (v1_destroy w tr tweetId); reflexivity.
Qed.

(** C3.  In a [deleteTweet] call whose quota check passed and whose v2 delete
    call failed with [v2Error]: if [v2Error.code] is exactly 500 then, under
    oauth1, the legacy v1.1 endpoint is called once and [deleted] is [true]
    exactly when the legacy response carries a non-empty identifier (a failure
    of the legacy call goes to the error funnel), while under oauth2 the call
    throws the [delete_unavailable] error and the legacy endpoint is never
    called; with any other code the v2 failure goes to the error funnel and
    the legacy endpoint is never called. *)
Theorem delete_fallback_policy tweetId w c tr c1 tr1 v2Error :
  checkRateLimit "tweets/delete" w c tr = (Returned tt, c1, tr1) ->
  v2_deleteTweet w tr1 tweetId = Threw v2Error ->
  let called_v2 := tr ++ [EvRateCheck "tweets/delete"; EvDeleteV2 tweetId] in
  (thrown_code v2Error = Some (CodeNum 500) ->
   match authType (config c) with
   | oauth1 =>
       (forall id_str,
          v1_destroy w called_v2 tweetId = Returned id_str ->
          deleteTweet tweetId w c tr
          = (Returned (Js.truthy_str id_str), c1, called_v2 ++ [EvDestroyV1 tweetId]) /\
          (Js.truthy_str id_str = true <-> exists s, id_str = Some s /\ s <> "")) /\
       (forall e,
          v1_destroy w called_v2 tweetId = Threw e ->
          deleteTweet tweetId w c tr
          = handleApiError e w c1 (called_v2 ++ [EvDestroyV1 tweetId]))
   | oauth2 =>
       deleteTweet tweetId w c tr = (Threw (Tagged deleteUnavailableError), c1, called_v2) /\
       te_code deleteUnavailableError = CodeStr "delete_unavailable" /\
       te_status deleteUnavailableError = Some 500
   end) /\
  (thrown_code v2Error <> Some (CodeNum 500) ->
   deleteTweet tweetId w c tr = handleApiError v2Error w c1 called_v2 /\
   (instanceof_TwitterError v2Error = true ->
    deleteTweet tweetId w c tr = (Threw v2Error, c1, called_v2))).
Proof.
  intros Hcheck Hv2 called_v2.
  destruct (checkRateLimit_frame _ _ _ _ _ _ _ Hcheck) as (_ & Hcfg & _ & ->).
  assert (Htr : (tr ++ [EvRateCheck "tweets/delete"]) ++ [EvDeleteV2 tweetId] = called_v2).
  { unfold called_v2. rewrite <- app_assoc. reflexivity. }
  assert (Heq : deleteTweet tweetId w c tr
                = tryCatch (deleteTweet_fallback tweetId v2Error) handleApiError w c1 called_v2).
  { unfold deleteTweet, deleteTweet_body.
    unfold tryCatch at 1. unfold bind at 1. rewrite Hcheck.
    unfold tryCatch at 1. unfold remote at 1. rewrite Hv2, Htr. reflexivity. }
  rewrite Heq. clear Heq. unfold tryCatch. rewrite deleteTweet_fallback_eq, Hcfg.
  split.
  - intros H500. apply code_is_500_iff in H500. rewrite H500.
    destruct (authType (config c)).
    + split.
      * intros id_str Hv1. rewrite Hv1. split; [reflexivity|].
        destruct id_str as [s|]; cbn.
        -- destruct (String.eqb_spec s "") as [-> | Hne]; cbn.
           ++ split; [discriminate|]. intros (s' & [= <-] & Hne). contradiction.
           ++ split; [|reflexivity]. intros _. eauto.
        -- split; [discriminate|]. intros (s & [=] & _).
      * intros e Hv1. rewrite Hv1. reflexivity.
    + split; [reflexivity|]. split; reflexivity.
  - intros Hne.
    destruct (code_is_500 (thrown_code v2Error)) eqn:E.
    + apply code_is_500_iff in E. contradiction.
    + split; [reflexivity|].
      intros Htag. destruct v2Error; try discriminate. reflexivity.
Qed.

(** With the v2 delete endpoint answering 500: under oauth1 the tweet is
    deleted through the legacy endpoint, and reported as not deleted when the
    legacy response carries an empty identifier; under oauth2 the call fails
    with [delete_unavailable] after the v2 call alone.  With the endpoint
    answering 503 the failure is funnelled and the legacy endpoint is not
    called. *)
Lemma delete_fallback_policy_witness :
  let k := "tweets/delete" in
  (exists c1,
     checkRateLimit k (broken_delete_world 500) (fresh_client oauth1_config) []
     = (Returned tt, c1, [EvRateCheck k]) /\
     deleteTweet "42" (broken_delete_world 500) (fresh_client oauth1_config) []
     = (Returned true, c1, [EvRateCheck k; EvDeleteV2 "42"; EvDestroyV1 "42"])) /\
  (exists c1,
     checkRateLimit k (with_v1_destroy (fun _ _ => Returned (Some "")) (broken_delete_world 500))
       (fresh_client oauth1_config) []
     = (Returned tt, c1, [EvRateCheck k]) /\
     deleteTweet "42" (with_v1_destroy (fun _ _ => Returned (Some "")) (broken_delete_world 500))
       (fresh_client oauth1_config) []
     = (Returned false, c1, [EvRateCheck k; EvDeleteV2 "42"; EvDestroyV1 "42"])) /\
  (exists c1,
     checkRateLimit k (broken_delete_world 500) (fresh_client oauth2_config) []
     = (Returned tt, c1, [EvRateCheck k]) /\
     deleteTweet "42" (broken_delete_world 500) (fresh_client oauth2_config) []
     = (Threw (Tagged deleteUnavailableError), c1, [EvRateCheck k; EvDeleteV2 "42"])) /\
  (exists c1,
     checkRateLimit k (broken_delete_world 503) (fresh_client oauth1_config) []
     = (Returned tt, c1, [EvRateCheck k]) /\
     deleteTweet "42" (broken_delete_world 503) (fresh_client oauth1_config) []
     = (Threw (Tagged (mkTwitterError "Request failed" (CodeNum 503) None)), c1,
        [EvRateCheck k; EvDeleteV2 "42"])).
Proof.
  intros k. split; [|split; [|split]].
  - eexists. split; [vm_compute; reflexivity|].
    match goal with
    | |- deleteTweet _ ?w ?c _ = (_, ?c1, _) =>
        destruct (delete_fallback_policy "42" w c [] c1 [EvRateCheck k]
                    (http_error 500 "Request failed")
                    ltac:(vm_compute; reflexivity) eq_refl) as [H500 _]
    end.
    specialize (H500 eq_refl). cbn in H500. destruct H500 as [Hok _].
    exact (proj1 (Hok (Some "42") eq_refl)).
  - eexists. split; [vm_compute; reflexivity|].
    match goal with
    | |- deleteTweet _ ?w ?c _ = (_, ?c1, _) =>
        destruct (delete_fallback_policy "42" w c [] c1 [EvRateCheck k]
                    (http_error 500 "Request failed")
                    ltac:(vm_compute; reflexivity) eq_refl) as [H500 _]
    end.
    specialize (H500 eq_refl). cbn in H500. destruct H500 as [Hok _].
    exact (proj1 (Hok (Some "") eq_refl)).
  - eexists. split; [vm_compute; reflexivity|].
    match goal with
    | |- deleteTweet _ ?w ?c _ = (_, ?c1, _) =>
        destruct (delete_fallback_policy "42" w c [] c1 [EvRateCheck k]
                    (http_error 500 "Request failed")
                    ltac:(vm_compute; reflexivity) eq_refl) as [H500 _]
    end.
    specialize (H500 eq_refl). cbn in H500. exact (proj1 H500).
  - eexists. split; [vm_compute; reflexivity|].
    match goal with
    | |- deleteTweet _ ?w ?c _ = (_, ?c1, _) =>
        destruct (delete_fallback_policy "42" w c [] c1 [EvRateCheck k]
                    (http_error 503 "Request failed")
                    ltac:(vm_compute; reflexivity) eq_refl) as [_ Hother]
    end.
    exact (proj1 (Hother ltac:(discriminate))).
Defined.

(** *** The error funnel *)

Lemma handleApiError_failure {A B : Type} error w c tr w' c' tr' :
  failure (@handleApiError A error w c tr) = failure (@handleApiError B error w' c' tr').
Proof.
  unfold handleApiError, throw.
  destruct (instanceof_TwitterError error); [reflexivity|].
  destruct (thrown_code error) as [co|]; [destruct (truthy_code co)|]; reflexivity.
Qed.

Lemma uploadMedia_catch_tagged error w c tr :
  exists te, uploadMedia_catch error w c tr = (Threw (Tagged te), c, tr).
Proof.
  unfold uploadMedia_catch.
  destruct (instanceof_Error error && _).
  - eexists. reflexivity.
  - apply handleApiError_tagged.
Qed.

Lemma uploadMedia_catch_failure error w c tr w' c' tr' :
  failure (uploadMedia_catch error w c tr) = failure (uploadMedia_catch error w' c' tr').
Proof.
  unfold uploadMedia_catch.
  destruct (instanceof_Error error && _); [reflexivity|].
  apply handleApiError_failure.
Qed.

(** What the caller of [try { body } catch (e) { handler e }] catches. *)
Lemma tryCatch_failure {A : Type} (body : M TwitterClient A) handler w c tr :
  failure (tryCatch body handler w c tr) =
  match body w c tr with
  | (Returned _, _, _) => None
  | (Threw raw, c', tr') => failure (handler raw w c' tr')
  end.
Proof.
  unfold tryCatch. destruct (body w c tr) as [[[a|raw] c'] tr']; reflexivity.
Qed.

(** C7 (amended).  [handleApiError] rethrows an already-tagged error
    unchanged, wraps an exception exposing a truthy code into a tagged error
    with that code and status (and its message, or a default one), and turns
    any other exception into the tagged [internal_error], status 500.  Every
    public operation hands what its body raised to this funnel, except
    [uploadMedia], whose [catch] first replaces any [Error] whose message
    contains "scope" or "403", tagged or not, by the tagged
    [media_upload_forbidden] error; so callers of every operation only ever
    catch tagged errors. *)
Theorem error_funnel :
  (forall (A : Type) te w c tr,
     @handleApiError A (Tagged te) w c tr = (Threw (Tagged te), c, tr)) /\
  (forall (A : Type) error code w c tr,
     instanceof_TwitterError error = false ->
     thrown_code error = Some code ->
     truthy_code code = true ->
     exists msg,
       @handleApiError A error w c tr
       = (Threw (Tagged (mkTwitterError msg code (thrown_status error))), c, tr) /\
       msg = (if Js.truthy_str (thrown_message error)
              then Js.nullish (thrown_message error) ""
              else "Twitter API error")) /\
  (forall (A : Type) error w c tr,
     instanceof_TwitterError error = false ->
     (forall code, thrown_code error = Some code -> truthy_code code = false) ->
     @handleApiError A error w c tr = (Threw (Tagged internalError), c, tr) /\
     te_code internalError = CodeStr "internal_error" /\
     te_status internalError = Some 500) /\
  (forall op w c tr e, op_failure op w c tr = Some e -> exists te, e = Tagged te) /\
  (forall op w c tr,
     match op_raised op w c tr with
     | None => op_failure op w c tr = None
     | Some raw =>
         forall w' c' tr',
           op_failure op w c tr =
           match op with
           | OpUploadMedia _ _ => failure (uploadMedia_catch raw w' c' tr')
           | _ => failure (@handleApiError unit raw w' c' tr')
           end
     end) /\
  (forall error w c tr,
     uploadMedia_catch error w c tr =
     if instanceof_Error error
        && (Js.includes "scope" (Js.nullish (thrown_message error) "")
            || Js.includes "403" (Js.nullish (thrown_message error) ""))
     then (Threw (Tagged mediaUploadForbiddenError), c, tr)
     else handleApiError error w c tr).
Proof.
  split; [reflexivity|]. split; [|split; [|split; [|split]]].
  - intros A error code w c tr Htag Hcode Htruthy.
    unfold handleApiError. rewrite Htag, Hcode, Htruthy.
    eexists. split; [reflexivity|].
    unfold Js.or_str. destruct (Js.truthy_str (thrown_message error)); reflexivity.
  - intros A error w c tr Htag Hcode.
    split; [|split; reflexivity].
    unfold handleApiError. rewrite Htag.
    destruct (thrown_code error) as [code|]; [|reflexivity].
    rewrite (Hcode code eq_refl). reflexivity.
  - intros op w c tr e. funnel_cases op; rewrite tryCatch_failure;
      match goal with
      | |- context [?body w c tr] =>
          destruct (body w c tr) as [[[a|raw] c'] tr']; [discriminate|]
      end;
      match goal with
      | |- failure (@handleApiError ?A _ _ _ _) = _ -> _ =>
          destruct (handleApiError_tagged (A:=A) raw w c' tr') as [te Hte]
      | |- failure (uploadMedia_catch _ _ _ _) = _ -> _ =>
          destruct (uploadMedia_catch_tagged raw w c' tr') as [te Hte]
      end;
      rewrite Hte; intros [= <-]; eauto.
  - intros op w c tr. funnel_cases op; rewrite tryCatch_failure;
      match goal with
      | |- context [?body w c tr] =>
          destruct (body w c tr) as [[[a|raw] c'] tr']; cbn [failure]; [reflexivity|]
      end;
      intros w' c'' tr''; first [apply handleApiError_failure | apply uploadMedia_catch_failure].
  - intros error w c tr. unfold uploadMedia_catch.
    destruct (instanceof_Error error && _); reflexivity.
Qed.

(** C7, as stated, fails for [uploadMedia]: when the v2 upload endpoint
    refuses an upload with a body mentioning 403, the uploader raises a tagged
    error (code [media_upload_failed], status 500), and the operation's caller
    catches a different one (code [media_upload_forbidden], status 403). *)
Lemma upload_rewrites_tagged_error_counterexample :
  let w := refusing_upload_world "403 Forbidden" in
  let op := OpUploadMedia [Byte.x00] "image/png" in
  let raised :=
    Tagged (mkTwitterError "V2 media upload failed: Upload failed: 403 Forbidden"
              (CodeStr "media_upload_failed") (Some 500)) in
  op_raised op w (fresh_client oauth2_config) [] = Some raised /\
  op_failure op w (fresh_client oauth2_config) [] = Some (Tagged mediaUploadForbiddenError) /\
  Tagged mediaUploadForbiddenError <> raised.
Proof.
  intros w op raised. split; [|split].
  - vm_compute. reflexivity.
  - vm_compute. reflexivity.
  - discriminate.
Qed.

(** [handleApiError] on the platform library's error for HTTP 429 and on a
    plain [Error], and [searchTweets] past its quota. *)
Lemma error_funnel_witness :
  let c := fresh_client oauth1_config in
  let w := calm_world 1000 0 in
  @handleApiError unit (http_error 429 "Too Many Requests") w c []
  = (Threw (Tagged (mkTwitterError "Too Many Requests" (CodeNum 429) None)), c, []) /\
  @handleApiError unit (ErrorObj "boom" None None) w c []
  = (Threw (Tagged internalError), c, []) /\
  exists te,
    op_failure (OpSearchTweets "q" 10) w
      (set_rateLimitMap (<["tweets/search" := 1000]>) c) [] = Some (Tagged te).
Proof.
  intros c w.
  destruct error_funnel as (_ & Hcode & Hother & Hshape & _).
  split; [|split].
  - destruct (Hcode unit (http_error 429 "Too Many Requests") (CodeNum 429) w c []
                eq_refl eq_refl eq_refl) as [msg [Hrun ->]].
    exact Hrun.
  - refine (proj1 (Hother unit (ErrorObj "boom" None None) w c [] eq_refl _)).
    intros code [=].
  - assert (Hf : exists e, op_failure (OpSearchTweets "q" 10) w
                   (set_rateLimitMap (<["tweets/search" := 1000]>) c) [] = Some e).
    { eexists. vm_compute. reflexivity. }
    destruct Hf as [e He]. destruct (Hshape _ _ _ _ _ He) as [te ->]. eauto.
Defined.

(** ** The credential provider *)

(** The cases of tests/unit/auth-factory.test.ts. *)
Example factory_oauth1_all_credentials :
  createTwitterClient
    (mkConfig (Some "test-key") (Some "test-secret") (Some "test-token")
       (Some "test-token-secret") oauth1 None None None None None)
  = Returned (OAuth1Client "test-key" "test-secret" "test-token" "test-token-secret").
Proof. reflexivity. Qed.

Example factory_oauth1_missing_credentials :
  createTwitterClient
    (mkConfig (Some "test-key") None None None oauth1 None None None None None)
  = Threw (ErrorObj OAUTH1_ALL_FOUR_REQUIRED None None) /\
  Js.startsWith "OAuth 1.0a requires all four credentials" OAUTH1_ALL_FOUR_REQUIRED = true.
Proof. split; reflexivity. Qed.

Example factory_oauth2_access_token :
  createTwitterClient
    (mkConfig None None None None oauth2 None None (Some "oauth2-token-123") None None)
  = Returned (BearerClient "oauth2-token-123").
Proof. reflexivity. Qed.

Example factory_oauth2_missing_token :
  createTwitterClient (mkConfig None None None None oauth2 None None None None None)
  = Threw (ErrorObj OAUTH2_TOKEN_REQUIRED None None) /\
  Js.startsWith "OAuth 2.0 access token is required" OAUTH2_TOKEN_REQUIRED = true.
Proof. split; reflexivity. Qed.

Lemma includes_env_names :
  Forall (fun f => Js.includes (env_name f) OAUTH1_ALL_FOUR_REQUIRED = true)
    (required_fields oauth1) /\
  Forall (fun f => Js.includes (env_name f) OAUTH2_TOKEN_REQUIRED = true)
    (required_fields oauth2).
Proof.
  split; repeat constructor; vm_compute; reflexivity.
Qed.

(** C8 (amended).  For every configuration [createTwitterClient] succeeds
    exactly when the active scheme's credential branch is fully populated:
    under oauth1 all four credential strings are non-empty, under oauth2 the
    bearer token is non-empty.  Otherwise it fails with the scheme's fixed,
    descriptive error, which names every field the scheme requires (all four
    under oauth1, whichever of them are missing).  In either case the function
    is a pure computation: as a step of a run it leaves state and trace
    unchanged and consults no oracle, so no network call is made. *)
Theorem credential_provider cfg :
  match createTwitterClient cfg with
  | Returned api =>
      fully_populated cfg = true /\
      Forall (fun f => exists s, field_value cfg f = Some s /\ s <> "")
        (required_fields (authType cfg)) /\
      api = match authType cfg with
            | oauth1 =>
                OAuth1Client (Js.nullish (apiKey cfg) "") (Js.nullish (apiSecretKey cfg) "")
                  (Js.nullish (accessToken cfg) "") (Js.nullish (accessTokenSecret cfg) "")
            | oauth2 => BearerClient (Js.nullish (oauth2AccessToken cfg) "")
            end
  | Threw e =>
      fully_populated cfg = false /\
      Exists (fun f => populated cfg f = false) (required_fields (authType cfg)) /\
      exists msg,
        e = ErrorObj msg None None /\
        msg = match authType cfg with
              | oauth1 => OAUTH1_ALL_FOUR_REQUIRED
              | oauth2 => OAUTH2_TOKEN_REQUIRED
              end /\
        Forall (fun f => Js.includes (env_name f) msg = true) (required_fields (authType cfg))
  end /\
  forall (S : Type) (w w' : World) (s : S) (tr : Trace),
    createTwitterClientM cfg w s tr = (createTwitterClient cfg, s, tr) /\
    createTwitterClientM cfg w s tr = createTwitterClientM cfg w' s tr.
Proof.
  assert (Hpop : forall o, Js.truthy_str o = true -> exists s, o = Some s /\ s <> "").
  { intros [s|]; cbn; [|discriminate].
    destruct (String.eqb_spec s ""); [discriminate|]. eauto. }
  split; [|intros; split; reflexivity].
  unfold createTwitterClient, fully_populated, populated.
  destruct (authType cfg); cbn [required_fields forallb field_value].
  - destruct (Js.truthy_str (apiKey cfg)) eqn:E1; cbn [negb orb andb].
    2:{ split; [reflexivity|]. split; [constructor; exact E1|].
        eexists. split; [reflexivity|]. split; [reflexivity|]. apply includes_env_names. }
    destruct (Js.truthy_str (apiSecretKey cfg)) eqn:E2; cbn [negb orb andb].
    2:{ split; [reflexivity|]. split; [do 1 apply Exists_cons_tl; constructor; exact E2|].
        eexists. split; [reflexivity|]. split; [reflexivity|]. apply includes_env_names. }
    destruct (Js.truthy_str (accessToken cfg)) eqn:E3; cbn [negb orb andb].
    2:{ split; [reflexivity|]. split; [do 2 apply Exists_cons_tl; constructor; exact E3|].
        eexists. split; [reflexivity|]. split; [reflexivity|]. apply includes_env_names. }
    destruct (Js.truthy_str (accessTokenSecret cfg)) eqn:E4; cbn [negb orb andb].
    2:{ split; [reflexivity|]. split; [do 3 apply Exists_cons_tl; constructor; exact E4|].
        eexists. split; [reflexivity|]. split; [reflexivity|]. apply includes_env_names. }
    split; [reflexivity|]. split; [|reflexivity].
    repeat constructor; apply Hpop; assumption.
  - destruct (Js.truthy_str (oauth2AccessToken cfg)) eqn:E1; cbn [negb orb andb].
    + split; [reflexivity|]. split; [|reflexivity].
      repeat constructor; apply Hpop; assumption.
    + split; [reflexivity|]. split; [constructor; exact E1|].
      eexists. split; [reflexivity|]. split; [reflexivity|]. apply includes_env_names.
Qed.

(** C8, as stated, fails under oauth1: the error does not identify which
    fields are missing.  A configuration lacking only the API key and one
    lacking only the access-token secret fail with the same message, and that
    message names [ACCESS_TOKEN_SECRET] although the first configuration
    provides it. *)
Lemma provider_error_not_exact_counterexample :
  let only_key_missing :=
    mkConfig None (Some "secret") (Some "token") (Some "token-secret") oauth1
      None None None None None in
  let only_token_secret_missing :=
    mkConfig (Some "key") (Some "secret") (Some "token") None oauth1
      None None None None None in
  createTwitterClient only_key_missing = Threw (ErrorObj OAUTH1_ALL_FOUR_REQUIRED None None) /\
  createTwitterClient only_token_secret_missing
  = Threw (ErrorObj OAUTH1_ALL_FOUR_REQUIRED None None) /\
  populated only_key_missing FAccessTokenSecret = true /\
  populated only_token_secret_missing FAccessTokenSecret = false /\
  Js.includes (env_name FAccessTokenSecret) OAUTH1_ALL_FOUR_REQUIRED = true.
Proof.
  cbv zeta. repeat split; vm_compute; reflexivity.
Qed.

(** ** The credential refresher *)

Lemma shouldRefreshToken_eq w h tr :
  shouldRefreshToken w h tr =
  (Returned (Js.truthy_str (oauth2RefreshToken (h_config h))
             && match tokenExpiresAt h with
                | Some (Some t) => t - rd_now (clock w tr) <? 5 * 60 * 1000
                | _ => false
                end),
   h, tr).
Proof.
  unfold shouldRefreshToken. run_m.
  destruct (tokenExpiresAt h) as [[t|]|];
    destruct (Js.truthy_str (oauth2RefreshToken (h_config h))); reflexivity.
Qed.

Lemma refreshAccessToken_eq w h tr :
  let cfg := h_config h in
  let clientId := Js.nullish (oauth2ClientId cfg) "" in
  let clientSecret := Js.nullish (oauth2ClientSecret cfg) "" in
  let refreshToken := Js.nullish (oauth2RefreshToken cfg) "" in
  let called := tr ++ [EvTokenRefresh clientId clientSecret refreshToken] in
  let failed (reason : string) :=
    (@Threw unit (ErrorObj ("Failed to refresh OAuth 2.0 token: " +:+ reason) None None),
     h, called) in
  Js.truthy_str (oauth2RefreshToken cfg) = true ->
  refreshAccessToken w h tr =
  if negb (Js.truthy_str (oauth2ClientId cfg) && Js.truthy_str (oauth2ClientSecret cfg))
  then (Threw (ErrorObj "Client ID and secret required for token refresh" None None), h, tr)
  else
    match fetch_token w tr clientId clientSecret refreshToken with
    | Threw e => failed (error_text e)
    | Returned response =>
        if negb (tk_ok response) then failed ("Token refresh failed: " +:+ tk_text response)
        else
          match tk_json response with
          | Threw e => failed (error_text e)
          | Returned tokens =>
              let expires := rd_record (clock w called) + expires_in tokens * 1000 in
              (Returned tt,
               mkOAuth2Handler
                 (set_expiry (iso_string w expires) (set_tokens tokens cfg))
                 (Some (BearerClient (access_token tokens)))
                 (Some (Some expires)),
               called ++ [EvEnvFile (access_token tokens)
                            (Js.or_str (refresh_token tokens) (oauth2RefreshToken cfg))
                            expires])
          end
    end.
Proof.
  intros cfg clientId clientSecret refreshToken called failed Hrt.
  unfold refreshAccessToken. unfold bind at 1. unfold gets at 1.
  fold cfg. rewrite Hrt. cbn [negb].
  destruct (Js.truthy_str (oauth2ClientId cfg)); cbn [negb orb andb]; [|reflexivity].
  destruct (Js.truthy_str (oauth2ClientSecret cfg)); cbn [negb orb andb]; [|reflexivity].
  run_m. fold clientId clientSecret refreshToken.
  destruct (fetch_token w tr clientId clientSecret refreshToken) as [response|e];
    [|reflexivity].
  destruct (tk_ok response); cbn [negb]; [|reflexivity].
  destruct (tk_json response) as [tokens|e]; reflexivity.
Qed.

(** C9.  The refresher asks for a refresh exactly when a refresh token is
    present and the recorded expiry is a date less than 5 minutes away; when
    it does not, [getClient] makes no remote call.  A refresh attempted
    without client id or client secret throws before any remote call; one
    answered with a non-success response, or not answered at all, throws
    after that single call to the token endpoint, leaving the handler as it
    was; no path calls the token endpoint twice. *)
Theorem refresh_policy w h tr :
  let cfg := h_config h in
  let now := rd_now (clock w tr) in
  let due :=
    Js.truthy_str (oauth2RefreshToken cfg)
    && match tokenExpiresAt h with
       | Some (Some t) => t - now <? 5 * 60 * 1000
       | _ => false
       end in
  let clientId := Js.nullish (oauth2ClientId cfg) "" in
  let clientSecret := Js.nullish (oauth2ClientSecret cfg) "" in
  let refreshToken := Js.nullish (oauth2RefreshToken cfg) "" in
  let call := EvTokenRefresh clientId clientSecret refreshToken in
  shouldRefreshToken w h tr = (Returned due, h, tr) /\
  (due = true <->
   (exists s, oauth2RefreshToken cfg = Some s /\ s <> "") /\
   (exists t, tokenExpiresAt h = Some (Some t) /\ t - now < 5 * 60 * 1000)) /\
  (due = false -> snd (getClient w h tr) = tr) /\
  (due = true ->
   (Js.truthy_str (oauth2ClientId cfg) && Js.truthy_str (oauth2ClientSecret cfg) = false ->
    getClient w h tr
    = (Threw (ErrorObj "Client ID and secret required for token refresh" None None), h, tr)) /\
   (Js.truthy_str (oauth2ClientId cfg) && Js.truthy_str (oauth2ClientSecret cfg) = true ->
    (exists rest,
       snd (getClient w h tr) = tr ++ call :: rest /\
       List.filter is_token_refresh rest = []) /\
    (forall response,
       fetch_token w tr clientId clientSecret refreshToken = Returned response ->
       tk_ok response = false ->
       getClient w h tr
       = (Threw (ErrorObj ("Failed to refresh OAuth 2.0 token: Token refresh failed: "
                           +:+ tk_text response) None None),
          h, tr ++ [call])) /\
    (forall e,
       fetch_token w tr clientId clientSecret refreshToken = Threw e ->
       getClient w h tr
       = (Threw (ErrorObj ("Failed to refresh OAuth 2.0 token: " +:+ error_text e) None None),
          h, tr ++ [call])))).
Proof.
  intros cfg now due clientId clientSecret refreshToken call.
  split; [apply shouldRefreshToken_eq|].
  split.
  { unfold due. rewrite andb_true_iff. split.
    - intros [Hrt Hexp]. split.
      + destruct (oauth2RefreshToken cfg) as [s|]; cbn in Hrt; [|discriminate].
        destruct (String.eqb_spec s ""); [discriminate|]. eauto.
      + destruct (tokenExpiresAt h) as [[t|]|]; try discriminate.
        exists t. split; [reflexivity|]. lia.
    - intros [(s & Hs & Hne) (t & Ht & Hlt)]. rewrite Hs, Ht. split.
      + cbn. destruct (String.eqb_spec s ""); [contradiction|reflexivity].
      + lia. }
  pose (rest := (h <- gets (fun h : OAuth2Handler => h) ;;
                 match h_client h with
                 | Some c => ret c
                 | None =>
                     if negb (Js.truthy_str (oauth2AccessToken (h_config h))) then
                       throw (ErrorObj
                                "OAuth 2.0 access token is required. Run scripts/oauth2-setup.js to authenticate."
                                None None)
                     else
                       let c := BearerClient (Js.nullish (oauth2AccessToken (h_config h)) "") in
                       modify (fun h => mkOAuth2Handler (h_config h) (Some c) (tokenExpiresAt h)) ;;
                       ret c
                 end)%M).
  assert (Hget : getClient w h tr =
                 match (if due then refreshAccessToken else ret tt) w h tr with
                 | (Returned _, h', tr') => rest w h' tr'
                 | (Threw e, h', tr') => (Threw e, h', tr')
                 end).
  { unfold getClient. unfold bind at 1. rewrite shouldRefreshToken_eq. reflexivity. }
  assert (Hrest : forall h0 tr0, snd (rest w h0 tr0) = tr0).
  { intros h0 tr0. unfold rest. run_m. destruct (h_client h0); [reflexivity|].
    destruct (Js.truthy_str (oauth2AccessToken (h_config h0))); reflexivity. }
  rewrite Hget. clear Hget. clearbody rest. split.
  - intros ->. unfold ret. apply Hrest.
  - intros Hdue. rewrite Hdue.
    assert (Hrt : Js.truthy_str (oauth2RefreshToken cfg) = true).
    { unfold due in Hdue. apply andb_true_iff in Hdue. apply Hdue. }
    rewrite (refreshAccessToken_eq w h tr Hrt).
    fold cfg clientId clientSecret refreshToken call.
    split.
    + intros ->. reflexivity.
    + intros ->. cbn [negb]. split; [|split].
      * destruct (fetch_token w tr clientId clientSecret refreshToken) as [response|e].
        2:{ exists []. split; reflexivity. }
        destruct (tk_ok response); cbn [negb].
        2:{ exists []. split; reflexivity. }
        destruct (tk_json response) as [tokens|e].
        2:{ exists []. split; reflexivity. }
        eexists [_]. rewrite Hrest. split.
        -- rewrite <- app_assoc. reflexivity.
        -- reflexivity.
      * intros response -> ->. reflexivity.
      * intros e ->. reflexivity.
Qed.

(** A token that expires in 199 s is refreshed; the token endpoint answers
    with a non-success response, and [getClient] fails after that one call.
    With an expiry 10 minutes away nothing is called. *)
Lemma refresh_policy_witness :
  let refused := Returned (mkTokenResponse false "invalid_grant"
                             (Threw (ErrorObj "Unexpected token" None None))) in
  let w := token_world 1000 200000 refused in
  let h := new_OAuth2Handler w refreshable_config in
  let w' := token_world 1000 601000 refused in
  let h' := new_OAuth2Handler w' refreshable_config in
  getClient w h []
  = (Threw (ErrorObj "Failed to refresh OAuth 2.0 token: Token refresh failed: invalid_grant"
              None None),
     h, [EvTokenRefresh "client-id" "client-secret" "refresh"]) /\
  snd (getClient w' h' []) = [].
Proof.
  intros refused w h w' h'.
  destruct (refresh_policy w h []) as (_ & _ & _ & Hdue).
  destruct (refresh_policy w' h' []) as (_ & _ & Hnot & _).
  split.
  - destruct (Hdue eq_refl) as [_ Hcreds].
    destruct (Hcreds eq_refl) as (_ & Hrefused & _).
    exact (Hrefused _ eq_refl eq_refl).
  - exact (Hnot eq_refl).
Defined.

(** ** Media: the codec *)

Lemma encode_length_bound b :
  4 * Base64.buflen b <= 3 * Js.strlen (Base64.encode b).
Proof.
  unfold Base64.buflen, Js.strlen.
  assert (H : forall n b, (List.length b <= n)%nat ->
              4 * Z.of_nat (List.length b) <= 3 * Z.of_nat (String.length (Base64.encode b))).
  { clear b. induction n as [|n IH]; intros b Hn.
    - destruct b; [cbn; lia | cbn in Hn; lia].
    - destruct b as [|x [|y [|z rest]]]; try (cbn; lia).
      cbn [Base64.encode Base64.sx String.length List.length].
      specialize (IH rest). cbn [List.length] in Hn.
      specialize (IH ltac:(lia)). lia. }
  apply (H (List.length b)). lia.
Qed.

(** A payload that round-trips decodes to at most three quarters of its
    length. *)
Lemma decoded_length_bound s :
  Base64.encode (Base64.decode s) = s ->
  4 * Base64.buflen (Base64.decode s) <= 3 * Js.strlen s.
Proof.
  intros H. pose proof (encode_length_bound (Base64.decode s)) as Hb.
  rewrite H in Hb. exact Hb.
Qed.

Lemma repeat_text_succ chunk n :
  Base64.repeat_text chunk (N.succ n) = chunk +:+ Base64.repeat_text chunk n.
Proof. unfold Base64.repeat_text. apply N.iter_succ. Qed.

Lemma repeat_bytes_succ chunk n :
  Base64.repeat_bytes chunk (N.succ n) = chunk ++ Base64.repeat_bytes chunk n.
Proof. unfold Base64.repeat_bytes. apply N.iter_succ. Qed.

Lemma strlen_append s1 s2 : Js.strlen (s1 +:+ s2) = Js.strlen s1 + Js.strlen s2.
Proof.
  unfold Js.strlen.
  assert (H : String.length (s1 +:+ s2) = (String.length s1 + String.length s2)%nat).
  { induction s1 as [|a s1 IH]; [reflexivity|].
    change (String.length (String a (s1 +:+ s2))
            = (S (String.length s1) + String.length s2)%nat).
    cbn [String.length]. rewrite IH. reflexivity. }
  rewrite H. lia.
Qed.

Lemma strlen_repeat_text chunk n :
  Js.strlen (Base64.repeat_text chunk n) = Js.strlen chunk * Z.of_N n.
Proof.
  induction n as [|n IH] using N.peano_ind.
  - change (Z.of_N 0) with 0. rewrite Z.mul_0_r. reflexivity.
  - rewrite repeat_text_succ, strlen_append, IH, N2Z.inj_succ. ring.
Qed.

Lemma buflen_repeat_bytes chunk n :
  Base64.buflen (Base64.repeat_bytes chunk n) = Base64.buflen chunk * Z.of_N n.
Proof.
  unfold Base64.buflen.
  induction n as [|n IH] using N.peano_ind.
  - change (Z.of_N 0) with 0. rewrite Z.mul_0_r. reflexivity.
  - rewrite repeat_bytes_succ, length_app, Nat2Z.inj_add, IH, N2Z.inj_succ. ring.
Qed.

Lemma sextets_zero_payload n :
  Base64.sextets (zero_payload n) = List.concat (N.iter n (cons [0; 0; 0; 0]%N) []).
Proof.
  unfold zero_payload.
  induction n as [|n IH] using N.peano_ind; [reflexivity|].
  rewrite repeat_text_succ, N.iter_succ.
  change (Base64.sextets ("AAAA" +:+ Base64.repeat_text "AAAA" n))
    with ([0; 0; 0; 0]%N ++ Base64.sextets (Base64.repeat_text "AAAA" n)).
  rewrite IH. reflexivity.
Qed.

Lemma decode_zero_payload n :
  Base64.decode (zero_payload n)
  = Base64.repeat_bytes [Byte.x00; Byte.x00; Byte.x00] n.
Proof.
  unfold Base64.decode. rewrite sextets_zero_payload.
  induction n as [|n IH] using N.peano_ind; [reflexivity|].
  rewrite N.iter_succ, repeat_bytes_succ, <- IH. reflexivity.
Qed.

Lemma encode_zero_bytes n :
  Base64.encode (Base64.repeat_bytes [Byte.x00; Byte.x00; Byte.x00] n) = zero_payload n.
Proof.
  unfold zero_payload.
  induction n as [|n IH] using N.peano_ind; [reflexivity|].
  rewrite repeat_bytes_succ, repeat_text_succ, <- IH. reflexivity.
Qed.

Lemma zero_payload_roundtrip n :
  Base64.encode (Base64.decode (zero_payload n)) = zero_payload n.
Proof. rewrite decode_zero_payload. apply encode_zero_bytes. Qed.

Lemma decode_bang_payload n : Base64.decode (bang_payload n) = [].
Proof.
  unfold Base64.decode, bang_payload.
  induction n as [|n IH] using N.peano_ind; [reflexivity|].
  rewrite repeat_text_succ.
  change (Base64.sextets ("!" +:+ Base64.repeat_text "!" n))
    with (Base64.sextets (Base64.repeat_text "!" n)).
  exact IH.
Qed.

Lemma bang_payload_no_roundtrip n :
  (0 < n)%N -> Base64.encode (Base64.decode (bang_payload n)) <> bang_payload n.
Proof.
  intros Hn Heq. rewrite decode_bang_payload in Heq.
  apply (f_equal Js.strlen) in Heq. unfold bang_payload in Heq.
  rewrite strlen_repeat_text in Heq.
  change (Js.strlen (Base64.encode [])) with 0 in Heq.
  change (Js.strlen "!") with 1 in Heq. lia.
Qed.

(** ** Media: the upload path *)

Lemma V2MediaUploader_frame {S : Type} token buffer mimeType w (s : S) tr :
  V2MediaUploader_uploadMedia token buffer mimeType w s tr =
  (fst (fst (V2MediaUploader_uploadMedia token buffer mimeType w s tr)), s,
   tr ++ [EvUploadV2 token buffer mimeType
            (if Js.startsWith "image/" mimeType then "tweet_image" else "tweet_video")]).
Proof.
  unfold V2MediaUploader_uploadMedia. run_m. cbn zeta.
  destruct (fetch_upload w tr token buffer mimeType _) as [response|e].
  - destruct (up_ok response); cbn [negb]; [|reflexivity].
    destruct (up_json response) as [result|e]; cbn.
    + destruct (uj_data result); reflexivity.
    + destruct (instanceof_Error e); reflexivity.
  - cbn. destruct (instanceof_Error e); reflexivity.
Qed.

(** [uploadMedia] as one decision tree: size check, quota check, then the
    scheme-appropriate uploader; every failure passes the upload's [catch]. *)
Lemma uploadMedia_eq buffer mimeType w c tr :
  uploadMedia buffer mimeType w c tr =
  if MAX_MEDIA_FILE_SIZE <? Base64.buflen buffer then
    uploadMedia_catch (Tagged (fileTooLargeError (Base64.buflen buffer))) w c tr
  else
    match checkRateLimit "media/upload" w c tr with
    | (Threw e, c1, tr1) => uploadMedia_catch e w c1 tr1
    | (Returned _, c1, tr1) =>
        match upload_answer w c1 tr1 buffer mimeType with
        | Returned mediaId => (Returned mediaId, c1, tr1 ++ [upload_event c1 buffer mimeType])
        | Threw e => uploadMedia_catch e w c1 (tr1 ++ [upload_event c1 buffer mimeType])
        end
    end.
Proof.
  unfold uploadMedia, uploadMedia_body, tryCatch.
  destruct (MAX_MEDIA_FILE_SIZE <? Base64.buflen buffer); [reflexivity|].
  unfold bind at 1.
  destruct (checkRateLimit "media/upload" w c tr) as [[[[]|e] c1] tr1]; [|reflexivity].
  unfold bind, gets, upload_answer, upload_event.
  destruct (authType (config c1)), (v2MediaUploader c1) as [token|].
  - unfold remote. destruct (v1_uploadMedia w tr1 buffer mimeType); reflexivity.
  - unfold remote. destruct (v1_uploadMedia w tr1 buffer mimeType); reflexivity.
  - rewrite V2MediaUploader_frame.
    destruct (fst (fst (V2MediaUploader_uploadMedia token buffer mimeType w c1 tr1)));
      reflexivity.
  - unfold remote. destruct (v1_uploadMedia w tr1 buffer mimeType); reflexivity.
Qed.

Lemma same_session_refl c : same_session c c.
Proof. repeat split. Qed.

Lemma same_session_trans c1 c2 c3 :
  same_session c1 c2 -> same_session c2 c3 -> same_session c1 c3.
Proof. unfold same_session. intuition congruence. Qed.

Lemma checkRateLimit_session endpoint w c tr :
  same_session c (snd (fst (checkRateLimit endpoint w c tr))).
Proof.
  destruct (checkRateLimit endpoint w c tr) as [[o c1] tr1] eqn:E.
  destruct (checkRateLimit_frame _ _ _ _ _ _ _ E) as (? & ? & ? & _).
  repeat split; assumption.
Qed.

Lemma upload_event_session c c' buffer mimeType :
  same_session c c' -> upload_event c' buffer mimeType = upload_event c buffer mimeType.
Proof. intros (_ & Hc & Hu). unfold upload_event. rewrite Hc, Hu. reflexivity. Qed.

Lemma segment_session c c' item : same_session c c' -> segment c' item = segment c item.
Proof. intros H. unfold segment. rewrite (upload_event_session _ _ _ _ H). reflexivity. Qed.

Lemma media_trace_session c c' items :
  same_session c c' -> media_trace c' items = media_trace c items.
Proof.
  intros H. unfold media_trace. induction items as [|item items IH]; [reflexivity|].
  cbn [flat_map]. rewrite IH, (segment_session _ _ _ H). reflexivity.
Qed.

Lemma upload_answer_session w c c' tr buffer mimeType :
  same_session c c' ->
  upload_answer w c' tr buffer mimeType = upload_answer w c tr buffer mimeType.
Proof.
  intros (_ & Hc & Hu). unfold upload_answer. rewrite Hc, Hu.
  destruct (authType (config c)), (v2MediaUploader c) as [token|]; try reflexivity.
  unfold V2MediaUploader_uploadMedia. run_m. cbn zeta.
  destruct (fetch_upload w tr token buffer mimeType _) as [response|e].
  - destruct (up_ok response); cbn [negb]; [|reflexivity].
    destruct (up_json response) as [result|e]; cbn.
    + destruct (uj_data result); reflexivity.
    + destruct (instanceof_Error e); reflexivity.
  - cbn. destruct (instanceof_Error e); reflexivity.
Qed.

(** The message of the file-too-large error does not trigger the scope/403
    rewrite for any file that came out of a payload within the encoded limit. *)
Lemma fileTooLarge_not_rewritten len :
  MAX_MEDIA_FILE_SIZE < len ->
  4 * len <= 3 * MAX_BASE64_SIZE ->
  forall w c tr,
    uploadMedia_catch (Tagged (fileTooLargeError len)) w c tr
    = (Threw (Tagged (fileTooLargeError len)), c, tr).
Proof.
  intros Hlo Hhi w c tr.
  unfold MAX_MEDIA_FILE_SIZE, MAX_BASE64_SIZE in *.
  assert (Hx : 5 <= Js.round_div len (1024 * 1024) <= 11).
  { unfold Js.round_div. split.
    - apply Z.div_le_lower_bound; lia.
    - apply Z.lt_succ_r. apply Z.div_lt_upper_bound; lia. }
  unfold uploadMedia_catch, fileTooLargeError.
  cbn [instanceof_Error thrown_message Js.nullish te_message andb].
  remember (Js.round_div len (1024 * 1024)) as x eqn:Ex. clear Ex.
  assert (Hcases : x = 5 \/ x = 6 \/ x = 7 \/ x = 8 \/ x = 9 \/ x = 10 \/ x = 11) by lia.
  destruct Hcases as [-> | [-> | [-> | [-> | [-> | [-> | ->]]]]]]; reflexivity.
Qed.

Lemma mediaItemStep_eq item mediaIds w c tr :
  mediaItemStep item mediaIds w c tr =
  if MAX_BASE64_SIZE <? Js.strlen (data item) then
    (Threw (Tagged base64TooLargeError), c, tr)
  else if negb (String.eqb (Base64.encode (Base64.decode (data item))) (data item)) then
    (Threw (Tagged invalidBase64Error), c, tr ++ [EvDecode (data item)])
  else
    match uploadMedia (Base64.decode (data item)) (media_type item) w c
            (tr ++ [EvDecode (data item)]) with
    | (Returned mediaId, c1, tr1) => (Returned (mediaIds ++ [mediaId]), c1, tr1)
    | (Threw e, c1, tr1) => (Threw e, c1, tr1)
    end.
Proof.
  unfold mediaItemStep.
  destruct (MAX_BASE64_SIZE <? Js.strlen (data item)); [reflexivity|].
  unfold bind at 1. unfold tryCatch at 1. unfold bind at 1. unfold emit at 1.
  cbn zeta.
  destruct (negb (String.eqb _ _)); [reflexivity|].
  unfold ret at 1. unfold bind, ret.
  destruct (uploadMedia _ _ w c _) as [[[mediaId|e] c1] tr1]; reflexivity.
Qed.

Lemma mediaLoop_app pre post mediaIds w c tr :
  mediaLoop (pre ++ post) mediaIds w c tr =
  match mediaLoop pre mediaIds w c tr with
  | (Returned mediaIds', c', tr') => mediaLoop post mediaIds' w c' tr'
  | (Threw e, c', tr') => (Threw e, c', tr')
  end.
Proof.
  revert mediaIds c tr. induction pre as [|item pre IH]; intros mediaIds c tr.
  - reflexivity.
  - cbn [app mediaLoop]. unfold bind.
    destruct (mediaItemStep item mediaIds w c tr) as [[[ids'|e] c'] tr']; [|reflexivity].
    apply IH.
Qed.

(** [postTweetWithMedia] on a non-empty media list as one decision tree. *)
Lemma postTweetWithMedia_eq text replyToTweetId item rest w c tr :
  postTweetWithMedia text replyToTweetId (Some (item :: rest)) w c tr =
  match checkRateLimit "tweets/create" w c tr with
  | (Threw e, c1, tr1) => handleApiError e w c1 tr1
  | (Returned _, c1, tr1) =>
      match mediaLoop (item :: rest) [] w c1 tr1 with
      | (Threw e, c2, tr2) => handleApiError e w c2 tr2
      | (Returned mediaIds, c2, tr2) =>
          let tweetOptions :=
            mkTweetOptions text
              (if Js.truthy_str replyToTweetId then replyToTweetId else None)
              (Some mediaIds) in
          match v2_tweet w tr2 tweetOptions with
          | Returned response =>
              (Returned (mkPostedTweet (resp_id response) (resp_text response)), c2,
               tr2 ++ [EvTweet tweetOptions])
          | Threw e => handleApiError e w c2 (tr2 ++ [EvTweet tweetOptions])
          end
      end
  end.
Proof.
  unfold postTweetWithMedia, postTweetWithMedia_body, tryCatch.
  unfold bind at 1.
  destruct (checkRateLimit "tweets/create" w c tr) as [[[[]|e] c1] tr1]; [|reflexivity].
  unfold bind at 1. unfold bind at 1.
  destruct (mediaLoop (item :: rest) [] w c1 tr1) as [[[mediaIds|e] c2] tr2]; [|reflexivity].
  unfold ret at 1. unfold bind, remote, ret. cbn zeta.
  destruct (v2_tweet w tr2 _); reflexivity.
Qed.

(** An item that the loop reaches and rejects with a tagged error ends the
    whole operation with that error. *)
Lemma postTweetWithMedia_item_rejected text replyToTweetId pre item post w c tr
    c1 tr1 mediaIds c2 tr2 te c3 tr3 :
  checkRateLimit "tweets/create" w c tr = (Returned tt, c1, tr1) ->
  mediaLoop pre [] w c1 tr1 = (Returned mediaIds, c2, tr2) ->
  mediaItemStep item mediaIds w c2 tr2 = (Threw (Tagged te), c3, tr3) ->
  postTweetWithMedia text replyToTweetId (Some (pre ++ item :: post)) w c tr
  = (Threw (Tagged te), c3, tr3).
Proof.
  intros Hcheck Hpre Hitem.
  assert (Hloop : mediaLoop (pre ++ item :: post) [] w c1 tr1 = (Threw (Tagged te), c3, tr3)).
  { rewrite mediaLoop_app, Hpre. cbn [mediaLoop]. unfold bind. rewrite Hitem. reflexivity. }
  destruct (pre ++ item :: post) as [|first others] eqn:E.
  { destruct pre; discriminate. }
  rewrite postTweetWithMedia_eq, Hcheck, Hloop. reflexivity.
Qed.

Lemma eqb_neq_false s1 s2 : s1 <> s2 -> String.eqb s1 s2 = false.
Proof. intros H. destruct (String.eqb_spec s1 s2); [contradiction|reflexivity]. Qed.

(** C4 (amended).  For every media item that [postTweetWithMedia] reaches
    (the create quota passed and the items before it were uploaded): if its
    encoded text is at most 15 MiB long and re-encoding its decoded bytes
    does not reproduce that text exactly, the operation fails with the
    invalid-encoding error (code [invalid_base64], status 400), whatever the
    size of the decoded bytes, and nothing is uploaded for the item; if its
    encoded text is longer than 15 MiB the operation fails with
    [base64_too_large] instead, whether or not the text would round-trip. *)
Theorem invalid_encoding_rejected text replyToTweetId pre item post w c tr
    c1 tr1 mediaIds c2 tr2 :
  checkRateLimit "tweets/create" w c tr = (Returned tt, c1, tr1) ->
  mediaLoop pre [] w c1 tr1 = (Returned mediaIds, c2, tr2) ->
  let run := postTweetWithMedia text replyToTweetId (Some (pre ++ item :: post)) w c tr in
  (Js.strlen (data item) <= MAX_BASE64_SIZE ->
   Base64.encode (Base64.decode (data item)) <> data item ->
   run = (Threw (Tagged invalidBase64Error), c2, tr2 ++ [EvDecode (data item)]) /\
   te_code invalidBase64Error = CodeStr "invalid_base64" /\
   te_status invalidBase64Error = Some 400 /\
   te_message invalidBase64Error
   = "Invalid base64 media data. Please ensure your media is properly base64 encoded.") /\
  (MAX_BASE64_SIZE < Js.strlen (data item) ->
   run = (Threw (Tagged base64TooLargeError), c2, tr2) /\
   te_code base64TooLargeError = CodeStr "base64_too_large").
Proof.
  intros Hcheck Hpre run. split.
  - intros Hlen Hbad. split; [|repeat split].
    apply (postTweetWithMedia_item_rejected _ _ _ _ _ _ _ _ _ _ _ _ _ _ _ _ Hcheck Hpre).
    rewrite mediaItemStep_eq.
    destruct (MAX_BASE64_SIZE <? Js.strlen (data item)) eqn:E; [lia|].
    rewrite (eqb_neq_false _ _ Hbad). reflexivity.
  - intros Hlen. split; [|reflexivity].
    apply (postTweetWithMedia_item_rejected _ _ _ _ _ _ _ _ _ _ _ _ _ _ _ _ Hcheck Hpre).
    rewrite mediaItemStep_eq.
    destruct (MAX_BASE64_SIZE <? Js.strlen (data item)) eqn:E; [reflexivity|lia].
Qed.

(** C5.  The media size checks fire in order and before any remote effect.
    For an item that [postTweetWithMedia] reaches: if its encoded text
    exceeds 15 MiB the operation fails with [base64_too_large] (status 400)
    and the trace is as it was when the item was reached: nothing was
    decoded; if the text is within the limit and round-trips while the
    decoded bytes exceed 5 MiB, the operation fails with [file_too_large]
    (status 400), whose message restates the 5MB limit, and the trace only
    gained the decoding: no upload quota check and no upload call happened.
    The two errors are distinct. *)
Theorem media_size_checks text replyToTweetId pre item post w c tr
    c1 tr1 mediaIds c2 tr2 :
  checkRateLimit "tweets/create" w c tr = (Returned tt, c1, tr1) ->
  mediaLoop pre [] w c1 tr1 = (Returned mediaIds, c2, tr2) ->
  let run := postTweetWithMedia text replyToTweetId (Some (pre ++ item :: post)) w c tr in
  let buffer := Base64.decode (data item) in
  let tooLarge := fileTooLargeError (Base64.buflen buffer) in
  (MAX_BASE64_SIZE < Js.strlen (data item) ->
   run = (Threw (Tagged base64TooLargeError), c2, tr2)) /\
  (Js.strlen (data item) <= MAX_BASE64_SIZE ->
   Base64.encode buffer = data item ->
   MAX_MEDIA_FILE_SIZE < Base64.buflen buffer ->
   run = (Threw (Tagged tooLarge), c2, tr2 ++ [EvDecode (data item)])) /\
  te_code base64TooLargeError = CodeStr "base64_too_large" /\
  te_status base64TooLargeError = Some 400 /\
  te_message base64TooLargeError
  = "Base64 media data too large. Maximum size is 15MB encoded." /\
  te_code tooLarge = CodeStr "file_too_large" /\
  te_status tooLarge = Some 400 /\
  te_message tooLarge
  = "Media file too large. Maximum size is 5MB. Your file is "
      +:+ Js.show (Js.round_div (Base64.buflen buffer) (1024 * 1024)) +:+ "MB." /\
  te_code base64TooLargeError <> te_code tooLarge.
Proof.
  intros Hcheck Hpre run buffer tooLarge. split; [|split].
  - intros Hlen.
    apply (postTweetWithMedia_item_rejected _ _ _ _ _ _ _ _ _ _ _ _ _ _ _ _ Hcheck Hpre).
    rewrite mediaItemStep_eq.
    destruct (MAX_BASE64_SIZE <? Js.strlen (data item)) eqn:E; [reflexivity|lia].
  - intros Hlen Hround Hbig.
    apply (postTweetWithMedia_item_rejected _ _ _ _ _ _ _ _ _ _ _ _ _ _ _ _ Hcheck Hpre).
    rewrite mediaItemStep_eq.
    destruct (MAX_BASE64_SIZE <? Js.strlen (data item)) eqn:E; [lia|].
    fold buffer. rewrite Hround, String.eqb_refl. cbn [negb].
    rewrite uploadMedia_eq.
    destruct (MAX_MEDIA_FILE_SIZE <? Base64.buflen buffer) eqn:E2; [|lia].
    rewrite fileTooLarge_not_rewritten; [reflexivity|exact Hbig|].
    pose proof (decoded_length_bound (data item) Hround) as Hb. fold buffer in Hb. lia.
  - repeat split. discriminate.
Qed.

(** The test suite's invalid payload: 22 characters, three of them outside
    the alphabet. *)
Lemma invalid_encoding_rejected_witness :
  let w := calm_world 1000 60000 in
  let item := mkMediaItem "invalid-base64-data!!!" "image/jpeg" in
  exists c1,
    checkRateLimit "tweets/create" w (fresh_client oauth1_config) []
    = (Returned tt, c1, [EvRateCheck "tweets/create"]) /\
    postTweetWithMedia "Tweet with invalid media" None (Some [item]) w
      (fresh_client oauth1_config) []
    = (Threw (Tagged invalidBase64Error), c1,
       [EvRateCheck "tweets/create"; EvDecode "invalid-base64-data!!!"]).
Proof.
  intros w item. eexists. split; [vm_compute; reflexivity|].
  match goal with
  | |- postTweetWithMedia ?t ?r _ _ ?c _ = (_, ?c1, _) =>
      destruct (invalid_encoding_rejected t r [] item [] w c [] c1
                  [EvRateCheck "tweets/create"] [] c1 [EvRateCheck "tweets/create"]
                  ltac:(vm_compute; reflexivity) eq_refl) as [Hbad _]
  end.
  exact (proj1 (Hbad ltac:(by_evaluation) ltac:(by_evaluation))).
Defined.

(** An item made of [n] exclamation marks, [n] above the encoded limit, is
    turned away for its size before it is ever decoded. *)
Lemma bang_item_too_large n text w c tr c1 tr1 :
  MAX_BASE64_SIZE < Z.of_N n ->
  checkRateLimit "tweets/create" w c tr = (Returned tt, c1, tr1) ->
  postTweetWithMedia text None (Some [mkMediaItem (bang_payload n) "image/jpeg"]) w c tr
  = (Threw (Tagged base64TooLargeError), c1, tr1).
Proof.
  intros Hn Hcheck.
  apply (postTweetWithMedia_item_rejected text None [] _ [] w c tr c1 tr1 [] c1 tr1
           base64TooLargeError c1 tr1 Hcheck eq_refl).
  rewrite mediaItemStep_eq. cbn [data]. unfold bang_payload.
  rewrite strlen_repeat_text. change (Js.strlen "!") with 1.
  destruct (MAX_BASE64_SIZE <? 1 * Z.of_N n) eqn:E; [reflexivity|lia].
Qed.

Lemma data_mk payload mimeType : data (mkMediaItem payload mimeType) = payload.
Proof. reflexivity. Qed.

(** C4, as stated, fails for an oversized item: a payload of 15 MiB + 1
    exclamation marks does not round-trip (it decodes to nothing), yet it is
    rejected with [base64_too_large], not with [invalid_base64]. *)
Lemma oversized_invalid_payload_counterexample :
  let w := calm_world 1000 60000 in
  let item := mkMediaItem (bang_payload 15728641) "image/jpeg" in
  Base64.encode (Base64.decode (data item)) <> data item /\
  Js.strlen (data item) = 15 * 1024 * 1024 + 1 /\
  (exists c1,
     postTweetWithMedia "hi" None (Some [item]) w (fresh_client oauth1_config) []
     = (Threw (Tagged base64TooLargeError), c1, [EvRateCheck "tweets/create"])) /\
  te_code base64TooLargeError <> te_code invalidBase64Error.
Proof.
  intros w.
  assert (Hcheck : exists c1,
             checkRateLimit "tweets/create" w (fresh_client oauth1_config) []
             = (Returned tt, c1, [EvRateCheck "tweets/create"])).
  { eexists. vm_compute. reflexivity. }
  destruct Hcheck as [c1 Hcheck].
  intros item. unfold item. rewrite !data_mk. split; [|split; [|split]].
  - apply bang_payload_no_roundtrip. reflexivity.
  - unfold bang_payload. rewrite strlen_repeat_text. reflexivity.
  - exists c1. apply (bang_item_too_large 15728641); [reflexivity|exact Hcheck].
  - discriminate.
Qed.

Lemma zero_item_facts n mimeType :
  let item := mkMediaItem (zero_payload n) mimeType in
  Js.strlen (data item) = 4 * Z.of_N n /\
  Base64.encode (Base64.decode (data item)) = data item /\
  Base64.buflen (Base64.decode (data item)) = 3 * Z.of_N n.
Proof.
  intros item. unfold item. rewrite !data_mk. split; [|split].
  - unfold zero_payload. rewrite strlen_repeat_text. reflexivity.
  - apply zero_payload_roundtrip.
  - rewrite decode_zero_payload, buflen_repeat_bytes. reflexivity.
Qed.

Lemma bang_item_length n mimeType :
  Js.strlen (data (mkMediaItem (bang_payload n) mimeType)) = Z.of_N n.
Proof.
  rewrite data_mk. unfold bang_payload. rewrite strlen_repeat_text.
  change (Js.strlen "!") with 1. lia.
Qed.

(** A payload of 1747627 groups AAAA is within the encoded limit and decodes
    to 5 MiB + 1 zero bytes: the post fails with [file_too_large] after the
    decoding alone.  A payload one character over the encoded limit fails
    with [base64_too_large] before it. *)
Lemma media_size_checks_witness :
  let w := calm_world 1000 60000 in
  let big_file := mkMediaItem (zero_payload 1747627) "image/png" in
  let big_text := mkMediaItem (bang_payload 15728641) "image/jpeg" in
  let size := Base64.buflen (Base64.decode (data big_file)) in
  exists c1,
    checkRateLimit "tweets/create" w (fresh_client oauth1_config) []
    = (Returned tt, c1, [EvRateCheck "tweets/create"]) /\
    size = 5 * 1024 * 1024 + 1 /\
    postTweetWithMedia "hi" None (Some [big_file]) w (fresh_client oauth1_config) []
    = (Threw (Tagged (fileTooLargeError size)), c1,
       [EvRateCheck "tweets/create"; EvDecode (data big_file)]) /\
    te_message (fileTooLargeError (5 * 1024 * 1024 + 1))
    = "Media file too large. Maximum size is 5MB. Your file is 5MB." /\
    postTweetWithMedia "hi" None (Some [big_text]) w (fresh_client oauth1_config) []
    = (Threw (Tagged base64TooLargeError), c1, [EvRateCheck "tweets/create"]).
Proof.
  intros w.
  assert (Hcheck : exists c1,
             checkRateLimit "tweets/create" w (fresh_client oauth1_config) []
             = (Returned tt, c1, [EvRateCheck "tweets/create"])).
  { eexists. vm_compute. reflexivity. }
  destruct Hcheck as [c1 Hcheck].
  intros big_file big_text size.
  destruct (zero_item_facts 1747627 "image/png") as (Hlen & Hround & Hbuf).
  pose proof (bang_item_length 15728641 "image/jpeg") as Hbang.
  fold big_file in Hlen, Hround, Hbuf. fold size in Hbuf. fold big_text in Hbang.
  destruct (media_size_checks "hi" None [] big_file [] w _ [] c1 _ [] c1 _ Hcheck eq_refl)
    as (_ & Hfile & _).
  destruct (media_size_checks "hi" None [] big_text [] w _ [] c1 _ [] c1 _ Hcheck eq_refl)
    as (Htext & _).
  exists c1. split; [exact Hcheck|]. split; [|split; [|split]].
  - rewrite Hbuf. reflexivity.
  - apply Hfile.
    + rewrite Hlen. by_evaluation.
    + exact Hround.
    + fold size. rewrite Hbuf. by_evaluation.
  - vm_compute. reflexivity.
  - apply Htext. rewrite Hbang. by_evaluation.
Defined.

(** ** Media: order of quota checks and uploads *)





(** One turn of the loop: on success the item's whole segment was added to
    the trace and the new identifier is the uploader's answer; on failure the
    trace gained a prefix of the segment. *)
Lemma mediaItemStep_cases item mediaIds w c tr :
  match mediaItemStep item mediaIds w c tr with
  | (Returned mediaIds', c', tr') =>
      same_session c c' /\
      tr' = tr ++ segment c item /\
      exists mediaId,
        mediaIds' = mediaIds ++ [mediaId] /\
        upload_answer w c (tr ++ [EvDecode (data item); EvRateCheck "media/upload"])
          (Base64.decode (data item)) (media_type item) = Returned mediaId
  | (Threw e, c', tr') =>
      same_session c c' /\
      exists tail suffix, tr' = tr ++ tail /\ tail ++ suffix = segment c item
  end.
Proof.
  rewrite mediaItemStep_eq.
  destruct (MAX_BASE64_SIZE <? Js.strlen (data item)).
  { split; [apply same_session_refl|]. exists [], (segment c item).
    rewrite app_nil_r. auto. }
  destruct (negb (String.eqb _ _)).
  { split; [apply same_session_refl|].
    exists [EvDecode (data item)], (tl (segment c item)). auto. }
  rewrite uploadMedia_eq.
  destruct (MAX_MEDIA_FILE_SIZE <? _).
  { destruct (uploadMedia_catch_tagged
                (Tagged (fileTooLargeError (Base64.buflen (Base64.decode (data item)))))
                w c (tr ++ [EvDecode (data item)])) as [te ->].
    split; [apply same_session_refl|].
    exists [EvDecode (data item)], (tl (segment c item)). auto. }
  pose proof (checkRateLimit_session "media/upload" w c (tr ++ [EvDecode (data item)])) as Hs.
  destruct (checkRateLimit "media/upload" w c (tr ++ [EvDecode (data item)]))
    as [[o c1] tr1] eqn:Hcheck.
  destruct (checkRateLimit_frame _ _ _ _ _ _ _ Hcheck) as (_ & _ & _ & ->).
  cbn [fst snd] in Hs.
  assert (Htr : (tr ++ [EvDecode (data item)]) ++ [EvRateCheck "media/upload"]
                = tr ++ [EvDecode (data item); EvRateCheck "media/upload"]).
  { rewrite <- app_assoc. reflexivity. }
  assert (Hseg : (tr ++ [EvDecode (data item); EvRateCheck "media/upload"])
                 ++ [upload_event c1 (Base64.decode (data item)) (media_type item)]
                 = tr ++ segment c item).
  { rewrite (upload_event_session _ _ _ _ Hs), <- app_assoc. reflexivity. }
  rewrite Htr.
  destruct o as [[]|e].
  - rewrite (upload_answer_session _ _ _ _ _ _ Hs).
    destruct (upload_answer w c _ _ _) as [mediaId|e] eqn:Hanswer.
    + split; [exact Hs|]. split; [exact Hseg|]. eauto.
    + destruct (uploadMedia_catch_tagged e w c1
                  ((tr ++ [EvDecode (data item); EvRateCheck "media/upload"])
                   ++ [upload_event c1 (Base64.decode (data item)) (media_type item)]))
        as [te ->].
      split; [exact Hs|]. exists (segment c item), []. rewrite app_nil_r. auto.
  - destruct (uploadMedia_catch_tagged e w c1
                (tr ++ [EvDecode (data item); EvRateCheck "media/upload"])) as [te ->].
    split; [exact Hs|].
    exists [EvDecode (data item); EvRateCheck "media/upload"],
           [upload_event c (Base64.decode (data item)) (media_type item)]. auto.
Qed.

Lemma mediaLoop_cases items : forall mediaIds w c tr,
  match mediaLoop items mediaIds w c tr with
  | (Returned mediaIds', c', tr') =>
      same_session c c' /\
      tr' = tr ++ media_trace c items /\
      exists new,
        mediaIds' = mediaIds ++ new /\
        List.length new = List.length items /\
        forall (i : nat) item mediaId,
          items !! i = Some item ->
          new !! i = Some mediaId ->
          upload_answer w c
            (tr ++ media_trace c (take i items)
                ++ [EvDecode (data item); EvRateCheck "media/upload"])
            (Base64.decode (data item)) (media_type item) = Returned mediaId
  | (Threw e, c', tr') =>
      same_session c c' /\
      exists (k : nat) item tail suffix,
        items !! k = Some item /\
        tr' = tr ++ media_trace c (take k items) ++ tail /\
        tail ++ suffix = segment c item
  end.
Proof.
  induction items as [|item items IH]; intros mediaIds w c tr.
  - cbn. split; [apply same_session_refl|]. split; [rewrite app_nil_r; reflexivity|].
    exists []. rewrite app_nil_r. repeat split. intros i item mediaId Hi. destruct i; discriminate.
  - cbn [mediaLoop]. unfold bind.
    pose proof (mediaItemStep_cases item mediaIds w c tr) as Hstep.
    destruct (mediaItemStep item mediaIds w c tr) as [[[ids1|e] c1] tr1].
    + destruct Hstep as (Hs1 & -> & mediaId & -> & Hanswer).
      specialize (IH (mediaIds ++ [mediaId]) w c1 (tr ++ segment c item)).
      destruct (mediaLoop items (mediaIds ++ [mediaId]) w c1 (tr ++ segment c item))
        as [[[ids2|e] c2] tr2].
      * destruct IH as (Hs2 & -> & new & -> & Hlen & Hnew).
        split; [exact (same_session_trans _ _ _ Hs1 Hs2)|].
        split.
        { rewrite (media_trace_session _ _ _ Hs1), <- app_assoc. reflexivity. }
        exists (mediaId :: new). split; [rewrite <- app_assoc; reflexivity|].
        split; [cbn; lia|].
        intros i it mid Hi Hm. destruct i as [|i].
        -- cbn in Hi, Hm. injection Hi as <-. injection Hm as <-. exact Hanswer.
        -- cbn in Hi, Hm. specialize (Hnew i it mid Hi Hm).
           rewrite (upload_answer_session _ _ _ _ _ _ Hs1) in Hnew.
           rewrite (media_trace_session _ _ _ Hs1) in Hnew.
           cbn [take media_trace flat_map]. rewrite <- !app_assoc in *. exact Hnew.
      * destruct IH as (Hs2 & k & it & tail & suffix & Hk & -> & Hsuf).
        split; [exact (same_session_trans _ _ _ Hs1 Hs2)|].
        exists (S k), it, tail, suffix. split; [exact Hk|]. split.
        -- rewrite (media_trace_session _ _ _ Hs1).
           cbn [take media_trace flat_map]. rewrite <- !app_assoc. reflexivity.
        -- rewrite <- (segment_session _ _ _ Hs1). exact Hsuf.
    + destruct Hstep as (Hs1 & tail & suffix & -> & Hsuf).
      split; [exact Hs1|].
      exists 0%nat, item, tail, suffix. repeat split; assumption.
Qed.



(** The upload quota is the same one-minute interval for every upload: two
    images posted while the clock stands still get as far as the second
    upload-quota check, which refuses the second upload for 60 seconds. *)
Example second_upload_within_a_minute_is_refused :
  let w := calm_world 1000 0 in
  let items := [mkMediaItem "aW1hZ2Ux" "image/jpeg"; mkMediaItem "aW1hZ2Uy" "image/png"] in
  fst (fst (postTweetWithMedia "Multiple images" None (Some items) w
              (fresh_client oauth1_config) []))
  = Threw (Tagged (rateLimitError 60 "media/upload")) /\
  snd (postTweetWithMedia "Multiple images" None (Some items) w
         (fresh_client oauth1_config) [])
  = [ EvRateCheck "tweets/create";
      EvDecode "aW1hZ2Ux"; EvRateCheck "media/upload";
      EvUploadV1 (Base64.decode "aW1hZ2Ux") "image/jpeg";
      EvDecode "aW1hZ2Uy"; EvRateCheck "media/upload" ].
Proof.
  split; vm_compute; reflexivity.
Qed.

(** ** Sessions of operations *)

(** The funnel and the upload's [catch] leave the client and the trace alone. *)
Lemma handleApiError_effect {A : Type} error w c tr :
  snd (fst (@handleApiError A error w c tr)) = c /\
  snd (@handleApiError A error w c tr) = tr.
Proof. destruct (handleApiError_tagged (A:=A) error w c tr) as [te ->]. auto. Qed.

Lemma uploadMedia_catch_effect error w c tr :
  snd (fst (uploadMedia_catch error w c tr)) = c /\
  snd (uploadMedia_catch error w c tr) = tr.
Proof. destruct (uploadMedia_catch_tagged error w c tr) as [te ->]. auto. Qed.

(** The four operations that make one quota check and one remote call. *)
Lemma postTweet_eq text replyToTweetId w c tr :
  postTweet text replyToTweetId w c tr =
  match checkRateLimit "tweets/create" w c tr with
  | (Threw e, c1, tr1) => handleApiError e w c1 tr1
  | (Returned _, c1, tr1) =>
      let tweetOptions :=
        mkTweetOptions text
          (if Js.truthy_str replyToTweetId then replyToTweetId else None) None in
      match v2_tweet w tr1 tweetOptions with
      | Returned response =>
          (Returned (mkPostedTweet (resp_id response) (resp_text response)), c1,
           tr1 ++ [EvTweet tweetOptions])
      | Threw e => handleApiError e w c1 (tr1 ++ [EvTweet tweetOptions])
      end
  end.
Proof.
  unfold postTweet, postTweet_body, tryCatch. unfold bind at 1.
  destruct (checkRateLimit "tweets/create" w c tr) as [[[[]|e] c1] tr1]; [|reflexivity].
  unfold bind, remote, ret. cbn zeta.
  destruct (v2_tweet w tr1 _); reflexivity.
Qed.

Lemma searchTweets_eq query n w c tr :
  searchTweets query n w c tr =
  match checkRateLimit "tweets/search" w c tr with
  | (Threw e, c1, tr1) => handleApiError e w c1 tr1
  | (Returned _, c1, tr1) =>
      match v2_search w tr1 query n with
      | Returned response =>
          match searchTweets_body query n w c tr with
          | (o, _, _) => (o, c1, tr1 ++ [EvSearch query n])
          end
      | Threw e => handleApiError e w c1 (tr1 ++ [EvSearch query n])
      end
  end.
Proof.
  unfold searchTweets, searchTweets_body, tryCatch. unfold bind at 1 3.
  destruct (checkRateLimit "tweets/search" w c tr) as [[[[]|e] c1] tr1]; [|reflexivity].
  unfold bind, remote, ret. cbn zeta.
  destruct (v2_search w tr1 _ _); reflexivity.
Qed.

Lemma getTweet_eq tweetId w c tr :
  getTweet tweetId w c tr =
  match checkRateLimit "tweets/lookup" w c tr with
  | (Threw e, c1, tr1) => handleApiError e w c1 tr1
  | (Returned _, c1, tr1) =>
      match v2_singleTweet w tr1 tweetId with
      | Returned response =>
          match getTweet_body tweetId w c tr with
          | (o, _, _) => (o, c1, tr1 ++ [EvSingleTweet tweetId])
          end
      | Threw e => handleApiError e w c1 (tr1 ++ [EvSingleTweet tweetId])
      end
  end.
Proof.
  unfold getTweet, getTweet_body, tryCatch. unfold bind at 1 3.
  destruct (checkRateLimit "tweets/lookup" w c tr) as [[[[]|e] c1] tr1]; [|reflexivity].
  unfold bind, remote, ret. cbn zeta.
  destruct (v2_singleTweet w tr1 _); reflexivity.
Qed.

Lemma deleteTweet_eq tweetId w c tr :
  deleteTweet tweetId w c tr =
  match checkRateLimit "tweets/delete" w c tr with
  | (Threw e, c1, tr1) => handleApiError e w c1 tr1
  | (Returned _, c1, tr1) =>
      match v2_deleteTweet w tr1 tweetId with
      | Returned deleted => (Returned deleted, c1, tr1 ++ [EvDeleteV2 tweetId])
      | Threw v2Error =>
          match deleteTweet_fallback tweetId v2Error w c1 (tr1 ++ [EvDeleteV2 tweetId]) with
          | (Returned deleted, c2, tr2) => (Returned deleted, c2, tr2)
          | (Threw e, c2, tr2) => handleApiError e w c2 tr2
          end
      end
  end.
Proof.
  unfold deleteTweet, deleteTweet_body. unfold tryCatch at 1. unfold bind at 1.
  destruct (checkRateLimit "tweets/delete" w c tr) as [[[[]|e] c1] tr1]; [|reflexivity].
  unfold tryCatch, remote.
  destruct (v2_deleteTweet w tr1 tweetId); [reflexivity|].
  destruct (deleteTweet_fallback _ _ _ _ _) as [[[d|e'] c2] tr2]; reflexivity.
Qed.

Lemma deleteTweet_fallback_state tweetId v2Error w c tr :
  snd (fst (deleteTweet_fallback tweetId v2Error w c tr)) = c.
Proof.
  rewrite deleteTweet_fallback_eq.
  destruct (code_is_500 _); [|reflexivity].
  destruct (authType (config c)); [|reflexivity].
  destruct (v1_destroy w tr tweetId); reflexivity.
Qed.

(** A property of the client that every quota check on the keys [K] keeps
    is kept by every operation that checks only keys of [K]. *)
Section Preservation.

Variable K : list string.
Variable I : TwitterClient -> Prop.
Hypothesis I_check :
  forall e w c tr, In e K -> I c -> I (snd (fst (checkRateLimit e w c tr))).

Lemma uploadMedia_keeps buffer mimeType w c tr :
  In "media/upload" K -> I c -> I (snd (fst (uploadMedia buffer mimeType w c tr))).
Proof.
  intros HK Hc. rewrite uploadMedia_eq.
  destruct (MAX_MEDIA_FILE_SIZE <? _).
  { rewrite (proj1 (uploadMedia_catch_effect _ _ _ _)). exact Hc. }
  pose proof (I_check "media/upload" w c tr HK Hc) as H1.
  destruct (checkRateLimit "media/upload" w c tr) as [[[[]|e] c1] tr1]; cbn [fst snd] in H1.
  - destruct (upload_answer w c1 tr1 buffer mimeType); [exact H1|].
    rewrite (proj1 (uploadMedia_catch_effect _ _ _ _)). exact H1.
  - rewrite (proj1 (uploadMedia_catch_effect _ _ _ _)). exact H1.
Qed.

Lemma mediaItemStep_keeps item mediaIds w c tr :
  In "media/upload" K -> I c -> I (snd (fst (mediaItemStep item mediaIds w c tr))).
Proof.
  intros HK Hc. rewrite mediaItemStep_eq.
  destruct (MAX_BASE64_SIZE <? _); [exact Hc|].
  destruct (negb _); [exact Hc|].
  pose proof (uploadMedia_keeps (Base64.decode (data item)) (media_type item) w c
                (tr ++ [EvDecode (data item)]) HK Hc) as H1.
  destruct (uploadMedia _ _ _ _ _) as [[[mediaId|e] c1] tr1]; exact H1.
Qed.

Lemma mediaLoop_keeps items : forall mediaIds w c tr,
  In "media/upload" K -> I c -> I (snd (fst (mediaLoop items mediaIds w c tr))).
Proof.
  induction items as [|item rest IH]; intros mediaIds w c tr HK Hc.
  - exact Hc.
  - cbn [mediaLoop]. unfold bind.
    pose proof (mediaItemStep_keeps item mediaIds w c tr HK Hc) as H1.
    destruct (mediaItemStep item mediaIds w c tr) as [[[ids'|e] c1] tr1]; cbn [fst snd] in H1.
    + apply IH; assumption.
    + exact H1.
Qed.

Lemma postTweetWithMedia_keeps text replyToTweetId mediaItems w c tr :
  In "tweets/create" K -> In "media/upload" K -> I c ->
  I (snd (fst (postTweetWithMedia text replyToTweetId mediaItems w c tr))).
Proof.
  intros HK1 HK2 Hc.
  pose proof (I_check "tweets/create" w c tr HK1 Hc) as H1.
  destruct mediaItems as [[|item rest]|].
  1,3: (unfold postTweetWithMedia, postTweetWithMedia_body, tryCatch; unfold bind at 1;
        destruct (checkRateLimit "tweets/create" w c tr) as [[[[]|e] c1] tr1];
        cbn [fst snd] in H1;
        [ unfold bind, remote, ret; cbn zeta;
          destruct (v2_tweet w tr1 _); [exact H1|];
          rewrite (proj1 (handleApiError_effect _ _ _ _)); exact H1
        | rewrite (proj1 (handleApiError_effect _ _ _ _)); exact H1 ]).
  rewrite postTweetWithMedia_eq.
  destruct (checkRateLimit "tweets/create" w c tr) as [[[[]|e] c1] tr1]; cbn [fst snd] in H1.
  2:{ rewrite (proj1 (handleApiError_effect _ _ _ _)). exact H1. }
  pose proof (mediaLoop_keeps (item :: rest) [] w c1 tr1 HK2 H1) as H2.
  destruct (mediaLoop (item :: rest) [] w c1 tr1) as [[[mediaIds|e] c2] tr2];
    cbn [fst snd] in H2.
  2:{ rewrite (proj1 (handleApiError_effect _ _ _ _)). exact H2. }
  cbn zeta. destruct (v2_tweet w tr2 _); [exact H2|].
  rewrite (proj1 (handleApiError_effect _ _ _ _)). exact H2.
Qed.

Lemma run_op_keeps op w c tr :
  (forall k, In k (quota_keys op) -> In k K) ->
  I c -> I (snd (fst (run_op op w c tr))).
Proof.
  intros HK Hc. destruct op as [t r|b m|t r ms|q n|i|i]; cbn [run_op effect fst snd].
  - pose proof (I_check "tweets/create" w c tr (HK _ (or_introl eq_refl)) Hc) as H1.
    rewrite postTweet_eq.
    destruct (checkRateLimit "tweets/create" w c tr) as [[[[]|e] c1] tr1]; cbn [fst snd] in H1.
    + cbn zeta. destruct (v2_tweet w tr1 _); [exact H1|].
      rewrite (proj1 (handleApiError_effect _ _ _ _)). exact H1.
    + rewrite (proj1 (handleApiError_effect _ _ _ _)). exact H1.
  - apply uploadMedia_keeps; [|exact Hc]. apply HK. left. reflexivity.
  - apply postTweetWithMedia_keeps; [| |exact Hc]; apply HK; cbn; auto.
  - pose proof (I_check "tweets/search" w c tr (HK _ (or_introl eq_refl)) Hc) as H1.
    rewrite searchTweets_eq.
    destruct (checkRateLimit "tweets/search" w c tr) as [[[[]|e] c1] tr1]; cbn [fst snd] in H1.
    + destruct (v2_search w tr1 _ _).
      * destruct (searchTweets_body q n w c tr) as [[o ?] ?]. exact H1.
      * rewrite (proj1 (handleApiError_effect _ _ _ _)). exact H1.
    + rewrite (proj1 (handleApiError_effect _ _ _ _)). exact H1.
  - pose proof (I_check "tweets/lookup" w c tr (HK _ (or_introl eq_refl)) Hc) as H1.
    rewrite getTweet_eq.
    destruct (checkRateLimit "tweets/lookup" w c tr) as [[[[]|e] c1] tr1]; cbn [fst snd] in H1.
    + destruct (v2_singleTweet w tr1 _).
      * destruct (getTweet_body i w c tr) as [[o ?] ?]. exact H1.
      * rewrite (proj1 (handleApiError_effect _ _ _ _)). exact H1.
    + rewrite (proj1 (handleApiError_effect _ _ _ _)). exact H1.
  - pose proof (I_check "tweets/delete" w c tr (HK _ (or_introl eq_refl)) Hc) as H1.
    rewrite deleteTweet_eq.
    destruct (checkRateLimit "tweets/delete" w c tr) as [[[[]|e] c1] tr1]; cbn [fst snd] in H1.
    + destruct (v2_deleteTweet w tr1 _); [exact H1|].
      pose proof (deleteTweet_fallback_state i e w c1 (tr1 ++ [EvDeleteV2 i])) as H2.
      destruct (deleteTweet_fallback _ _ _ _ _) as [[[d|e'] c2] tr2]; cbn [fst snd] in H2;
        subst c2; [exact H1|].
      rewrite (proj1 (handleApiError_effect _ _ _ _)). exact H1.
    + rewrite (proj1 (handleApiError_effect _ _ _ _)). exact H1.
Qed.

End Preservation.

(** *** What a quota check does to the state *)

Lemma checkRateLimit_refused endpoint w c tr e c1 tr1 :
  checkRateLimit endpoint w c tr = (Threw e, c1, tr1) ->
  c1 = c /\ tr1 = tr ++ [EvRateCheck endpoint] /\ exists te, e = Tagged te.
Proof.
  rewrite checkRateLimit_eq. cbn zeta.
  repeat case_match; intros [= <- <- <-]; eauto.
Qed.

Lemma checkRateLimit_other_key endpoint k w c tr :
  k <> endpoint -> same_quota k c (snd (fst (checkRateLimit endpoint w c tr))).
Proof.
  intros Hk. rewrite checkRateLimit_eq. cbn zeta. unfold same_quota.
  repeat case_match; cbn;
    rewrite ?lookup_insert_ne, ?lookup_delete_ne by congruence; auto.
Qed.

Lemma daily_limit_key endpoint d :
  prop_get DAILY_LIMITS endpoint = Some d -> prop_get DAILY_LIMITS endpoint = Some 17.
Proof. intros H. rewrite H. f_equal. exact (daily_limits_configured _ _ H). Qed.

Lemma checkRateLimit_counters_sound endpoint w c tr :
  counters_sound c -> counters_sound (snd (fst (checkRateLimit endpoint w c tr))).
Proof.
  intros Hc. rewrite checkRateLimit_eq. cbn zeta.
  destruct (Js.truthy_num _ && _); [exact Hc|].
  destruct (prop_get DAILY_LIMITS endpoint) as [d|] eqn:Hd; [|exact Hc].
  pose proof (daily_limit_key _ _ Hd) as H17.
  destruct (d =? 0); [exact Hc|].
  assert (Hins : forall t (m : gmap string DailyTracker), (forall k t', m !! k = Some t' ->
                    prop_get DAILY_LIMITS k = Some 17 /\ 1 <= count t' <= 17) ->
                  1 <= count t <= 17 ->
                  forall k t', <[endpoint := t]> m !! k = Some t' ->
                    prop_get DAILY_LIMITS k = Some 17 /\ 1 <= count t' <= 17).
  { intros t m Hm Ht k t'. destruct (decide (k = endpoint)) as [->|Hne].
    - rewrite lookup_insert_eq. intros [= <-]. auto.
    - rewrite lookup_insert_ne by congruence. apply Hm. }
  unfold counters_sound.
  destruct (dailyLimits c !! endpoint) as [t|] eqn:Et.
  - destruct (resetAt t <? _).
    + cbn [dailyLimits set_rateLimitMap set_dailyLimits]. apply Hins; [|cbn; lia].
      intros k t'. cbn [dailyLimits set_dailyLimits].
      destruct (decide (k = endpoint)) as [->|Hne].
      * rewrite lookup_delete_eq. discriminate.
      * rewrite lookup_delete_ne by congruence. apply Hc.
    + destruct (d <=? count t) eqn:Ec; [exact Hc|].
      cbn [dailyLimits set_rateLimitMap set_dailyLimits]. apply Hins; [exact Hc|]. cbn.
      destruct (Hc _ _ Et) as [_ Hr].
      pose proof (daily_limits_configured _ _ Hd). lia.
  - cbn [dailyLimits set_rateLimitMap set_dailyLimits]. apply Hins; [exact Hc|cbn; lia].
Qed.

Lemma session_keeps (I : TwitterClient -> Prop) :
  (forall e w c tr, I c -> I (snd (fst (checkRateLimit e w c tr)))) ->
  forall ops w c tr, I c -> I (fst (session ops w c tr)).
Proof.
  intros Hcheck. induction ops as [|op rest IH]; intros w c tr Hc; [exact Hc|].
  cbn [session].
  pose proof (run_op_keeps (quota_keys op) I (fun e w c tr _ => Hcheck e w c tr) op w c tr
                (fun k H => H) Hc) as H1.
  destruct (run_op op w c tr) as [[o c1] tr1]. apply IH. exact H1.
Qed.

(** X6.  The daily counters stay sound.  A client made by the constructor
    has no counter; every operation, whatever it answers, and hence every
    sequence of operations, keeps the property that only the keys with a
    daily ceiling have a counter and that each counter is between 1 and 17. *)
Theorem daily_counters_stay_sound :
  (forall cfg c, new_TwitterClient cfg = Returned c -> counters_sound c) /\
  (forall op w c tr, counters_sound c -> counters_sound (snd (fst (run_op op w c tr)))) /\
  (forall ops w c tr, counters_sound c -> counters_sound (fst (session ops w c tr))).
Proof.
  split; [|split].
  - intros cfg c. unfold new_TwitterClient.
    destruct (createTwitterClient cfg); [|discriminate].
    intros [= <-] k t. cbn. rewrite lookup_empty. discriminate.
  - intros op w c tr. apply (run_op_keeps (quota_keys op)); [|auto].
    intros e w' c' tr' _. apply checkRateLimit_counters_sound.
  - apply session_keeps. intros e w c tr. apply checkRateLimit_counters_sound.
Qed.

(** X5.  Quotas are kept per key.  An operation changes neither the last
    request time nor the daily counter of any key it does not check: a search
    or a lookup never uses up the quota for posting, deleting or uploading, and
    the other way round. *)
Theorem quota_isolation op w c tr k :
  ~ In k (quota_keys op) ->
  same_quota k c (snd (fst (run_op op w c tr))).
Proof.
  intros Hk.
  apply (run_op_keeps (quota_keys op) (same_quota k c)); [|auto|split; reflexivity].
  intros e w' c' tr' He [H1 H2].
  destruct (checkRateLimit_other_key e k w' c' tr') as [H3 H4]; [congruence|].
  split; congruence.
Qed.

(** A search leaves the create key alone, and a post with one image leaves
    the search key alone. *)
Lemma quota_isolation_witness :
  let w := calm_world 1000 60000 in
  let c := fresh_client oauth1_config in
  same_quota "tweets/create" c (snd (fst (run_op (OpSearchTweets "q" 10) w c []))) /\
  same_quota "tweets/search" c
    (snd (fst (run_op (OpPostTweetWithMedia "hi" None
                         (Some [mkMediaItem "aGk=" "image/png"])) w c []))).
Proof.
  intros w c. split; apply quota_isolation; vm_compute; intuition discriminate.
Defined.

(** X3.  A refused request never reaches the platform.  When the quota
    check an operation starts with throws, the operation throws as well, the
    client is exactly as before, and the trace has grown by that one check: no
    remote call was made.  The caller catches the check's own error, except
    that [uploadMedia] first passes it through its own [catch]. *)
Theorem refused_request_never_reaches_platform op w c tr e c1 tr1 :
  reaches_quota_check op = true ->
  checkRateLimit (quota_key op) w c tr = (Threw e, c1, tr1) ->
  exists e',
    run_op op w c tr = (Some e', c, tr ++ [EvRateCheck (quota_key op)]) /\
    (is_upload op = false -> e' = e).
Proof.
  intros Hreach Hcheck.
  destruct (checkRateLimit_refused _ _ _ _ _ _ _ Hcheck) as (-> & -> & te & ->).
  destruct op as [t r|b m|t r ms|q n|i|i]; cbn [run_op quota_key] in *.
  - exists (Tagged te). rewrite postTweet_eq, Hcheck. split; reflexivity.
  - cbn [reaches_quota_check] in Hreach.
    rewrite uploadMedia_eq.
    destruct (MAX_MEDIA_FILE_SIZE <? Base64.buflen b) eqn:E; [lia|].
    rewrite Hcheck.
    destruct (uploadMedia_catch_tagged (Tagged te) w c (tr ++ [EvRateCheck "media/upload"]))
      as [te' ->].
    exists (Tagged te'). split; [reflexivity|discriminate].
  - exists (Tagged te). split; [|reflexivity].
    destruct ms as [[|item rest]|].
    2:{ rewrite postTweetWithMedia_eq, Hcheck. reflexivity. }
    all: unfold postTweetWithMedia, postTweetWithMedia_body, tryCatch; unfold bind at 1;
      rewrite Hcheck; reflexivity.
  - exists (Tagged te). rewrite searchTweets_eq, Hcheck. split; reflexivity.
  - exists (Tagged te). rewrite getTweet_eq, Hcheck. split; reflexivity.
  - exists (Tagged te). rewrite deleteTweet_eq, Hcheck. split; reflexivity.
Qed.

(** A search 1 s after the previous one is told to wait 899 s and calls
    nothing. *)
Lemma refused_request_never_reaches_platform_witness :
  let w := calm_world 2000 0 in
  let c := set_rateLimitMap (<["tweets/search" := 1000]>) (fresh_client oauth1_config) in
  exists e',
    run_op (OpSearchTweets "q" 10) w c [] = (Some e', c, [] ++ [EvRateCheck "tweets/search"]) /\
    (is_upload (OpSearchTweets "q" 10) = false ->
     e' = Tagged (rateLimitError 899 "tweets/search")).
Proof.
  intros w c.
  refine (refused_request_never_reaches_platform (OpSearchTweets "q" 10) w c []
            (Tagged (rateLimitError 899 "tweets/search")) c _ _ _).
  - reflexivity.
  - vm_compute. reflexivity.
Defined.

(** X4.  A quota slot is spent whatever the outcome.  Once the quota check
    an operation starts with has passed, the key's last request time is the
    one that check recorded and the key's daily counter is the one that check
    left, whether the operation then succeeds or fails (the platform refuses,
    a media item is rejected, an upload fails): nothing is given back. *)
Theorem quota_spent_whatever_the_outcome op w c tr c1 tr1 :
  reaches_quota_check op = true ->
  checkRateLimit (quota_key op) w c tr = (Returned tt, c1, tr1) ->
  let c' := snd (fst (run_op op w c tr)) in
  rateLimitMap c' !! quota_key op = Some (rd_record (reads_at w tr (quota_key op))) /\
  dailyLimits c' !! quota_key op = dailyLimits c1 !! quota_key op.
Proof.
  intros Hreach Hcheck c'.
  assert (Hrec : rateLimitMap c1 !! quota_key op
                 = Some (rd_record (reads_at w tr (quota_key op)))).
  { rewrite (checkRateLimit_records _ _ _ _ _ _ Hcheck). apply lookup_insert_eq. }
  enough (Hsame : same_quota (quota_key op) c1 c').
  { destruct Hsame as [H1 H2]. rewrite H1, H2. auto. }
  subst c'.
  destruct op as [t r|b m|t r ms|q n|i|i]; cbn [run_op quota_key effect fst snd] in *.
  - rewrite postTweet_eq, Hcheck. cbn zeta.
    destruct (v2_tweet w tr1 _); [split; reflexivity|].
    rewrite (proj1 (handleApiError_effect _ _ _ _)). split; reflexivity.
  - cbn [reaches_quota_check] in Hreach. rewrite uploadMedia_eq.
    destruct (MAX_MEDIA_FILE_SIZE <? Base64.buflen b) eqn:E; [lia|].
    rewrite Hcheck.
    destruct (upload_answer w c1 tr1 b m); [split; reflexivity|].
    rewrite (proj1 (uploadMedia_catch_effect _ _ _ _)). split; reflexivity.
  - destruct ms as [[|item rest]|].
    2:{ rewrite postTweetWithMedia_eq, Hcheck.
        assert (Hloop : same_quota "tweets/create" c1
                          (snd (fst (mediaLoop (item :: rest) [] w c1 tr1)))).
        { apply (mediaLoop_keeps ["media/upload"] (same_quota "tweets/create" c1));
            [|left; reflexivity|split; reflexivity].
          intros e w' c0 tr' [<-|[]] [H1 H2].
          destruct (checkRateLimit_other_key "media/upload" "tweets/create" w' c0 tr')
            as [H3 H4]; [discriminate|].
          split; congruence. }
        destruct (mediaLoop (item :: rest) [] w c1 tr1) as [[[mediaIds|e] c2] tr2];
          cbn [fst snd] in Hloop.
        - cbn zeta. destruct (v2_tweet w tr2 _); [exact Hloop|].
          rewrite (proj1 (handleApiError_effect _ _ _ _)). exact Hloop.
        - rewrite (proj1 (handleApiError_effect _ _ _ _)). exact Hloop. }
    all: unfold postTweetWithMedia, postTweetWithMedia_body, tryCatch; unfold bind at 1;
      rewrite Hcheck; unfold bind, remote, ret; cbn zeta;
      (destruct (v2_tweet w tr1 _); [split; reflexivity|]);
      rewrite (proj1 (handleApiError_effect _ _ _ _)); split; reflexivity.
  - rewrite searchTweets_eq, Hcheck.
    destruct (v2_search w tr1 _ _).
    + destruct (searchTweets_body q n w c tr) as [[o ?] ?]. split; reflexivity.
    + rewrite (proj1 (handleApiError_effect _ _ _ _)). split; reflexivity.
  - rewrite getTweet_eq, Hcheck.
    destruct (v2_singleTweet w tr1 _).
    + destruct (getTweet_body i w c tr) as [[o ?] ?]. split; reflexivity.
    + rewrite (proj1 (handleApiError_effect _ _ _ _)). split; reflexivity.
  - rewrite deleteTweet_eq, Hcheck.
    destruct (v2_deleteTweet w tr1 _); [split; reflexivity|].
    pose proof (deleteTweet_fallback_state i e w c1 (tr1 ++ [EvDeleteV2 i])) as H2.
    destruct (deleteTweet_fallback _ _ _ _ _) as [[[d|e'] c2] tr2]; cbn [fst snd] in H2;
      subst c2; [split; reflexivity|].
    rewrite (proj1 (handleApiError_effect _ _ _ _)). split; reflexivity.
Qed.

(** A deletion that the platform refuses with status 503 has still used
    the first of the day's 17 deletions and started the one-minute interval. *)
Lemma quota_spent_whatever_the_outcome_witness :
  let w := broken_delete_world 503 in
  let c := fresh_client oauth1_config in
  let op := OpDeleteTweet "1" in
  let c' := snd (fst (run_op op w c [])) in
  exists c1,
    checkRateLimit "tweets/delete" w c [] = (Returned tt, c1, [EvRateCheck "tweets/delete"]) /\
    fst (fst (run_op op w c []))
    = Some (Tagged (mkTwitterError "Request failed" (CodeNum 503) None)) /\
    rateLimitMap c' !! "tweets/delete" = Some 61000 /\
    dailyLimits c' !! "tweets/delete" = dailyLimits c1 !! "tweets/delete" /\
    dailyLimits c1 !! "tweets/delete" = Some (mkDailyTracker 1 (61000 + DAY_MS)).
Proof.
  intros w c op c'.
  assert (Hcheck : exists c1,
             checkRateLimit "tweets/delete" w c [] = (Returned tt, c1, [EvRateCheck "tweets/delete"]))
    by (eexists; vm_compute; reflexivity).
  destruct Hcheck as [c1 Hcheck]. exists c1.
  destruct (quota_spent_whatever_the_outcome op w c [] c1 _ eq_refl Hcheck) as [H1 H2].
  split; [exact Hcheck|]. split; [vm_compute; reflexivity|].
  split; [exact H1|]. split; [exact H2|].
  vm_compute in Hcheck. injection Hcheck as <-. reflexivity.
Defined.

(** X9.  A post with no media list, or with an empty one, is a plain post:
    [postTweetWithMedia] then behaves exactly as [postTweet], and the request
    carries no media field. *)
Theorem no_media_is_a_plain_post text replyToTweetId w c tr :
  postTweetWithMedia text replyToTweetId None w c tr = postTweet text replyToTweetId w c tr /\
  postTweetWithMedia text replyToTweetId (Some []) w c tr = postTweet text replyToTweetId w c tr.
Proof. split; reflexivity. Qed.

(** *** What an operation may emit *)

Lemma Forall_two {A : Type} (P : A -> Prop) x y : P x -> P y -> Forall P [x; y].
Proof. auto. Qed.

Lemma mediaLoop_footprint items mediaIds w c tr :
  exists tail,
    snd (mediaLoop items mediaIds w c tr) = tr ++ tail /\
    Forall (fun e => exists item, In item items /\ In e (segment c item)) tail.
Proof.
  pose proof (mediaLoop_cases items mediaIds w c tr) as H.
  destruct (mediaLoop items mediaIds w c tr) as [[[ids|e] c'] tr'].
  - destruct H as (_ & -> & _). exists (media_trace c items). split; [reflexivity|].
    apply List.Forall_forall. intros e He. apply in_flat_map in He. exact He.
  - destruct H as (_ & k & item & tail & suffix & Hk & -> & Hsuf).
    exists (media_trace c (take k items) ++ tail). split; [reflexivity|].
    apply Forall_app. split; apply List.Forall_forall; intros e' He.
    + apply in_flat_map in He as (it & Hit & He). exists it. split; [|exact He].
      apply list_elem_of_In. apply list_elem_of_In in Hit.
      apply elem_of_take in Hit as (j & Hj & _).
      eapply list_elem_of_lookup_2. exact Hj.
    + exists item. split.
      * apply list_elem_of_In. eapply list_elem_of_lookup_2. exact Hk.
      * rewrite <- Hsuf. apply in_or_app. left. exact He.
Qed.

Lemma run_op_footprint op w c tr :
  exists tail,
    snd (run_op op w c tr) = tr ++ tail /\ Forall (may_emit op c) tail.
Proof.
  destruct op as [t r|b m|t r ms|q n|i|i]; cbn [run_op effect snd].
  - rewrite postTweet_eq.
    destruct (checkRateLimit "tweets/create" w c tr) as [[o c1] tr1] eqn:Hcheck.
    destruct (checkRateLimit_frame _ _ _ _ _ _ _ Hcheck) as (_ & _ & _ & ->).
    destruct o as [[]|e].
    + cbn zeta. exists [EvRateCheck "tweets/create"; EvTweet (mkTweetOptions t (reply_of r) None)].
      split.
      * destruct (v2_tweet w _ _);
          [|rewrite (proj2 (handleApiError_effect _ _ _ _))];
          cbn [snd]; rewrite <- app_assoc; reflexivity.
      * apply Forall_two; [left|right]; reflexivity.
    + exists [EvRateCheck "tweets/create"].
      rewrite (proj2 (handleApiError_effect _ _ _ _)).
      split; [reflexivity|]. constructor; [left; reflexivity|constructor].
  - rewrite uploadMedia_eq.
    destruct (MAX_MEDIA_FILE_SIZE <? _).
    { exists []. rewrite (proj2 (uploadMedia_catch_effect _ _ _ _)), app_nil_r. auto. }
    pose proof (checkRateLimit_session "media/upload" w c tr) as Hs.
    destruct (checkRateLimit "media/upload" w c tr) as [[o c1] tr1] eqn:Hcheck.
    destruct (checkRateLimit_frame _ _ _ _ _ _ _ Hcheck) as (_ & _ & _ & ->).
    cbn [fst snd] in Hs. rewrite (upload_event_session _ _ _ _ Hs).
    destruct o as [[]|e].
    + exists [EvRateCheck "media/upload"; upload_event c b m]. split.
      * destruct (upload_answer w c1 _ b m);
          [|rewrite (proj2 (uploadMedia_catch_effect _ _ _ _))];
          cbn [snd]; rewrite <- app_assoc; reflexivity.
      * apply Forall_two; [left|right]; reflexivity.
    + exists [EvRateCheck "media/upload"].
      rewrite (proj2 (uploadMedia_catch_effect _ _ _ _)).
      split; [reflexivity|]. constructor; [left; reflexivity|constructor].
  - destruct ms as [[|item rest]|].
    2:{ rewrite postTweetWithMedia_eq.
        pose proof (checkRateLimit_session "tweets/create" w c tr) as Hs.
        destruct (checkRateLimit "tweets/create" w c tr) as [[o c1] tr1] eqn:Hcheck.
        destruct (checkRateLimit_frame _ _ _ _ _ _ _ Hcheck) as (_ & _ & _ & ->).
        cbn [fst snd] in Hs.
        destruct o as [[]|e].
        2:{ exists [EvRateCheck "tweets/create"].
            rewrite (proj2 (handleApiError_effect _ _ _ _)).
            split; [reflexivity|]. constructor; [left; reflexivity|constructor]. }
        destruct (mediaLoop_footprint (item :: rest) [] w c1 (tr ++ [EvRateCheck "tweets/create"]))
          as (tail & Htail & Hall).
        pose proof (mediaLoop_cases (item :: rest) [] w c1 (tr ++ [EvRateCheck "tweets/create"]))
          as Hcases.
        assert (Hall' : Forall (may_emit (OpPostTweetWithMedia t r (Some (item :: rest))) c) tail).
        { eapply List.Forall_impl; [|exact Hall]. intros e (it & Hit & He).
          right. left. exists it. split; [exact Hit|].
          rewrite <- (segment_session _ _ _ Hs). exact He. }
        destruct (mediaLoop (item :: rest) [] w c1 _) as [[[mediaIds|e] c2] tr2];
          cbn [snd] in Htail; subst tr2.
        - destruct Hcases as (_ & _ & new & Hnew & Hlen & _). cbn [app] in Hnew. subst mediaIds.
          cbn zeta.
          exists (EvRateCheck "tweets/create"
                    :: tail ++ [EvTweet (mkTweetOptions t (reply_of r) (Some new))]).
          split.
          + destruct (v2_tweet w _ _);
              [|rewrite (proj2 (handleApiError_effect _ _ _ _))];
              cbn [snd]; rewrite <- !app_assoc; reflexivity.
          + constructor; [left; reflexivity|].
            apply Forall_app. split; [exact Hall'|].
            constructor; [|constructor].
            right. right. exists (Some new). split; [reflexivity|].
            split; [discriminate|exact Hlen].
        - exists (EvRateCheck "tweets/create" :: tail).
          rewrite (proj2 (handleApiError_effect _ _ _ _)).
          split; [rewrite <- app_assoc; reflexivity|].
          constructor; [left; reflexivity|exact Hall']. }
    all: unfold postTweetWithMedia, postTweetWithMedia_body, tryCatch; unfold bind at 1;
      destruct (checkRateLimit "tweets/create" w c tr) as [[o c1] tr1] eqn:Hcheck;
      destruct (checkRateLimit_frame _ _ _ _ _ _ _ Hcheck) as (_ & _ & _ & ->);
      (destruct o as [[]|e];
       [ unfold bind, remote, ret; cbn zeta;
         exists [EvRateCheck "tweets/create"; EvTweet (mkTweetOptions t (reply_of r) None)];
         split;
         [ destruct (v2_tweet w _ _);
             [|rewrite (proj2 (handleApiError_effect _ _ _ _))];
             cbn [snd]; rewrite <- app_assoc; reflexivity
         | apply Forall_two; [left; reflexivity|];
           right; right; exists None; split; reflexivity ]
       | exists [EvRateCheck "tweets/create"];
         rewrite (proj2 (handleApiError_effect _ _ _ _));
         split; [reflexivity|]; constructor; [left; reflexivity|constructor] ]).
  - rewrite searchTweets_eq.
    destruct (checkRateLimit "tweets/search" w c tr) as [[o c1] tr1] eqn:Hcheck.
    destruct (checkRateLimit_frame _ _ _ _ _ _ _ Hcheck) as (_ & _ & _ & ->).
    destruct o as [[]|e].
    + exists [EvRateCheck "tweets/search"; EvSearch q n]. split.
      * destruct (v2_search w _ _ _);
          [destruct (searchTweets_body q n w c tr) as [[? ?] ?]
          |rewrite (proj2 (handleApiError_effect _ _ _ _))];
          cbn [snd]; rewrite <- app_assoc; reflexivity.
      * apply Forall_two; [left|right]; reflexivity.
    + exists [EvRateCheck "tweets/search"].
      rewrite (proj2 (handleApiError_effect _ _ _ _)).
      split; [reflexivity|]. constructor; [left; reflexivity|constructor].
  - rewrite getTweet_eq.
    destruct (checkRateLimit "tweets/lookup" w c tr) as [[o c1] tr1] eqn:Hcheck.
    destruct (checkRateLimit_frame _ _ _ _ _ _ _ Hcheck) as (_ & _ & _ & ->).
    destruct o as [[]|e].
    + exists [EvRateCheck "tweets/lookup"; EvSingleTweet i]. split.
      * destruct (v2_singleTweet w _ _);
          [destruct (getTweet_body i w c tr) as [[? ?] ?]
          |rewrite (proj2 (handleApiError_effect _ _ _ _))];
          cbn [snd]; rewrite <- app_assoc; reflexivity.
      * apply Forall_two; [left|right]; reflexivity.
    + exists [EvRateCheck "tweets/lookup"].
      rewrite (proj2 (handleApiError_effect _ _ _ _)).
      split; [reflexivity|]. constructor; [left; reflexivity|constructor].
  - rewrite deleteTweet_eq.
    destruct (checkRateLimit "tweets/delete" w c tr) as [[o c1] tr1] eqn:Hcheck.
    destruct (checkRateLimit_frame _ _ _ _ _ _ _ Hcheck) as (_ & Hcfg & _ & ->).
    destruct o as [[]|e].
    2:{ exists [EvRateCheck "tweets/delete"].
        rewrite (proj2 (handleApiError_effect _ _ _ _)).
        split; [reflexivity|]. constructor; [left; reflexivity|constructor]. }
    destruct (v2_deleteTweet w _ i) as [d|v2Error].
    { exists [EvRateCheck "tweets/delete"; EvDeleteV2 i]. split.
      - cbn [snd]. rewrite <- app_assoc. reflexivity.
      - apply Forall_two; [left; reflexivity|right; left; reflexivity]. }
    rewrite deleteTweet_fallback_eq.
    destruct (code_is_500 _).
    + destruct (authType (config c1)) eqn:Ha.
      * exists [EvRateCheck "tweets/delete"; EvDeleteV2 i; EvDestroyV1 i]. split.
        -- destruct (v1_destroy w _ i);
             [|rewrite (proj2 (handleApiError_effect _ _ _ _))];
             cbn [snd]; rewrite <- !app_assoc; reflexivity.
        -- constructor; [left; reflexivity|].
           apply Forall_two; [right; left; reflexivity|].
           right. right. split; [reflexivity|]. congruence.
      * exists [EvRateCheck "tweets/delete"; EvDeleteV2 i].
        rewrite (proj2 (handleApiError_effect _ _ _ _)). split.
        -- rewrite <- app_assoc. reflexivity.
        -- apply Forall_two; [left; reflexivity|right; left; reflexivity].
    + exists [EvRateCheck "tweets/delete"; EvDeleteV2 i].
      rewrite (proj2 (handleApiError_effect _ _ _ _)). split.
      * rewrite <- app_assoc. reflexivity.
      * apply Forall_two; [left; reflexivity|right; left; reflexivity].
Qed.

(** *** Read operations *)

Lemma checkRateLimit_no_ceiling endpoint w c tr :
  prop_get DAILY_LIMITS endpoint = None ->
  prop_get RATE_LIMITS_MS endpoint = Some 900000 ->
  dailyLimits (snd (fst (checkRateLimit endpoint w c tr))) = dailyLimits c /\
  ((forall last, rateLimitMap c !! endpoint = Some last ->
                 900000 <= rd_check (reads_at w tr endpoint) - last) ->
   fst (fst (checkRateLimit endpoint w c tr)) = Returned tt).
Proof.
  intros Hd Hi. rewrite checkRateLimit_eq. cbn zeta. rewrite Hd, Hi.
  cbn [Js.or_num Z.eqb]. unfold reads_at.
  destruct (rateLimitMap c !! endpoint) as [last|]; cbn [Js.truthy_num Js.nullish andb].
  - destruct (negb (last =? 0) && _) eqn:E.
    + split; [reflexivity|]. intros Hsp. specialize (Hsp last eq_refl).
      apply andb_true_iff in E as [_ E]. lia.
    + split; reflexivity.
  - split; reflexivity.
Qed.

(** X7.  The read operations have no daily ceiling and never write.
    [searchTweets] and [getTweet] never touch the daily counters; their trace
    grows by the quota check alone or by the check and the one read request;
    and whenever the key's previous request is at least 15 minutes old (or
    there is none) the read request is made, however many requests were made
    before and whatever the state of the other keys. *)
Theorem reads_have_no_daily_ceiling :
  (forall query n w c tr,
     let run := searchTweets query n w c tr in
     dailyLimits (snd (fst run)) = dailyLimits c /\
     (snd run = tr ++ [EvRateCheck "tweets/search"]
      \/ snd run = tr ++ [EvRateCheck "tweets/search"; EvSearch query n]) /\
     ((forall last, rateLimitMap c !! "tweets/search" = Some last ->
                    15 * 60 * 1000 <= rd_check (reads_at w tr "tweets/search") - last) ->
      snd run = tr ++ [EvRateCheck "tweets/search"; EvSearch query n])) /\
  (forall tweetId w c tr,
     let run := getTweet tweetId w c tr in
     dailyLimits (snd (fst run)) = dailyLimits c /\
     (snd run = tr ++ [EvRateCheck "tweets/lookup"]
      \/ snd run = tr ++ [EvRateCheck "tweets/lookup"; EvSingleTweet tweetId]) /\
     ((forall last, rateLimitMap c !! "tweets/lookup" = Some last ->
                    15 * 60 * 1000 <= rd_check (reads_at w tr "tweets/lookup") - last) ->
      snd run = tr ++ [EvRateCheck "tweets/lookup"; EvSingleTweet tweetId])).
Proof.
  split.
  - intros query n w c tr run. subst run. rewrite searchTweets_eq.
    destruct (checkRateLimit_no_ceiling "tweets/search" w c tr eq_refl eq_refl) as [Hd Hpass].
    destruct (checkRateLimit "tweets/search" w c tr) as [[o c1] tr1] eqn:Hcheck.
    destruct (checkRateLimit_frame _ _ _ _ _ _ _ Hcheck) as (_ & _ & _ & ->).
    cbn [fst snd] in Hd, Hpass.
    destruct o as [[]|e].
    + assert (Hrun : forall r : Outcome (list Tweet * list TwitterUser) * TwitterClient * Trace,
                 r = match v2_search w (tr ++ [EvRateCheck "tweets/search"]) query n with
                     | Returned _ =>
                         let '(o, _, _) := searchTweets_body query n w c tr in
                         (o, c1, (tr ++ [EvRateCheck "tweets/search"]) ++ [EvSearch query n])
                     | Threw e =>
                         handleApiError e w c1
                           ((tr ++ [EvRateCheck "tweets/search"]) ++ [EvSearch query n])
                     end ->
                 dailyLimits (snd (fst r)) = dailyLimits c /\
                 snd r = tr ++ [EvRateCheck "tweets/search"; EvSearch query n]).
      { intros r ->. destruct (v2_search w _ query n).
        - destruct (searchTweets_body query n w c tr) as [[? ?] ?]. cbn [fst snd].
          rewrite <- app_assoc. auto.
        - destruct (handleApiError_effect (A:=list Tweet * list TwitterUser) e w c1
                      ((tr ++ [EvRateCheck "tweets/search"]) ++ [EvSearch query n]))
            as [-> ->].
          rewrite <- app_assoc. auto. }
      destruct (Hrun _ eq_refl) as [H1 H2]. rewrite H1, H2. auto.
    + destruct (handleApiError_effect (A:=list Tweet * list TwitterUser) e w c1
                  (tr ++ [EvRateCheck "tweets/search"])) as [-> ->].
      split; [exact Hd|]. split; [auto|]. intros Hsp. specialize (Hpass Hsp). discriminate.
  - intros tweetId w c tr run. subst run. rewrite getTweet_eq.
    destruct (checkRateLimit_no_ceiling "tweets/lookup" w c tr eq_refl eq_refl) as [Hd Hpass].
    destruct (checkRateLimit "tweets/lookup" w c tr) as [[o c1] tr1] eqn:Hcheck.
    destruct (checkRateLimit_frame _ _ _ _ _ _ _ Hcheck) as (_ & _ & _ & ->).
    cbn [fst snd] in Hd, Hpass.
    destruct o as [[]|e].
    + assert (Hrun : forall r : Outcome Tweet * TwitterClient * Trace,
                 r = match v2_singleTweet w (tr ++ [EvRateCheck "tweets/lookup"]) tweetId with
                     | Returned _ =>
                         let '(o, _, _) := getTweet_body tweetId w c tr in
                         (o, c1, (tr ++ [EvRateCheck "tweets/lookup"]) ++ [EvSingleTweet tweetId])
                     | Threw e =>
                         handleApiError e w c1
                           ((tr ++ [EvRateCheck "tweets/lookup"]) ++ [EvSingleTweet tweetId])
                     end ->
                 dailyLimits (snd (fst r)) = dailyLimits c /\
                 snd r = tr ++ [EvRateCheck "tweets/lookup"; EvSingleTweet tweetId]).
      { intros r ->. destruct (v2_singleTweet w _ tweetId).
        - destruct (getTweet_body tweetId w c tr) as [[? ?] ?]. cbn [fst snd].
          rewrite <- app_assoc. auto.
        - destruct (handleApiError_effect (A:=Tweet) e w c1
                      ((tr ++ [EvRateCheck "tweets/lookup"]) ++ [EvSingleTweet tweetId]))
            as [-> ->].
          rewrite <- app_assoc. auto. }
      destruct (Hrun _ eq_refl) as [H1 H2]. rewrite H1, H2. auto.
    + destruct (handleApiError_effect (A:=Tweet) e w c1
                  (tr ++ [EvRateCheck "tweets/lookup"])) as [-> ->].
      split; [exact Hd|]. split; [auto|]. intros Hsp. specialize (Hpass Hsp). discriminate.
Qed.

(** *** Sessions *)

Lemma may_emit_session c c' op e :
  same_session c c' -> may_emit op c' e -> may_emit op c e.
Proof.
  intros Hs [H|H]; [left; exact H|right].
  destruct op as [t r|b m|t r ms|q n|i|i]; try exact H.
  - rewrite <- (upload_event_session _ _ _ _ Hs). exact H.
  - destruct H as [(item & Hin & He)|H]; [left|right; exact H].
    exists item. rewrite <- (segment_session _ _ _ Hs). auto.
  - destruct H as [H|[H1 H2]]; [left; exact H|right].
    split; [exact H1|]. destruct Hs as (_ & Hc & _). congruence.
Qed.

Lemma run_op_session op w c tr : same_session c (snd (fst (run_op op w c tr))).
Proof.
  apply (run_op_keeps (quota_keys op) (same_session c)); [|auto|apply same_session_refl].
  intros e w' c' tr' _ Hs.
  exact (same_session_trans _ _ _ Hs (checkRateLimit_session e w' c' tr')).
Qed.

Lemma session_footprint ops : forall w c0 c tr,
  same_session c0 c ->
  exists tail,
    snd (session ops w c tr) = tr ++ tail /\
    Forall (fun e => exists op, In op ops /\ may_emit op c0 e) tail.
Proof.
  induction ops as [|op rest IH]; intros w c0 c tr Hs.
  - exists []. rewrite app_nil_r. auto.
  - cbn [session].
    destruct (run_op_footprint op w c tr) as (tail1 & Htr1 & Hall1).
    pose proof (run_op_session op w c tr) as Hs1.
    destruct (run_op op w c tr) as [[o c1] tr1]. cbn [fst snd] in *. subst tr1.
    destruct (IH w c0 c1 (tr ++ tail1) (same_session_trans _ _ _ Hs Hs1))
      as (tail2 & -> & Hall2).
    exists (tail1 ++ tail2). split; [rewrite app_assoc; reflexivity|].
    apply Forall_app. split.
    + eapply List.Forall_impl; [|exact Hall1]. intros e He.
      exists op. split; [left; reflexivity|].
      apply (may_emit_session _ _ _ _ Hs He).
    + eapply List.Forall_impl; [|exact Hall2]. intros e (op' & Hin & He).
      exists op'. split; [right; exact Hin|exact He].
Qed.

Lemma new_TwitterClient_fields cfg c :
  new_TwitterClient cfg = Returned c ->
  config c = cfg /\
  v2MediaUploader c = match authType cfg with
                      | oauth1 => None
                      | oauth2 => oauth2AccessToken cfg
                      end /\
  (authType cfg = oauth2 -> exists token, oauth2AccessToken cfg = Some token) /\
  rateLimitMap c = ∅ /\ dailyLimits c = ∅.
Proof.
  unfold new_TwitterClient, createTwitterClient.
  destruct (authType cfg) eqn:Ha.
  - destruct (_ || _); [discriminate|]. intros [= <-]. cbn. repeat split; discriminate.
  - destruct (oauth2AccessToken cfg) as [token|] eqn:Et; cbn [Js.truthy_str negb].
    + destruct (String.eqb token ""); cbn [negb]; [discriminate|].
      intros [= <-]. cbn. repeat split; eauto.
    + discriminate.
Qed.

(** X10.  Requests are routed by the authentication type.  In every
    sequence of operations on a client made by the constructor, the legacy
    v1.1 endpoints (media upload, status destroy) are called only under OAuth
    1.0a; the v2 upload endpoint is called only under OAuth 2.0, with the
    configured access token and the category derived from the MIME type; and
    no operation ever refreshes a token. *)
Theorem session_routing cfg c ops w :
  new_TwitterClient cfg = Returned c ->
  Forall (routed_for cfg) (snd (session ops w c [])).
Proof.
  intros Hnew.
  destruct (new_TwitterClient_fields _ _ Hnew) as (Hcfg & Hup & Htok & _).
  destruct (session_footprint ops w c c [] (same_session_refl c)) as (tail & -> & Hall).
  cbn [app]. eapply List.Forall_impl; [|exact Hall].
  intros e (op & _ & [->|He]); [exact I|].
  assert (Hupload : forall b m, routed_for cfg (upload_event c b m)).
  { intros b m. unfold upload_event. rewrite Hcfg, Hup.
    destruct (authType cfg) eqn:Ha; [exact Ha|].
    destruct (Htok eq_refl) as [token Ht]. rewrite Ht. cbn. auto. }
  destruct op as [t r|b m|t r ms|q n|i|i]; cbn in He.
  - subst e. exact I.
  - subst e. apply Hupload.
  - destruct He as [(item & _ & [<-|[<-|[<-|[]]]])|(media & -> & _)];
      try exact I. apply Hupload.
  - subst e. exact I.
  - subst e. exact I.
  - destruct He as [->|[-> Ha]]; [exact I|]. cbn. congruence.
Qed.

(** An upload followed by a deletion that the v2 endpoint fails with status
    500: under OAuth 2.0 the upload goes to the v2 endpoint and nothing goes to
    v1.1; under OAuth 1.0a both the upload and the fallback deletion do. *)
Lemma session_routing_witness :
  let w := broken_delete_world 500 in
  let ops := [OpUploadMedia [Byte.x00] "image/png"; OpDeleteTweet "1"] in
  Forall (routed_for oauth2_config) (snd (session ops w (fresh_client oauth2_config) [])) /\
  Forall (routed_for oauth1_config) (snd (session ops w (fresh_client oauth1_config) [])) /\
  snd (session ops w (fresh_client oauth2_config) [])
  = [ EvRateCheck "media/upload"; EvUploadV2 "bearer" [Byte.x00] "image/png" "tweet_image";
      EvRateCheck "tweets/delete"; EvDeleteV2 "1" ] /\
  snd (session ops w (fresh_client oauth1_config) [])
  = [ EvRateCheck "media/upload"; EvUploadV1 [Byte.x00] "image/png";
      EvRateCheck "tweets/delete"; EvDeleteV2 "1"; EvDestroyV1 "1" ].
Proof.
  intros w ops. split; [|split; [|split]].
  - apply (session_routing oauth2_config). reflexivity.
  - apply (session_routing oauth1_config). reflexivity.
  - vm_compute. reflexivity.
  - vm_compute. reflexivity.
Defined.

(** *** Several media items in one call *)

Lemma mediaItemStep_returned item mediaIds w c tr mediaIds' c' tr' :
  mediaItemStep item mediaIds w c tr = (Returned mediaIds', c', tr') ->
  rateLimitMap c' !! "media/upload"
  = Some (rd_record (reads_at w (tr ++ [EvDecode (data item)]) "media/upload")).
Proof.
  rewrite mediaItemStep_eq.
  destruct (MAX_BASE64_SIZE <? _); [discriminate|].
  destruct (negb _); [discriminate|].
  rewrite uploadMedia_eq.
  destruct (MAX_MEDIA_FILE_SIZE <? _).
  { destruct (uploadMedia_catch_tagged
                (Tagged (fileTooLargeError (Base64.buflen (Base64.decode (data item)))))
                w c (tr ++ [EvDecode (data item)])) as [te ->]. discriminate. }
  destruct (checkRateLimit "media/upload" w c (tr ++ [EvDecode (data item)]))
    as [[[[]|e] c1] tr1] eqn:Hcheck.
  - destruct (upload_answer w c1 tr1 _ _).
    + intros [= _ <- _].
      rewrite (checkRateLimit_records _ _ _ _ _ _ Hcheck). apply lookup_insert_eq.
    + destruct (uploadMedia_catch_tagged e w c1
                  (tr1 ++ [upload_event c1 (Base64.decode (data item)) (media_type item)]))
        as [te ->]. discriminate.
  - destruct (uploadMedia_catch_tagged e w c1 tr1) as [te ->]. discriminate.
Qed.

Lemma mediaItemStep_too_early item mediaIds w c tr t :
  rateLimitMap c !! "media/upload" = Some t ->
  t <> 0 ->
  rd_check (reads_at w (tr ++ [EvDecode (data item)]) "media/upload") - t < 60000 ->
  exists e c' tr', mediaItemStep item mediaIds w c tr = (Threw e, c', tr').
Proof.
  intros Hl Ht Hlt. rewrite mediaItemStep_eq.
  destruct (MAX_BASE64_SIZE <? _); [eauto|].
  destruct (negb _); [eauto|].
  rewrite uploadMedia_eq.
  destruct (MAX_MEDIA_FILE_SIZE <? _).
  { destruct (uploadMedia_catch_tagged
                (Tagged (fileTooLargeError (Base64.buflen (Base64.decode (data item)))))
                w c (tr ++ [EvDecode (data item)])) as [te ->]. eauto. }
  rewrite (checkRateLimit_too_early "media/upload" 60000 w c _ t eq_refl Hl Ht Hlt).
  destruct (uploadMedia_catch_tagged
              (Tagged (rateLimitError
                         (Js.ceil_div
                            (60000 - (rd_check (reads_at w (tr ++ [EvDecode (data item)])
                                                  "media/upload") - t)) 1000)
                         "media/upload"))
              w c ((tr ++ [EvDecode (data item)]) ++ [EvRateCheck "media/upload"])) as [te ->].
  eauto.
Qed.

Lemma filter_tweets_segment c tail :
  (forall e, In e tail -> exists it : MediaItem, In e (segment c it)) ->
  List.filter is_tweet tail = [].
Proof.
  induction tail as [|e tail IH]; intros H; [reflexivity|].
  cbn [List.filter].
  destruct (H e (or_introl eq_refl)) as (it & Hin).
  assert (He : is_tweet e = false).
  { unfold segment, upload_event in Hin. cbn [In] in Hin.
    destruct Hin as [<-|[<-|[<-|[]]]]; try reflexivity.
    destruct (authType (config c)), (v2MediaUploader c); reflexivity. }
  rewrite He. apply IH. intros e' He'. apply H. right. exact He'.
Qed.

(** X8.  Every media item needs its own minute.  Where the clock never
    shows two instants a minute or more apart (and never the epoch), a
    [postTweetWithMedia] call with two or more media items never succeeds
    and never posts: by the time the second item is reached the first upload
    has been recorded, so the second is refused (or was rejected before
    that), and the caller catches a tagged error. *)
Theorem several_media_need_a_minute_each w :
  (forall tr, rd_record (clock w tr) <> 0) ->
  (forall tr tr', rd_check (clock w tr') - rd_record (clock w tr) < 60000) ->
  forall text replyToTweetId first second rest c tr,
    let run :=
      postTweetWithMedia text replyToTweetId (Some (first :: second :: rest)) w c tr in
    (exists te, fst (fst run) = Threw (Tagged te)) /\
    List.filter is_tweet (snd run) = List.filter is_tweet tr.
Proof.
  intros Hnz Hwin text replyToTweetId first second rest c tr run. subst run.
  rewrite postTweetWithMedia_eq.
  destruct (checkRateLimit "tweets/create" w c tr) as [[o c1] tr1] eqn:Hcheck.
  destruct (checkRateLimit_frame _ _ _ _ _ _ _ Hcheck) as (_ & _ & _ & ->).
  destruct o as [[]|e].
  2:{ destruct (handleApiError_tagged (A:=PostedTweet) e w c1
                  (tr ++ [EvRateCheck "tweets/create"])) as [te ->].
      split; [eauto|]. cbn [snd]. rewrite List.filter_app, app_nil_r. reflexivity. }
  destruct (mediaLoop_footprint (first :: second :: rest) [] w c1
              (tr ++ [EvRateCheck "tweets/create"])) as (tail & Htail & Hall).
  assert (Hthrow : exists e c2 tr2,
             mediaLoop (first :: second :: rest) [] w c1 (tr ++ [EvRateCheck "tweets/create"])
             = (Threw e, c2, tr2)).
  { cbn [mediaLoop]. unfold bind at 1.
    destruct (mediaItemStep first [] w c1 _) as [[[ids|e] c2] tr2] eqn:H1; [|eauto].
    pose proof (mediaItemStep_returned _ _ _ _ _ _ _ _ H1) as Hrec.
    unfold bind at 1.
    destruct (mediaItemStep_too_early second ids w c2 tr2 _ Hrec (Hnz _) (Hwin _ _))
      as (e & c3 & tr3 & ->). eauto. }
  destruct Hthrow as (e & c2 & tr2 & Hloop). rewrite Hloop in *. cbn [snd] in Htail. subst tr2.
  destruct (handleApiError_tagged (A:=PostedTweet) e w c2
              ((tr ++ [EvRateCheck "tweets/create"]) ++ tail)) as [te ->].
  split; [eauto|]. cbn [snd].
  rewrite !List.filter_app. cbn [List.filter is_tweet].
  rewrite (filter_tweets_segment c1 tail), !app_nil_r; [reflexivity|].
  intros e' He'. rewrite List.Forall_forall in Hall.
  destruct (Hall e' He') as (it & _ & Hin). eauto.
Qed.

(** Two valid images posted while the clock stands still. *)
Lemma several_media_need_a_minute_each_witness :
  let w := calm_world 1000 0 in
  let items := [mkMediaItem "aW1hZ2Ux" "image/jpeg"; mkMediaItem "aW1hZ2Uy" "image/png"] in
  let run := postTweetWithMedia "Two images" None (Some items) w (fresh_client oauth1_config) [] in
  (exists te, fst (fst run) = Threw (Tagged te)) /\
  List.filter is_tweet (snd run) = List.filter is_tweet [].
Proof.
  intros w items run.
  apply (several_media_need_a_minute_each w).
  - intros tr. vm_compute. discriminate.
  - intros tr tr'. vm_compute. reflexivity.
Defined.

(** ** Media: the codec's round trip *)

(** The standard alphabet is read back by the decoder, and has no [=]. *)
Lemma alphabet_table :
  forallb (fun k =>
             match Base64.unbase64 (Base64.alphabet (N.of_nat k)) with
             | Some m => (m =? N.of_nat k)%N
             | None => false
             end && negb (Ascii.eqb (Base64.alphabet (N.of_nat k)) "="%char))
          (seq 0 64) = true.
Proof. vm_compute. reflexivity. Qed.

Lemma unbase64_alphabet n :
  (n < 64)%N ->
  Base64.unbase64 (Base64.alphabet n) = Some n /\
  Ascii.eqb (Base64.alphabet n) "="%char = false.
Proof.
  intros Hn.
  pose proof (proj1 (forallb_forall _ _) alphabet_table (N.to_nat n)) as H.
  cbv beta in H. rewrite N2Nat.id in H.
  assert (Hin : In (N.to_nat n) (seq 0 64)) by (apply in_seq; lia).
  specialize (H Hin). apply andb_true_iff in H as [H1 H2].
  destruct (Base64.unbase64 (Base64.alphabet n)) as [m|]; [|discriminate].
  apply N.eqb_eq in H1. subst m. split; [reflexivity|].
  destruct (Ascii.eqb _ _); [discriminate|reflexivity].
Qed.

Lemma sextets_sx n rest :
  Base64.sextets (Base64.sx n rest) = (n mod 64)%N :: Base64.sextets rest.
Proof.
  unfold Base64.sx. cbn [Base64.sextets].
  destruct (unbase64_alphabet (n mod 64)%N) as [-> ->]; [|reflexivity].
  apply N.mod_upper_bound. discriminate.
Qed.

Lemma byte_of_to_N x : Base64.byte_of (Byte.to_N x) = x.
Proof.
  unfold Base64.byte_of.
  pose proof (Byte.to_N_bounded x) as Hb.
  rewrite N.mod_small by lia. rewrite Byte.of_to_N. reflexivity.
Qed.

Lemma byte_of_eq k x : (k mod 256 = Byte.to_N x)%N -> Base64.byte_of k = x.
Proof.
  intros H. rewrite <- (byte_of_to_N x). unfold Base64.byte_of.
  rewrite H. rewrite N.mod_small; [reflexivity|].
  pose proof (Byte.to_N_bounded x). lia.
Qed.

Lemma group3 x y z :
  (x < 256 -> y < 256 -> z < 256 ->
   let n := x * 65536 + y * 256 + z in
   let a := (n / 262144) mod 64 in
   let b := (n / 4096) mod 64 in
   let c := (n / 64) mod 64 in
   let d := n mod 64 in
   (a * 4 + b / 16) mod 256 = x /\
   (b * 16 + c / 4) mod 256 = y /\
   (c * 64 + d) mod 256 = z)%N.
Proof.
  intros Hx Hy Hz n a b c d. subst n a b c d.
  repeat split; zify; Z.to_euclidean_division_equations; lia.
Qed.

Lemma list3_ind {A : Type} (P : list A -> Prop) :
  P [] -> (forall x, P [x]) -> (forall x y, P [x; y]) ->
  (forall x y z l, P l -> P (x :: y :: z :: l)) ->
  forall l, P l.
Proof.
  intros H0 H1 H2 H3 l.
  enough (H : P l /\ (forall x, P (x :: l)) /\ (forall x y, P (x :: y :: l))) by apply H.
  induction l as [|a l (IH0 & IH1 & IH2)]; auto.
Qed.

(** Decoding what the encoder wrote gives the bytes back. *)
Lemma decode_encode b : Base64.decode (Base64.encode b) = b.
Proof.
  unfold Base64.decode.
  induction b as [|x|x y|x y z l IH] using list3_ind.
  - reflexivity.
  - cbn [Base64.encode]. cbv zeta. rewrite !sextets_sx.
    change (Base64.sextets "==") with (@nil N). cbn [Base64.pack].
    f_equal. apply byte_of_eq.
    pose proof (Byte.to_N_bounded x).
    zify; Z.to_euclidean_division_equations; lia.
  - cbn [Base64.encode]. cbv zeta. rewrite !sextets_sx.
    change (Base64.sextets "=") with (@nil N). cbn [Base64.pack].
    pose proof (Byte.to_N_bounded x). pose proof (Byte.to_N_bounded y).
    f_equal; [|f_equal]; apply byte_of_eq;
      zify; Z.to_euclidean_division_equations; lia.
  - cbn [Base64.encode]. cbv zeta. rewrite !sextets_sx. cbn [Base64.pack].
    rewrite IH.
    pose proof (Byte.to_N_bounded x). pose proof (Byte.to_N_bounded y).
    pose proof (Byte.to_N_bounded z).
    destruct (group3 (Byte.to_N x) (Byte.to_N y) (Byte.to_N z)) as (H2 & H3 & H4);
      [lia..|].
    cbv zeta in H2, H3, H4.
    f_equal; [|f_equal; [|f_equal]]; apply byte_of_eq; assumption.
Qed.

Lemma strlen_sx n s : Js.strlen (Base64.sx n s) = 1 + Js.strlen s.
Proof. unfold Base64.sx, Js.strlen. cbn [String.length]. lia. Qed.

(** The encoder's output is four characters for every three bytes, the last
    group padded. *)
Lemma encode_length b :
  Js.strlen (Base64.encode b) = 4 * ((Base64.buflen b + 2) / 3).
Proof.
  induction b as [|x|x y|x y z l IH] using list3_ind.
  - reflexivity.
  - reflexivity.
  - reflexivity.
  - cbn [Base64.encode]. cbv zeta. rewrite !strlen_sx, IH.
    unfold Base64.buflen. cbn [List.length].
    rewrite !Nat2Z.inj_succ.
    Z.to_euclidean_division_equations; lia.
Qed.

Lemma alphabet_standard_table :
  forallb (fun k => standard_char (Base64.alphabet (N.of_nat k))) (seq 0 64) = true.
Proof. vm_compute. reflexivity. Qed.

Lemma alphabet_standard n : standard_char (Base64.alphabet (n mod 64)) = true.
Proof.
  pose proof (proj1 (forallb_forall _ _) alphabet_standard_table (N.to_nat (n mod 64))) as H.
  cbv beta in H. rewrite N2Nat.id in H. apply H. apply in_seq.
  pose proof (N.mod_upper_bound n 64 ltac:(discriminate)) as Hm.
  revert Hm. generalize (n mod 64)%N. intros m Hm. lia.
Qed.

Lemma all_chars_sx n s :
  all_chars standard_char (Base64.sx n s) = all_chars standard_char s.
Proof. unfold Base64.sx. cbn [all_chars]. rewrite alphabet_standard. reflexivity. Qed.

Lemma encode_standard b : all_chars standard_char (Base64.encode b) = true.
Proof.
  induction b as [|x|x y|x y z l IH] using list3_ind;
    cbn [Base64.encode]; cbv zeta; rewrite ?all_chars_sx; auto.
Qed.

(** X2.  Only padded standard base64 is accepted.  A media item whose text
    is at most 15 MiB long is rejected with [invalid_base64], before any quota
    check or upload, whenever its length is not a multiple of four or it
    contains a character other than A-Z, a-z, 0-9, [+], [/] and [=]: so
    unpadded text, the URL-safe alphabet, and text with line breaks or blanks
    are all rejected. *)
Theorem malformed_base64_rejected item mediaIds w c tr :
  Js.strlen (data item) <= MAX_BASE64_SIZE ->
  Js.strlen (data item) mod 4 <> 0 \/ all_chars standard_char (data item) = false ->
  mediaItemStep item mediaIds w c tr
  = (Threw (Tagged invalidBase64Error), c, tr ++ [EvDecode (data item)]).
Proof.
  intros Hsize Hbad. rewrite mediaItemStep_eq.
  destruct (MAX_BASE64_SIZE <? _) eqn:E; [lia|].
  destruct (String.eqb_spec (Base64.encode (Base64.decode (data item))) (data item)) as [Heq|Hne];
    [|reflexivity].
  exfalso. destruct Hbad as [Hlen | Hch].
  - apply Hlen. rewrite <- Heq, encode_length.
    rewrite Z.mul_comm. apply Z.mod_mul. lia.
  - rewrite <- Heq, encode_standard in Hch. discriminate.
Qed.

(** "aGVsbG8" lacks its padding; "aGk_aGk=" uses the URL-safe alphabet. *)
Lemma malformed_base64_rejected_witness :
  let w := calm_world 1000 60000 in
  let c := fresh_client oauth1_config in
  mediaItemStep (mkMediaItem "aGVsbG8" "image/png") [] w c []
  = (Threw (Tagged invalidBase64Error), c, [EvDecode "aGVsbG8"]) /\
  mediaItemStep (mkMediaItem "aGk_aGk=" "image/png") [] w c []
  = (Threw (Tagged invalidBase64Error), c, [EvDecode "aGk_aGk="]).
Proof.
  intros w c. split.
  - apply (malformed_base64_rejected (mkMediaItem "aGVsbG8" "image/png") [] w c []).
    + vm_compute. discriminate.
    + left. vm_compute. discriminate.
  - apply (malformed_base64_rejected (mkMediaItem "aGk_aGk=" "image/png") [] w c []).
    + vm_compute. discriminate.
    + right. vm_compute. reflexivity.
Defined.

(** X1.  Well-formed media reach the uploader intact.  For every byte
    sequence of at most 5 MiB, its base64 text is at most 15 MiB long and
    decodes to the same bytes; when [postTweetWithMedia] reaches an item
    carrying that text (the create quota passed, the items before it were
    uploaded) and the upload quota passes, the item is decoded, checked and
    handed to the uploader of the client's authentication type as exactly
    those bytes with the item's MIME type. *)
Theorem encoded_media_uploaded_intact text replyToTweetId pre post buffer mimeType
    w c tr c1 tr1 mediaIds c2 tr2 c3 tr3 :
  let payload := Base64.encode buffer in
  let item := mkMediaItem payload mimeType in
  Base64.buflen buffer <= MAX_MEDIA_FILE_SIZE ->
  checkRateLimit "tweets/create" w c tr = (Returned tt, c1, tr1) ->
  mediaLoop pre [] w c1 tr1 = (Returned mediaIds, c2, tr2) ->
  checkRateLimit "media/upload" w c2 (tr2 ++ [EvDecode payload]) = (Returned tt, c3, tr3) ->
  Js.strlen payload <= MAX_BASE64_SIZE /\
  Base64.decode payload = buffer /\
  exists rest,
    snd (postTweetWithMedia text replyToTweetId (Some (pre ++ item :: post)) w c tr)
    = tr2 ++ [EvDecode payload; EvRateCheck "media/upload"; upload_event c buffer mimeType]
        ++ rest.
Proof.
  intros payload item Hsize Hcheck Hpre Hup.
  assert (Hlen : Js.strlen payload <= MAX_BASE64_SIZE).
  { unfold payload. rewrite encode_length.
    unfold MAX_MEDIA_FILE_SIZE in Hsize. unfold MAX_BASE64_SIZE.
    assert (H1 : 1024 * 1024 = 1048576) by reflexivity.
    Z.to_euclidean_division_equations; lia. }
  split; [exact Hlen|]. split; [apply decode_encode|].
  destruct (checkRateLimit_frame _ _ _ _ _ _ _ Hup) as (_ & _ & _ & ->).
  assert (Hs : same_session c c3).
  { pose proof (checkRateLimit_session "tweets/create" w c tr) as H1.
    rewrite Hcheck in H1. cbn [fst snd] in H1.
    pose proof (mediaLoop_cases pre [] w c1 tr1) as H2. rewrite Hpre in H2.
    destruct H2 as [H2 _].
    pose proof (checkRateLimit_session "media/upload" w c2 (tr2 ++ [EvDecode payload])) as H3.
    rewrite Hup in H3. cbn [fst snd] in H3.
    exact (same_session_trans _ _ _ (same_session_trans _ _ _ H1 H2) H3). }
  (* the item's step *)
  assert (Hstep : exists o c4 rest1,
             mediaItemStep item mediaIds w c2 tr2
             = (o, c4, tr2 ++ [EvDecode payload; EvRateCheck "media/upload";
                               upload_event c buffer mimeType] ++ rest1)).
  { rewrite mediaItemStep_eq. cbn [data media_type item].
    destruct (MAX_BASE64_SIZE <? Js.strlen payload) eqn:E1; [lia|].
    assert (Hdec : Base64.decode payload = buffer) by apply decode_encode.
    rewrite !Hdec. fold payload. rewrite String.eqb_refl. cbn [negb].
    rewrite uploadMedia_eq.
    destruct (MAX_MEDIA_FILE_SIZE <? Base64.buflen buffer) eqn:E2; [lia|].
    rewrite Hup. rewrite (upload_event_session _ _ _ _ Hs).
    destruct (upload_answer w c3 ((tr2 ++ [EvDecode payload]) ++ [EvRateCheck "media/upload"])
                buffer mimeType) as [mediaId|e].
    - exists (Returned (mediaIds ++ [mediaId])), c3, [].
      rewrite <- !app_assoc. reflexivity.
    - destruct (uploadMedia_catch_tagged e w c3
                  (((tr2 ++ [EvDecode payload]) ++ [EvRateCheck "media/upload"])
                   ++ [upload_event c buffer mimeType])) as [te ->].
      exists (Threw (Tagged te)), c3, []. rewrite <- !app_assoc. reflexivity. }
  destruct Hstep as (o & c4 & rest1 & Hstep).
  (* the rest of the loop and of the operation only append *)
  assert (Hloop : exists o' c5 rest2,
             mediaLoop (pre ++ item :: post) [] w c1 tr1
             = (o', c5, tr2 ++ [EvDecode payload; EvRateCheck "media/upload";
                                upload_event c buffer mimeType] ++ rest2)).
  { rewrite mediaLoop_app, Hpre. cbn [mediaLoop]. unfold bind at 1. rewrite Hstep.
    destruct o as [ids|e]; [|eauto].
    destruct (mediaLoop_footprint post ids w c4
                (tr2 ++ [EvDecode payload; EvRateCheck "media/upload";
                         upload_event c buffer mimeType] ++ rest1)) as (tail & Htail & _).
    destruct (mediaLoop post ids w c4 _) as [[o' c5] tr5]. cbn [snd] in Htail. subst tr5.
    exists o', c5, (rest1 ++ tail). rewrite <- !app_assoc. reflexivity. }
  destruct Hloop as (o' & c5 & rest2 & Hloop).
  destruct (pre ++ item :: post) as [|first others] eqn:E.
  { destruct pre; discriminate. }
  rewrite postTweetWithMedia_eq, Hcheck, Hloop.
  destruct o' as [ids|e].
  - cbn zeta.
    destruct (v2_tweet w _ _).
    + cbn [snd]. eexists. rewrite <- !app_assoc. reflexivity.
    + rewrite (proj2 (handleApiError_effect _ _ _ _)).
      eexists. rewrite <- !app_assoc. reflexivity.
  - rewrite (proj2 (handleApiError_effect _ _ _ _)). eexists. reflexivity.
Qed.

(** The two bytes "hi", encoded as "aGk=". *)
Lemma encoded_media_uploaded_intact_witness :
  let w := calm_world 1000 60000 in
  let c := fresh_client oauth1_config in
  let bytes := [Byte.x68; Byte.x69] in
  Base64.encode bytes = "aGk=" /\
  exists rest,
    snd (postTweetWithMedia "hi" None (Some [mkMediaItem "aGk=" "image/png"]) w c [])
    = [EvRateCheck "tweets/create"]
        ++ [EvDecode "aGk="; EvRateCheck "media/upload"; EvUploadV1 bytes "image/png"] ++ rest.
Proof.
  intros w c bytes. split; [reflexivity|].
  refine (proj2 (proj2 (encoded_media_uploaded_intact "hi" None [] [] bytes "image/png"
                          w c [] _ _ [] _ _ _ _ _ _ _ _))).
  - vm_compute. discriminate.
  - vm_compute. reflexivity.
  - reflexivity.
  - vm_compute. reflexivity.
Defined.

(** ** The v2 uploader's answer *)

(** X11.  What the v2 uploader makes of a successful answer.  Under OAuth
    2.0, an upload of at most 5 MiB whose quota check passed and which the
    endpoint answered with a success status and a JSON body returns the
    identifier read from the body, after exactly one request: when the body
    has a [data] member only [data.id] and then [data.media_key] are read,
    otherwise [media_id_string], [media_id] and [id] in that order.  A body
    without any of them is not an error: the upload returns an absent (or
    empty) identifier. *)
Theorem v2_upload_reads_the_answer buffer mimeType w c tr c1 tr1 token response json :
  authType (config c) = oauth2 ->
  v2MediaUploader c = Some token ->
  Base64.buflen buffer <= MAX_MEDIA_FILE_SIZE ->
  checkRateLimit "media/upload" w c tr = (Returned tt, c1, tr1) ->
  fetch_upload w tr1 token buffer mimeType (category_of mimeType) = Returned response ->
  up_ok response = true ->
  up_json response = Returned json ->
  uploadMedia buffer mimeType w c tr
  = (Returned (answered_id json), c1,
     tr1 ++ [EvUploadV2 token buffer mimeType (category_of mimeType)]) /\
  (forall d, uj_data json = Some d ->
     answered_id json = (if Js.truthy_str (ud_id d) then ud_id d else ud_media_key d)) /\
  ((forall d, uj_data json = Some d ->
      Js.truthy_str (ud_id d) = false /\ Js.truthy_str (ud_media_key d) = false) ->
   (uj_data json = None ->
      Js.truthy_str (uj_media_id_string json) = false /\
      Js.truthy_str (uj_media_id json) = false /\
      Js.truthy_str (uj_id json) = false) ->
   Js.truthy_str (answered_id json) = false).
Proof.
  intros Hauth Htok Hsize Hcheck Hfetch Hok Hjson.
  split; [|split].
  - rewrite uploadMedia_eq.
    destruct (MAX_MEDIA_FILE_SIZE <? Base64.buflen buffer) eqn:E; [lia|].
    rewrite Hcheck.
    destruct (checkRateLimit_frame _ _ _ _ _ _ _ Hcheck) as (_ & Hcfg & Hupl & _).
    unfold upload_answer, upload_event. rewrite Hcfg, Hupl, Hauth, Htok.
    unfold V2MediaUploader_uploadMedia, tryCatch, bind, remote, liftOutcome, ret, throw.
    cbn zeta. fold (category_of mimeType). rewrite Hfetch, Hok. cbn [negb].
    rewrite Hjson. cbn [fst].
    unfold answered_id. destruct (uj_data json); reflexivity.
  - intros d Hd. unfold answered_id. rewrite Hd. reflexivity.
  - intros Hdata Hnone. unfold answered_id, Js.or_str.
    destruct (uj_data json) as [d|].
    + destruct (Hdata d eq_refl) as [H1 H2]. rewrite H1. exact H2.
    + destruct (Hnone eq_refl) as (H1 & H2 & H3). rewrite H1, H2. exact H3.
Qed.

(** An answer with an empty JSON object: the upload returns no identifier. *)
Lemma v2_upload_reads_the_answer_witness :
  let empty_answer :=
    mkUploadResponse true "{}" (Returned (mkUploadJson None None None None)) in
  let w := with_fetch_upload (fun _ _ _ _ _ => Returned empty_answer) (calm_world 1000 60000) in
  let c := fresh_client oauth2_config in
  exists c1,
    uploadMedia [Byte.x00] "image/png" w c []
    = (Returned None, c1,
       [EvRateCheck "media/upload"] ++ [EvUploadV2 "bearer" [Byte.x00] "image/png" "tweet_image"]).
Proof.
  intros empty_answer w c.
  assert (Hcheck : exists c1,
             checkRateLimit "media/upload" w c [] = (Returned tt, c1, [EvRateCheck "media/upload"]))
    by (eexists; vm_compute; reflexivity).
  destruct Hcheck as [c1 Hcheck]. exists c1.
  refine (proj1 (v2_upload_reads_the_answer [Byte.x00] "image/png" w c [] c1 _ "bearer"
                   empty_answer (mkUploadJson None None None None) _ _ _ Hcheck _ _ _));
    try reflexivity.
  vm_compute. discriminate.
Defined.

(** ** The credential refresher: a successful refresh *)



(** ** The tool server *)






(** The schemas on the inputs of the repository's own tests
    (tests/unit/types.test.ts). *)
Example PostTweetSchema_accepts :
  PostTweetSchema (Some (JObj [("text", JStr "Hello world!")]))
  = Some (mkPostTweetArgs "Hello world!" None None) /\
  PostTweetSchema (Some (JObj [("text", JStr "Hello reply!");
                               ("reply_to_tweet_id", JStr "123456789")]))
  = Some (mkPostTweetArgs "Hello reply!" (Some "123456789") None) /\
  PostTweetSchema
    (Some (JObj [("text", JStr "Tweet with image");
                 ("media", JArr [JObj [("data", JStr "base64-encoded-image-data");
                                       ("media_type", JStr "image/jpeg")]])]))
  = Some (mkPostTweetArgs "Tweet with image" None
            (Some [mkMediaItem "base64-encoded-image-data" "image/jpeg"])) /\
  (exists a, PostTweetSchema (Some (JObj [("text", JStr (Base64.repeat_text "A" 280))]))
             = Some a).
Proof. repeat split. eexists. vm_compute. reflexivity. Qed.

Example PostTweetSchema_rejects :
  let image := JObj [("data", JStr "image"); ("media_type", JStr "image/jpeg")] in
  PostTweetSchema (Some (JObj [("text", JStr "")])) = None /\
  PostTweetSchema (Some (JObj [("text", JStr (Base64.repeat_text "A" 281))])) = None /\
  PostTweetSchema (Some (JObj [("text", JStr "Too many images");
                               ("media", JArr [image; image; image; image; image])]))
  = None /\
  PostTweetSchema
    (Some (JObj [("text", JStr "Unsupported media");
                 ("media", JArr [JObj [("data", JStr "video-data");
                                       ("media_type", JStr "video/mp4")]])]))
  = None /\
  PostTweetSchema (Some (JObj [("text", JStr "hi"); ("reply_to_tweet_id", JNull)])) = None /\
  PostTweetSchema None = None.
Proof. repeat split. Qed.

Example SearchTweetsSchema_cases :
  SearchTweetsSchema (Some (JObj [("query", JStr "#AI"); ("count", JNum (20 # 1))]))
  = Some (mkSearchTweetsArgs "#AI" 20) /\
  SearchTweetsSchema (Some (JObj [("query", JStr ""); ("count", JNum (20 # 1))])) = None /\
  SearchTweetsSchema (Some (JObj [("query", JStr "#AI"); ("count", JNum (5 # 1))])) = None /\
  SearchTweetsSchema (Some (JObj [("query", JStr "#AI"); ("count", JNum (150 # 1))])) = None /\
  SearchTweetsSchema (Some (JObj [("query", JStr "#AI"); ("count", JNum (41 # 2))])) = None /\
  SearchTweetsSchema (Some (JObj [("query", JStr "#AI"); ("count", JStr "20")])) = None.
Proof. repeat split. Qed.

Section ServerProperties.

Variable PostTweetSchema_issues : option Json -> string.
Variable SearchTweetsSchema_issues : option Json -> string.
Variable SearchResponse : Type.
Variable formatSearchResponse : string -> list Tweet -> list TwitterUser -> SearchResponse.
Variable toMcpResponse : SearchResponse -> string.

Let call := callTool PostTweetSchema_issues SearchTweetsSchema_issues SearchResponse
              formatSearchResponse toMcpResponse.





End ServerProperties.

(** *** Starting the server *)

Lemma truthy_or_empty o : Js.truthy_str (Js.or_str o (Some "")) = Js.truthy_str o.
Proof. unfold Js.or_str. destruct (Js.truthy_str o) eqn:E; [exact E|reflexivity]. Qed.

Lemma ConfigSchema_refine_factory cfg :
  ConfigSchema_refine cfg = true <-> exists api, createTwitterClient cfg = Returned api.
Proof.
  unfold ConfigSchema_refine, createTwitterClient.
  destruct (authType cfg).
  - destruct (Js.truthy_str (apiKey cfg)), (Js.truthy_str (apiSecretKey cfg)),
      (Js.truthy_str (accessToken cfg)), (Js.truthy_str (accessTokenSecret cfg));
      cbn; iff_by_cases.
  - destruct (Js.truthy_str (oauth2AccessToken cfg));
      cbn; iff_by_cases.
Qed.

(** X13.  When the server starts.  Built from the environment as [index.ts]
    reads it, the server starts exactly when the environment holds the
    credentials of the authentication type it selects: with [AUTH_TYPE] unset,
    empty or "oauth1", non-empty [API_KEY], [API_SECRET_KEY], [ACCESS_TOKEN]
    and [ACCESS_TOKEN_SECRET]; with "oauth2", a non-empty
    [OAUTH2_ACCESS_TOKEN]; with any other value, never.  It then holds the
    validated configuration, the session the factory makes for it, and empty
    quota maps.  Otherwise the constructor throws "Invalid configuration: ..."
    with the schema's issues: the factory's own errors cannot occur behind the
    schema. *)
Theorem server_start_condition (ConfigSchema_issues : EnvConfig -> string)
    (env : gmap string string) :
  match new_TwitterServer ConfigSchema_issues (config_of_env env) with
  | Returned c =>
      credentials_present env = true /\
      ConfigSchema (config_of_env env) = Some (config c) /\
      createTwitterClient (config c) = Returned (client c) /\
      rateLimitMap c = ∅ /\ dailyLimits c = ∅
  | Threw e =>
      credentials_present env = false /\
      e = ErrorObj ("Invalid configuration: " +:+ ConfigSchema_issues (config_of_env env))
            None None
  end.
Proof.
  assert (Hauth : env_authType (config_of_env env)
                  = match env !! "AUTH_TYPE" with
                    | None => "oauth1"
                    | Some a => if String.eqb a "" then "oauth1" else a
                    end).
  { unfold config_of_env. cbn [env_authType]. unfold Js.or_str.
    destruct (env !! "AUTH_TYPE") as [a|]; [|reflexivity].
    cbn [Js.truthy_str]. destruct (String.eqb a ""); reflexivity. }
  assert (Hschema : (exists cfg, ConfigSchema (config_of_env env) = Some cfg)
                    <-> credentials_present env = true).
  { unfold ConfigSchema, credentials_present. rewrite Hauth.
    unfold ConfigSchema_refine.
    cbn [authType apiKey apiSecretKey accessToken accessTokenSecret oauth2AccessToken].
    unfold config_of_env.
    cbn [env_apiKey env_apiSecretKey env_accessToken env_accessTokenSecret
         env_oauth2AccessToken].
    rewrite !truthy_or_empty. unfold z_authType. clear Hauth.
    destruct (env !! "AUTH_TYPE") as [a|].
    - destruct (String.eqb a ""); cbn [orb].
      + cbn [String.eqb Ascii.eqb Bool.eqb]. destruct (_ && _); iff_by_cases.
      + destruct (String.eqb a "oauth1").
        * destruct (_ && _); iff_by_cases.
        * destruct (String.eqb a "oauth2").
          -- destruct (Js.truthy_str _); iff_by_cases.
          -- iff_by_cases.
    - cbn [String.eqb Ascii.eqb Bool.eqb]. destruct (_ && _); iff_by_cases. }
  unfold new_TwitterServer.
  destruct (ConfigSchema (config_of_env env)) as [cfg|] eqn:Ecfg.
  - assert (Hrefine : ConfigSchema_refine cfg = true).
    { unfold ConfigSchema in Ecfg. destruct (z_authType _); [|discriminate].
      destruct (ConfigSchema_refine _) eqn:E; [|discriminate].
      injection Ecfg as <-. exact E. }
    apply ConfigSchema_refine_factory in Hrefine as [api Hapi].
    unfold new_TwitterClient. rewrite Hapi. cbn [config client rateLimitMap dailyLimits].
    split; [apply Hschema; eauto|]. auto.
  - split; [|reflexivity].
    destruct (credentials_present env) eqn:E; [|reflexivity].
    destruct (proj2 Hschema eq_refl) as [cfg Hcfg]. congruence.
Qed.

(** The server started from two environments, and three tool calls. *)
Example server_starts :
  let complete : gmap string string :=
    {[ "API_KEY" := "k"; "API_SECRET_KEY" := "s"; "ACCESS_TOKEN" := "t";
       "ACCESS_TOKEN_SECRET" := "ts" ]} in
  let incomplete : gmap string string := {[ "AUTH_TYPE" := "oauth2"; "API_KEY" := "k" ]} in
  (exists c, new_TwitterServer (fun _ => "issues") (config_of_env complete) = Returned c /\
             client c = OAuth1Client "k" "s" "t" "ts") /\
  new_TwitterServer (fun _ => "issues") (config_of_env incomplete)
  = Threw (ErrorObj "Invalid configuration: issues" None None).
Proof.
  intros complete incomplete.
  split; [eexists; split; vm_compute; reflexivity|].
  vm_compute. reflexivity.
Qed.

Example tool_calls :
  let call :=
    callTool (fun _ => "issues") (fun _ => "issues") string (fun query _ _ => query)
      (fun text => text) in
  let w := calm_world 1000 0 in
  let c := fresh_client oauth1_config in
  let hello := Some (JObj [("text", JStr "Hello")]) in
  fst (fst (call "post_tweet" hello w c []))
  = inl (mkTextContent
           ("Tweet posted successfully!" +:+ String "010"%char
              "URL: https://twitter.com/status/1") false) /\
  fst (fst (call "post_tweet" hello w (snd (fst (call "post_tweet" hello w c []))) []))
  = inl (mkTextContent "Rate limit exceeded. Please wait a moment before trying again." true) /\
  call "post_tweet" (Some (JObj [("text", JStr "")])) w c []
  = (inr (mkMcpError InvalidParams "Invalid parameters: issues"), c, []) /\
  call "delete_tweet" (Some (JObj [("tweet_id", JStr "1")])) w c []
  = (inr (mkMcpError MethodNotFound "Unknown tool: delete_tweet"), c, []).
Proof. intros call w c hello. repeat split; vm_compute; reflexivity. Qed.

(** ** Media: an oversized upload *)

Lemma string_of_uint_digits d : all_chars is_digit (NilEmpty.string_of_uint d) = true.
Proof. induction d; cbn [NilEmpty.string_of_uint all_chars]; auto. Qed.

Lemma show_digits z : 0 <= z -> all_chars is_digit (Js.show z) = true.
Proof.
  intros Hz. unfold Js.show, NilZero.string_of_int.
  destruct z as [|p|p]; [reflexivity| |lia].
  cbn [Z.to_int]. unfold NilZero.string_of_uint.
  destruct (Pos.to_uint p); try reflexivity; apply string_of_uint_digits.
Qed.

Lemma prefix_nil s : String.prefix "" s = true.
Proof. destruct s; reflexivity. Qed.

(** A needle none of whose characters is [c] cannot reach into a text that
    starts with [c]. *)
Lemma prefix_before needle c rest :
  needle <> "" ->
  all_chars (fun a => negb (Ascii.eqb a c)) needle = true ->
  forall d, String.prefix needle (d +:+ String c rest) = String.prefix needle d.
Proof.
  intros Hne Hall d. revert needle Hne Hall.
  induction d as [|b d IH]; intros needle Hne Hall.
  - destruct needle as [|a n]; [contradiction|].
    change ("" +:+ String c rest) with (String c rest).
    cbn [String.prefix all_chars] in *.
    apply andb_true_iff in Hall as [Ha _].
    destruct (ascii_dec a c) as [->|]; [|reflexivity].
    rewrite Ascii.eqb_refl in Ha. discriminate.
  - destruct needle as [|a n]; [contradiction|].
    change (String b d +:+ String c rest) with (String b (d +:+ String c rest)).
    cbn [String.prefix].
    destruct (ascii_dec a b); [|reflexivity].
    destruct n as [|a' n'].
    + rewrite !prefix_nil. reflexivity.
    + apply IH; [discriminate|].
      cbn [all_chars] in Hall. apply andb_true_iff in Hall as [_ Hall]. exact Hall.
Qed.

Lemma includes_before needle c rest :
  needle <> "" ->
  all_chars (fun a => negb (Ascii.eqb a c)) needle = true ->
  Js.includes needle (String c rest) = false ->
  forall d, Js.includes needle (d +:+ String c rest) = Js.includes needle d.
Proof.
  intros Hne Hall Hrest. induction d as [|b d IH].
  - change ("" +:+ String c rest) with (String c rest).
    rewrite Hrest. destruct needle; [contradiction|reflexivity].
  - change (String b d +:+ String c rest) with (String b (d +:+ String c rest)).
    cbn [Js.includes]. rewrite IH.
    change (String b (d +:+ String c rest)) with (String b d +:+ String c rest).
    rewrite (prefix_before needle c rest Hne Hall (String b d)). reflexivity.
Qed.

Lemma digits_without_letters needle a d :
  is_digit a = false ->
  all_chars is_digit d = true ->
  Js.includes (String a needle) d = false.
Proof.
  intros Ha. induction d as [|b d IH]; intros Hd; [reflexivity|].
  cbn [all_chars] in Hd. apply andb_true_iff in Hd as [Hb Hd].
  cbn [Js.includes String.prefix].
  destruct (ascii_dec a b) as [->|]; [congruence|].
  cbn [orb]. apply IH. exact Hd.
Qed.

(** The size error's message mentions "403" exactly when the file's size in
    MB does, and never "scope". *)
Lemma size_message_includes len :
  0 <= len ->
  let message := te_message (fileTooLargeError len) in
  Js.includes "403" message = Js.includes "403" (Js.show (Js.round_div len (1024 * 1024))) /\
  Js.includes "scope" message = false.
Proof.
  intros Hlen message. subst message. unfold fileTooLargeError. cbn [te_message].
  change (Js.show (Js.round_div MAX_MEDIA_FILE_SIZE (1024 * 1024))) with "5".
  set (d := Js.show (Js.round_div len (1024 * 1024))).
  assert (Hd : all_chars is_digit d = true).
  { apply show_digits. unfold Js.round_div. apply Z.div_pos; lia. }
  clearbody d.
  assert (H403 : forall X, Js.includes "403"
                   ("Media file too large. Maximum size is " +:+ "5" +:+ "MB. Your file is " +:+ X)
                 = Js.includes "403" X) by reflexivity.
  assert (Hscope : forall X, Js.includes "scope"
                   ("Media file too large. Maximum size is " +:+ "5" +:+ "MB. Your file is " +:+ X)
                 = Js.includes "scope" X) by reflexivity.
  rewrite H403, Hscope. split.
  - apply includes_before; [discriminate|reflexivity|reflexivity].
  - rewrite includes_before; [|discriminate|reflexivity|reflexivity].
    apply digits_without_letters; [reflexivity|exact Hd].
Qed.

(** X16.  An upload of more than 5 MiB is turned away at once: no quota
    check, no remote call, the client untouched.  The caller catches the
    [file_too_large] error, whose message gives the size in whole MB, unless
    that figure contains "403" (a file of about 403 MB, for one): then the
    upload's own [catch] takes the size error for a refused request and the
    caller catches [media_upload_forbidden] instead. *)
Theorem oversized_upload buffer mimeType w c tr :
  MAX_MEDIA_FILE_SIZE < Base64.buflen buffer ->
  let len := Base64.buflen buffer in
  let megabytes := Js.round_div len (1024 * 1024) in
  uploadMedia buffer mimeType w c tr
  = (Threw (Tagged (if Js.includes "403" (Js.show megabytes)
                    then mediaUploadForbiddenError
                    else fileTooLargeError len)), c, tr) /\
  te_message (fileTooLargeError len)
  = "Media file too large. Maximum size is 5MB. Your file is "
      +:+ Js.show megabytes +:+ "MB." /\
  te_code (fileTooLargeError len) = CodeStr "file_too_large" /\
  te_code mediaUploadForbiddenError = CodeStr "media_upload_forbidden".
Proof.
  intros Hbig len megabytes. split; [|repeat split].
  rewrite uploadMedia_eq. fold len.
  destruct (MAX_MEDIA_FILE_SIZE <? len) eqn:E; [|lia].
  destruct (size_message_includes len) as [H403 Hscope].
  { unfold MAX_MEDIA_FILE_SIZE in Hbig. subst len. lia. }
  unfold uploadMedia_catch.
  cbn [instanceof_Error thrown_message Js.nullish andb].
  rewrite Hscope, H403. fold megabytes. cbn [orb].
  destruct (Js.includes "403" (Js.show megabytes)); reflexivity.
Qed.

(** A file of 6 MiB, and one of 403 MiB. *)
Lemma oversized_upload_witness :
  let w := calm_world 1000 60000 in
  let c := fresh_client oauth1_config in
  let six := Base64.repeat_bytes [Byte.x00] (6 * 1024 * 1024) in
  let big := Base64.repeat_bytes [Byte.x00] (403 * 1024 * 1024) in
  uploadMedia six "image/png" w c []
  = (Threw (Tagged (fileTooLargeError (6 * 1024 * 1024))), c, []) /\
  te_message (fileTooLargeError (6 * 1024 * 1024))
  = "Media file too large. Maximum size is 5MB. Your file is 6MB." /\
  uploadMedia big "image/png" w c [] = (Threw (Tagged mediaUploadForbiddenError), c, []).
Proof.
  intros w c six big.
  assert (Hsix : Base64.buflen six = 6 * 1024 * 1024).
  { unfold six. rewrite buflen_repeat_bytes. reflexivity. }
  assert (Hbig : Base64.buflen big = 403 * 1024 * 1024).
  { unfold big. rewrite buflen_repeat_bytes. reflexivity. }
  split; [|split; [reflexivity|]].
  - destruct (oversized_upload six "image/png" w c []) as [H _].
    + rewrite Hsix. reflexivity.
    + rewrite H, Hsix. reflexivity.
  - destruct (oversized_upload big "image/png" w c []) as [H _].
    + rewrite Hbig. reflexivity.
    + rewrite H, Hbig. reflexivity.
Defined.
